(* ===== verification/_CoqProject ===== *)
-Q . S2P
Prelude.v
JsNumber.v
JsString.v
RegExp.v
StableSort.v
Normalizer.v
Resolver.v
Aggregate.v
MonadLogic.v
BatchImport.v
Rescan.v
Diagnostics.v
Contracts.v
WorldInvariant.v
TrackBacking.v
RoundTrip.v
Scenarios.v
