(* ===== verification/Prelude.v ===== *)
(** * A verification development of the audiobookshelf audio-file scanner

    The program is one JavaScript module, [src/server/utils/audioFileScanner.js].
    It turns the output of an external media prober into canonical metadata
    ([scan]), derives track and disc numbers from the metadata and from the
    file name ([getTrackNumberFromMeta], [getTrackNumberFromFilename],
    [getCdNumberFromFilename]), imports a batch of new files into an audiobook
    ([scanAudioFiles]), re-synchronises already known files ([rescanAudioFiles])
    and reports track numbers for auditing ([scanTrackNumbers]).

    ** How the parts interact

    [scan] calls the prober; both reconcilers call [scan] once per file, then
    the three number resolvers, then mutate the audiobook aggregate (its
    [audioFiles] and [tracks] arrays and the audio-file objects they hold).
    The resolvers rely on three JavaScript library behaviours that decide the
    result: [Number()] on tag strings, [String.prototype.replace] / [match]
    with the regular expressions of the source, and [Array.prototype.sort].
    Each of these is modelled from the ECMAScript definition, because the
    scanner's answers depend on their corner cases.

    ** Files (in dependency order, as listed in _CoqProject)

    - [Prelude]    this header; the [js_scope] notations, the [s2p] hint
                   database, shared tactics and generic lemmas on options,
                   lists and finds.
    - [JsNumber]   IEEE-754 binary64 values as [jsnum] (NaN, infinities,
                   finite dyadic [m * 2^e]), correctly rounded conversion of a
                   rational, [Number(string)] (StringToNumber), [Math.trunc],
                   [isNaN], the integer-valued [xint] used for track indices,
                   [index += 1] and the sign of [a.index - b.index].
    - [JsString]   [String.prototype.replace] with a string pattern (first
                   occurrence, [undefined] replacement becomes ["undefined"]),
                   [startsWith], [split('/')], [parseInt], node's
                   [path.extname]/[path.basename] on a bare file name.
    - [RegExp]     the ECMAScript backtracking matcher (continuation-passing
                   semantics of ES2023 22.2.2) for the pattern subset used by
                   the scanner: characters with [/i] canonicalisation, [\d],
                   [\b], sequence, alternation, capture groups and greedy
                   bounded quantifiers; [RegExpBuiltinExec], non-global
                   [replace] and global [match].
    - [StableSort] [Array.prototype.sort] with a consistent comparator, as a
                   stable insertion sort, with its specification (sorted,
                   permutation, stable) and uniqueness of the result.
    - [Normalizer] the probe result types and [scan] with
                   [getDefaultAudioStream] (source lines 5-70).
    - [Resolver]   the three number resolvers, the CD-to-track promotion and
                   the regular expressions of lines 92, 95, 97 and 115.
    - [Aggregate]  the audiobook aggregate (audio files in a heap addressed by
                   reference, tracks), its operations used by the scanner,
                   and the state/exception/log monad of the reconcilers.
    - [BatchImport] [scanAudioFiles] (lines 125-230), an abstract index
                   assignment and the refinement theorem between them.
    - [Rescan]     [rescanAudioFiles] (lines 234-292).
    - [Diagnostics] [scanTrackNumbers] (lines 295-316).
    - [MonadLogic] a unary program logic for [M]: [keeps P m] (a run of
                   [m] keeps the world property [P], also through a throw),
                   with one rule per construct and the tactic [keeps_tac];
                   Hoare triples [triple P m Q E] for invariants that
                   depend on a loop's accumulator.
    - [Contracts]  the interfaces [ImportInvariant] and [RescanInvariant]:
                   what the aggregate's operations, as each reconciler calls
                   them, promise a world property; the reconcilers proved
                   once against them; the frame properties as instances.
    - [WorldInvariant] the well-formedness of the world ([world_wf]) as an
                   instance of both interfaces, with a decision procedure.
    - [TrackBacking] the spec's data-model invariant [tracks_backed]
                   (every track corresponds to a non-invalid audio file of
                   the audiobook): kept by an import, and by a rescan when
                   no invalid file has the path of a track ([path_safe]).
    - [RoundTrip]  the agreement of the two reconcilers: a rescan right
                   after an import finds nothing to update.
    - [Scenarios]  concrete runs of the reconcilers on small audiobooks
                   (fixtures, the spec's example, and the witnesses of the
                   general theorems).

    ** Correspondence of state and operations

    The reconcilers run in the monad [M A := World -> result A * World] of
    [Aggregate] (notations [let* x := m in k] and [m ;;; k] in [js_scope]):
    [result] is [Done v], or [Thrown] for a rejected promise of the prober
    that the source does not catch. The [World] holds the heap of
    audio-file objects ([gmap loc AudioFile]), the next free location, the
    audiobook (its [audioFiles] and [tracks] are lists of locations, so the
    aliasing of [tracks] and [audiobook.audioFiles] is kept) and the log.
    Every assignment of the source to a field of an audio file ([index],
    [invalid], [error]) is a [modify_file] on the heap; the writes of the
    audiobook's arrays are [modify_ab]; [audiobook.addAudioFile],
    [audiobook.addTrack], [audioFile.updateMetadata] and
    [track.syncMetadata] are [addAudioFile], [addTrack], [updateMetadata]
    and [syncMetadata]. A [for] loop with [await] is [mfold].

    - [scan] (lines 5-70) is [Normalizer.scan]; [mscan] adds its debug log.
    - lines 74-123 are [Resolver.getTrackNumberFromMeta],
      [getTrackNumberFromFilename], [getCdNumberFromFilename]; the CD
      promotion repeated on lines 145-156 and 247-258 is [promote_cd].
    - [scanAudioFiles] (lines 125-230) is [BatchImport.scanAudioFiles]: the
      loop body is [import_file]; the code after the loop is
      [finish_import]: the sorts of lines 207, 209 and 228 are [js_sort]
      with [track_cmp], [file_cmp] and [audio_track_cmp], the zero shift of
      lines 216-221 is [shift_if_zero].
    - [rescanAudioFiles] (lines 234-292) is [Rescan.rescanAudioFiles], its
      body [rescan_file], the lookup by inode / by path [sync_track].
    - [scanTrackNumbers] (lines 295-316) is [Diagnostics.scanTrackNumbers].

    ** What is proved

    - Batch import: [scanAudioFiles_refines] shows that a batch whose
      probes all answer completes and commits the track indices of the
      abstract plan [plan_batch] (first claim of an index wins, later ones
      are duplicates, the sorted indices are shifted when the first is 0).
      From it, on integer candidates: the committed indices are strictly
      increasing and positive ([batch_commits_increasing]), they do not
      depend on the order of [newAudioFiles] ([batch_order_independent]),
      a single file gets index 1, and the summary log prints the duplicate
      count (also in the invalid-files message).  Two general theorems
      show where the code breaks the spec's promises on indices: a batch
      with a negative candidate and the candidate 0 commits index 0
      ([negative_candidate_commits_zero]), and a candidate that an existing
      track holds is committed a second time
      ([import_ignores_existing_indices]).  One loop step marks a file
      whose candidate an accepted file holds invalid with 'Duplicate track
      number' ([import_file_duplicate]).  A rejection of the prober
      propagates and leaves the tracks as they were.
      [scanAudioFiles_tracks_backed] ([TrackBacking]): from a well-formed
      world whose tracks are backed, every track after an import is backed
      by a non-invalid audio file with its [ino]; the proof carries, with
      triples, the accepted files of the loop as valid files and the file
      just allocated as one no track depends on.
    - Rescan: the update count is the number of changed files; lookup by
      inode, then by path with inode correction ([rescan_file_path_fallback],
      which does not look at the file's [invalid] flag), and an orphan is
      only logged.  [rescanAudioFiles_tracks_backed]: when no invalid file
      has the path of a track, a rescan keeps [tracks_backed] and that
      condition; without it the path fallback can bind a track to an
      invalid duplicate at the same path.
    - State invariants ([WorldInvariant], [Contracts]): an import keeps the
      world well formed ([audiobook.audioFiles] references each allocated
      object once, no dangling reference, fresh addresses free, every
      invalid file carries an error) and never drops a track or a
      reference; a rescan never changes [audioFiles] nor the order and
      indices of the tracks.  Each holds also through a rejected probe.
    - Round trip ([RoundTrip]): importing a batch and then rescanning with
      the same prober counts 0 updates and changes only the log.
    - Resolvers: the file-name resolver returns the first run of one to
      four digits after the removals, its value lies in [0, 9999]; the CD
      number is promoted when the file name gives no track number.
    - Normalizer: the error object of a failed scan, and the fields of a
      successful one (the stream chosen, the bit rate).
    - Diagnostics: the reporter writes only the log and returns one report
      per track, in order, whose file-name number is the raw reading
      without the reconcilers' CD promotion.
    - Library lemmas: [js_sort] is the unique stable sort of its input,
      [Number()] on a digit string is its decimal value, and the fuel
      bounds below.

    ** Fuel

    - [RegExp.exec] tries the start positions [i .. length s]; its fuel
      [S (length s - i)] covers them all ([exec_loop_fuel]: more fuel gives
      the same result).
    - The backtracking matcher recurses on the pattern and, in a
      quantifier, on the quantifier's maximum (at most four in the
      patterns of the source), so it needs no fuel.
    - [js_match_global] runs [length s + 2] rounds: each round moves the
      search position forward by at least one and a search past the end
      finds nothing, so this is enough ([match_global_loop_fuel],
      [js_match_global_fuel]).
    - [js_sort] and every loop of the reconcilers are structural on a list.

    ** Modelling choices

    - Characters are 8-bit ([ascii]), read as the Latin-1 subset of UTF-16
      code units. Every behaviour of the scanner that depends on a character
      ([\d], [\w], [/i] folding of the letters of "disc"/"cd", '.', white
      space of StringToNumber) is decided inside this range.
    - Numbers are binary64 values with correct rounding; [-0] is identified
      with [+0] (no operation of the scanner distinguishes them: [===],
      [+ 1], subtraction signs and template strings treat them alike).
    - The prober is a parameter: a function from (path, verbose) to a probe
      outcome (data, null, or a thrown error).
    - The audiobook aggregate and its [AudioFile]/[AudioTrack] classes are not
      under src/: their methods are modelled from the spec (section 6).
    - Logging is an output trace of structured events.

    ** Not modelled

    - The prober (./prober) and the Logger: not in this repository; the
      prober is a parameter, the log a trace of events.
    - The discovery of files on disk: [newAudioFiles] is an input.
    - The methods of the audiobook aggregate that the scanner does not
      call, and the case [audiobook.tracks] undefined of [tracks || []]
      (the aggregate always holds an array).
    - Characters outside Latin-1: see above.
    - The ECMAScript and node library only as far as the scanner calls it
      (Number, parseInt, Math.trunc, binary64 [+] and [-], [===], the
      string methods, the RegExp matcher on the patterns of the source,
      Array.prototype.sort, path.basename/extname); the rest of the
      library is outside the program.
    - The module plumbing of the source (the [require] lines 1-3 and the
      [module.exports] assignments): they bind names and carry no
      behaviour.  Every other line of the source is translated. *)

From Stdlib Require Export ZArith Ascii String Lia.
From stdpp Require Export base list strings gmap sorting.

Declare Scope js_scope.
Delimit Scope js_scope with js.

Create HintDb s2p discriminated.
Create Rewrite HintDb js_simpl.

(** ** Tactics shared by the development *)

(** Invert a hypothesis and clean up. *)
Ltac invc H := inversion H; subst; clear H.

(** Case on every boolean test, [match] on a decidable proposition or on
    an option in the goal, recording the equation. *)
Ltac js_cases :=
  repeat match goal with
  | |- context [if ?b then _ else _] =>
      lazymatch b with
      | decide _ => case_decide
      | _ => let E := fresh "E" in destruct b eqn:E
      end
  end.

(** ** Generic lemmas on options and lists *)

Section Generic.
Context {A : Type}.

(** [Array.prototype.find] on a list: the first element satisfying [p]. *)
Fixpoint find_first (p : A -> bool) (l : list A) : option A :=
  match l with
  | [] => None
  | x :: l' => if p x then Some x else find_first p l'
  end.

Lemma find_first_app (p : A -> bool) l1 l2 :
  find_first p (l1 ++ l2) =
  match find_first p l1 with Some x => Some x | None => find_first p l2 end.
Proof. induction l1 as [|x l1 IH]; simpl; [done|]. by destruct (p x). Qed.

Lemma find_first_None (p : A -> bool) l :
  find_first p l = None <-> Forall (fun x => p x = false) l.
Proof.
  induction l as [|x l IH]; simpl; [split; auto|].
  destruct (p x) eqn:Hp; split; intros H; try done.
  - invc H. congruence.
  - constructor; [done|]. by apply IH.
  - invc H. by apply IH.
Qed.

Lemma find_first_Some (p : A -> bool) l x :
  find_first p l = Some x -> p x = true /\ x ∈ l.
Proof.
  induction l as [|y l IH]; simpl; [done|].
  destruct (p y) eqn:Hp; intros H.
  - invc H. split; [done|]. by left.
  - destruct (IH H). split; [done|]. by right.
Qed.

(** [Array.prototype.findIndex]-style position of the first match. *)
Fixpoint find_index (p : A -> bool) (l : list A) : option nat :=
  match l with
  | [] => None
  | x :: l' => if p x then Some 0 else S <$> find_index p l'
  end.

Lemma find_index_lookup (p : A -> bool) l i :
  find_index p l = Some i -> exists x, l !! i = Some x /\ p x = true.
Proof.
  revert i. induction l as [|y l IH]; intros i; simpl; [done|].
  destruct (p y) eqn:Hp; intros H.
  - invc H. eauto.
  - destruct (find_index p l) as [j|] eqn:Hj; simpl in H; [|done].
    invc H. by apply IH.
Qed.

End Generic.

(** Writing a constant over an existing entry is an insertion. *)
Lemma alter_const_Some {K A} `{Countable K} (m : gmap K A) k x y :
  m !! k = Some y -> alter (λ _, x) k m = <[k:=x]> m.
Proof.
  intros Hk. apply map_eq. intros j. destruct (decide (j = k)) as [->|Hj].
  - by rewrite lookup_alter_eq, lookup_insert_eq, Hk.
  - by rewrite lookup_alter_ne, lookup_insert_ne.
Qed.

#[export] Hint Rewrite @find_first_app : js_simpl.

(** Altering one element of a list with a function a projection ignores
    leaves the projected list unchanged. *)
Lemma map_alter_frame {A B} (g : A -> B) (f : A -> A) i l :
  (forall x, g (f x) = g x) -> map g (alter f i l) = map g l.
Proof.
  intros Hf. revert i. induction l as [|x l IH]; intros [|i]; f_equal/=; auto.
Qed.

(** A property of the elements that depends only on a projection carries
    over to a list with the same projected list. *)
Lemma Forall_map_eq {A B} (g : A -> B) (P : B -> Prop) (l l' : list A) :
  map g l' = map g l -> Forall (λ x, P (g x)) l -> Forall (λ x, P (g x)) l'.
Proof.
  revert l. induction l' as [|x l' IH]; intros [|y l] Heq Hl; simpl in *; try done.
  injection Heq as Hxy Heq. inversion Hl; subst. constructor; [by rewrite Hxy|by eapply IH].
Qed.
