(* ===== verification/JsNumber.v ===== *)
(** * JavaScript numbers as the scanner uses them

    Binary64 values ([jsnum]): NaN, the two infinities and finite values
    [m * 2^e] in the canonical IEEE form (a normal value has
    [2^52 <= |m| < 2^53]; a subnormal one has [e = -1074]; zero is
    [JFin 0 0], [-0] being identified with [+0]).  [round_Q] rounds a
    rational to nearest, ties to even, with overflow to infinity: it is the
    [𝔽(x)] of the ECMAScript specification.  On top of it: [Number(string)]
    (StringToNumber, ES2023 7.1.4.1.1), [Math.trunc], [isNaN], and the
    integer-valued numbers [xint] that the scanner uses as track indices,
    with [index += 1] and the sign of [a.index - b.index]. *)

From S2P Require Import Prelude.

Local Open Scope Z_scope.

Inductive jsnum :=
| JNaN
| JInf (neg : bool)
| JFin (m e : Z).

#[export] Instance jsnum_eq_dec : EqDecision jsnum.
Proof. solve_decision. Defined.

(** A rounded value is never NaN. *)
Inductive rounded :=
| RFin (m e : Z)
| RInf (neg : bool).

Definition jsnum_of_rounded (r : rounded) : jsnum :=
  match r with RFin m e => JFin m e | RInf b => JInf b end.

Definition rounded_neg (r : rounded) : rounded :=
  match r with RFin m e => RFin (- m) e | RInf b => RInf (negb b) end.

(** ** Rounding a positive rational [a / q] to binary64 *)

(** [flog2 a q] is the floor of log2 (a / q) for positive [a], [q]:
    [log2 (floor (a / q))] above 1, [- log2_up (ceil (q / a))] below. *)
Definition flog2 (a q : Z) : Z :=
  if q <=? a then Z.log2 (a / q) else - Z.log2_up ((q + a - 1) / a).

(** Round [num / den] to an integer, ties to even. *)
Definition round_half_even (num den : Z) : Z :=
  let n := num / den in
  match Z.compare (2 * (num mod den)) den with
  | Lt => n
  | Gt => n + 1
  | Eq => if Z.even n then n else n + 1
  end.

Definition round_pos (a q : Z) : rounded :=
  let e := Z.max (flog2 a q - 52) (-1074) in
  let n := round_half_even (a * 2 ^ Z.max (- e) 0) (q * 2 ^ Z.max e 0) in
  let '(n', e') := if n =? 2 ^ 53 then (2 ^ 52, e + 1) else (n, e) in
  if 971 <? e' then RInf false else if n' =? 0 then RFin 0 0 else RFin n' e'.

(** [𝔽(p / q)]. *)
Definition round_Q (p : Z) (q : positive) : rounded :=
  match p with
  | Z0 => RFin 0 0
  | Zpos a => round_pos (Zpos a) (Zpos q)
  | Zneg a => rounded_neg (round_pos (Zpos a) (Zpos q))
  end.

(** [𝔽(m * 10^e)], the value of a decimal literal. *)
Definition round_decimal (m e : Z) : rounded :=
  if 0 <=? e then round_Q (m * 10 ^ e) 1 else round_Q m (Z.to_pos (10 ^ (- e))).

(** The integer [trunc (m * 2^e)]. *)
Definition dyadic_trunc (m e : Z) : Z :=
  if 0 <=? e then m * 2 ^ e else Z.quot m (2 ^ (- e)).

(** ** Predicates and conversions of the ECMAScript library *)

Definition isNaN (x : jsnum) : bool := match x with JNaN => true | _ => false end.

(** ToBoolean on a number: false exactly for [0] and [NaN]. *)
Definition num_truthy (x : jsnum) : bool :=
  match x with JNaN => false | JInf _ => true | JFin m _ => negb (m =? 0) end.

(** [Math.trunc]: a truncated double is a double, rounding is exact. *)
Definition math_trunc (x : jsnum) : jsnum :=
  match x with
  | JFin m e => jsnum_of_rounded (round_Q (dyadic_trunc m e) 1)
  | _ => x
  end.

(** ** Integer-valued numbers: the track indices *)

Inductive xint :=
| XFin (z : Z)
| XInf (neg : bool).

#[export] Instance xint_eq_dec : EqDecision xint.
Proof. solve_decision. Defined.

(** The value of an integer-valued number ([None] for NaN). *)
Definition xint_of_jsnum (x : jsnum) : option xint :=
  match x with
  | JNaN => None
  | JInf b => Some (XInf b)
  | JFin m e => Some (XFin (dyadic_trunc m e))
  end.

Definition xint_of_rounded (r : rounded) : xint :=
  match r with RFin m e => XFin (dyadic_trunc m e) | RInf b => XInf b end.

(** [𝔽(z)] for an integer [z]: the number literals of the source, and the
    result of integer arithmetic. *)
Definition js_int (z : Z) : jsnum := jsnum_of_rounded (round_Q z 1).

(** [𝔽(p * 2^e)]: the exact result of an addition rounded. *)
Definition round_dyadic (p e : Z) : rounded :=
  if 0 <=? e then round_Q (p * 2 ^ e) 1 else round_Q p (Z.to_pos (2 ^ (- e))).

Definition js_neg (x : jsnum) : jsnum :=
  match x with JNaN => JNaN | JInf b => JInf (negb b) | JFin m e => JFin (- m) e end.

(** Number::add (ES2023 6.1.6.1.7). *)
Definition js_add (x y : jsnum) : jsnum :=
  match x, y with
  | JNaN, _ | _, JNaN => JNaN
  | JInf a, JInf b => if Bool.eqb a b then JInf a else JNaN
  | JInf a, _ => JInf a
  | _, JInf b => JInf b
  | JFin m1 e1, JFin m2 e2 =>
      let e := Z.min e1 e2 in
      jsnum_of_rounded (round_dyadic (m1 * 2 ^ (e1 - e) + m2 * 2 ^ (e2 - e)) e)
  end.

(** Number::subtract. *)
Definition js_sub (x y : jsnum) : jsnum := js_add x (js_neg y).

(** How [SortCompare] reads the comparator's result: its sign, [NaN]
    counting as [+0]. *)
Definition js_sign (x : jsnum) : comparison :=
  match x with
  | JNaN => Eq
  | JInf b => if b then Lt else Gt
  | JFin m _ => Z.compare m 0
  end.

(** [x === y] on numbers: [NaN] is equal to nothing; on the canonical
    values that rounding produces, equal numbers are equal terms. *)
Definition num_strict_eq (x y : jsnum) : bool :=
  match x, y with
  | JNaN, _ | _, JNaN => false
  | _, _ => bool_decide (x = y)
  end.

(** The order of the extended integers. *)
Definition xint_compare (a b : xint) : comparison :=
  match a, b with
  | XFin x, XFin y => Z.compare x y
  | XInf false, XInf false | XInf true, XInf true => Eq
  | XInf false, _ | XFin _, XInf true => Gt
  | XInf true, _ | XFin _, XInf false => Lt
  end.

Definition xint_le (a b : xint) : Prop := xint_compare a b <> Gt.

(** The value of a number that is an integer or an infinity; [None] for
    [NaN] and for a value with a fractional part. *)
Definition num_to_xint (x : jsnum) : option xint :=
  match x with
  | JNaN => None
  | JInf b => Some (XInf b)
  | JFin m e =>
      if (0 <=? e) || (m mod 2 ^ (- e) =? 0) then Some (XFin (dyadic_trunc m e)) else None
  end.

(** ** StringToNumber: [Number(s)] for a string [s] *)

Local Open Scope char_scope.

(** StrWhiteSpaceChar within 8-bit code units: TAB, LF, VT, FF, CR, SPACE
    and NO-BREAK SPACE. *)
Definition is_str_ws (c : ascii) : bool :=
  (c =? "009") || (c =? "010") || (c =? "011") || (c =? "012") || (c =? "013")
  || (c =? " ") || (c =? "160").

Fixpoint drop_ws (l : list ascii) : list ascii :=
  match l with
  | c :: l' => if is_str_ws c then drop_ws l' else l
  | [] => []
  end.

Definition trim_ws (l : list ascii) : list ascii := rev (drop_ws (rev (drop_ws l))).

(** The value of a digit in base 36 notation (enough for bases 2, 8, 10,
    16). *)
Definition digit_value (c : ascii) : option Z :=
  let n := Z.of_N (N_of_ascii c) in
  (if (48 <=? n) && (n <=? 57) then Some (n - 48)
   else if (97 <=? n) && (n <=? 122) then Some (n - 87)
   else if (65 <=? n) && (n <=? 90) then Some (n - 55)
   else None)%Z.

Definition digit_in (base : Z) (c : ascii) : option Z :=
  match digit_value c with Some d => if (d <? base)%Z then Some d else None | None => None end.

(** The longest prefix of digits of [base]: its value added to [acc], its
    length and the rest. *)
Fixpoint span_digits (base acc : Z) (l : list ascii) : Z * nat * list ascii :=
  match l with
  | c :: l' =>
      match digit_in base c with
      | Some d => let '(v, n, r) := span_digits base (acc * base + d)%Z l' in (v, S n, r)
      | None => (acc, O, l)
      end
  | [] => (acc, O, [])
  end.

(** NonDecimalIntegerLiteral: [0x..], [0o..], [0b..], the whole string. *)
Definition parse_nondecimal (l : list ascii) : option rounded :=
  match l with
  | c :: x :: r =>
      let base := if (x =? "x") || (x =? "X") then 16%Z
                  else if (x =? "o") || (x =? "O") then 8%Z
                  else if (x =? "b") || (x =? "B") then 2%Z else 0%Z in
      if (c =? "0") && negb (base =? 0)%Z then
        match span_digits base 0%Z r with
        | (v, S _, []) => Some (round_Q v 1%positive)
        | _ => None
        end
      else None
  | _ => None
  end.

(** An optional leading sign: whether it is [-], and the rest. *)
Definition split_sign (l : list ascii) : bool * list ascii :=
  match l with
  | c :: r => if c =? "+" then (false, r) else if c =? "-" then (true, r) else (false, l)
  | [] => (false, [])
  end.

(** ExponentPart, the whole rest of the string. *)
Definition parse_exponent (l : list ascii) : option Z :=
  match l with
  | [] => Some 0%Z
  | c :: r =>
      if (c =? "e") || (c =? "E") then
        let '(neg, r') := split_sign r in
        match span_digits 10%Z 0%Z r' with
        | (v, S _, []) => Some (if neg then (- v)%Z else v)
        | _ => None
        end
      else None
  end.

(** StrUnsignedDecimalLiteral (without Infinity): the decimal mantissa and
    the power of ten. *)
Definition parse_unsigned_decimal (l : list ascii) : option (Z * Z) :=
  let '(m1, n1, r1) := span_digits 10%Z 0%Z l in
  let '(m2, n2, r2) :=
    match r1 with
    | c :: r => if c =? "." then span_digits 10%Z m1 r else (m1, O, r1)
    | [] => (m1, O, r1)
    end in
  if (n1 + n2 =? 0)%nat then None else
  match parse_exponent r2 with
  | Some x => Some (m2, (x - Z.of_nat n2)%Z)
  | None => None
  end.

Definition infinity_chars : list ascii := list_ascii_of_string "Infinity".

(** StrDecimalLiteral: an optional sign, then Infinity or a decimal. *)
Definition parse_str_decimal (l : list ascii) : option rounded :=
  let '(neg, l') := split_sign l in
  let r := if decide (l' = infinity_chars) then Some (RInf false)
           else match parse_unsigned_decimal l' with
                | Some (m, x) => Some (round_decimal m x)
                | None => None
                end in
  if neg then rounded_neg <$> r else r.

(** [Number(s)]. *)
Definition string_to_number (s : string) : jsnum :=
  match trim_ws (list_ascii_of_string s) with
  | [] => JFin 0%Z 0%Z
  | l =>
      match parse_nondecimal l with
      | Some r => jsnum_of_rounded r
      | None =>
          match parse_str_decimal l with
          | Some r => jsnum_of_rounded r
          | None => JNaN
          end
      end
  end.

(** ** Decimal digits *)

(** [\d] and the decimal digits of StringToNumber and parseInt. *)
Definition is_digit (c : ascii) : bool :=
  let n := Z.of_N (N_of_ascii c) in ((48 <=? n) && (n <=? 57))%Z.

Definition digit_val (c : ascii) : Z := (Z.of_N (N_of_ascii c) - 48)%Z.

(** The value of a string of decimal digits, read after [acc]. *)
Fixpoint dec_value (acc : Z) (l : list ascii) : Z :=
  match l with [] => acc | c :: l' => dec_value (acc * 10 + digit_val c)%Z l' end.

Local Close Scope char_scope.

(** [m * 2^e] is exactly the integer [z]. *)
Definition dyadic_is (m e z : Z) : Prop :=
  if 0 <=? e then z = m * 2 ^ e else m = z * 2 ^ (- e).

(** * Properties *)

(** ** The rounding function *)

Lemma flog2_ge a q : 0 < q <= a -> flog2 a q = Z.log2 (a / q).
Proof. intros Hq. unfold flog2. by rewrite (proj2 (Z.leb_le q a)) by lia. Qed.

Lemma flog2_int a : 0 < a -> flog2 a 1 = Z.log2 a.
Proof. intros Ha. rewrite flog2_ge, Z.div_1_r by lia. done. Qed.

Lemma round_half_even_scale num den c :
  0 < den -> 0 < c -> round_half_even (num * c) (den * c) = round_half_even num den.
Proof.
  intros Hd Hc. unfold round_half_even.
  rewrite Z.div_mul_cancel_r, Z.mul_mod_distr_r by lia.
  rewrite Z.mul_assoc, <- Zmult_compare_compat_r by lia. done.
Qed.

(** Rounding depends on the value [a / q] only. *)
Lemma round_pos_scale z q : 0 < z -> 0 < q -> round_pos (z * q) q = round_pos z 1.
Proof.
  intros Hz Hq. unfold round_pos.
  rewrite flog2_ge, Z.div_mul, <- (flog2_int z) by nia.
  rewrite (Z.mul_comm z q), <- Z.mul_assoc, (Z.mul_comm q (2 ^ _)).
  rewrite (Z.mul_comm q (z * _)), round_half_even_scale by (try apply Z.pow_pos_nonneg; lia).
  by rewrite Z.mul_1_l.
Qed.

Lemma round_Q_scale p q : round_Q (p * Zpos q) q = round_Q p 1.
Proof.
  destruct p as [|a|a]; [done| |]; simpl.
  - change (Zpos (a * q)) with (Zpos a * Zpos q). by rewrite round_pos_scale.
  - change (Zpos (a * q)) with (Zpos a * Zpos q). by rewrite round_pos_scale.
Qed.

Lemma round_half_even_lower num den : 0 < den -> num / den <= round_half_even num den.
Proof. intros. unfold round_half_even. destruct (Z.compare _ _); try destruct (Z.even _); lia. Qed.

(** An integer of at most 53 significant bits is stored exactly, with the
    mantissa shifted to the normal range. *)
Lemma round_pos_int_small a :
  0 < a -> Z.log2 a <= 52 ->
  round_pos a 1 = RFin (a * 2 ^ (52 - Z.log2 a)) (Z.log2 a - 52).
Proof.
  intros Ha HL. pose proof (Z.log2_nonneg a). pose proof (Z.log2_spec a Ha) as [_ H2].
  unfold round_pos. rewrite flog2_int by done.
  replace (Z.max (Z.log2 a - 52) (-1074)) with (Z.log2 a - 52) by lia.
  replace (Z.max (- (Z.log2 a - 52)) 0) with (52 - Z.log2 a) by lia.
  replace (Z.max (Z.log2 a - 52) 0) with 0 by lia.
  unfold round_half_even. rewrite Z.pow_0_r, Z.mul_1_r, Z.div_1_r, Z.mod_1_r.
  simpl (Z.compare _ _).
  assert (0 < a * 2 ^ (52 - Z.log2 a) < 2 ^ 53).
  { split; [apply Z.mul_pos_pos; [lia|apply Z.pow_pos_nonneg; lia]|].
    replace (2 ^ 53) with (2 ^ Z.succ (Z.log2 a) * 2 ^ (52 - Z.log2 a)).
    - apply Z.mul_lt_mono_pos_r; [apply Z.pow_pos_nonneg|]; lia.
    - rewrite <- Z.pow_add_r by lia. f_equal. lia. }
  rewrite (proj2 (Z.eqb_neq _ (2 ^ 53))) by lia.
  rewrite (proj2 (Z.ltb_ge _ _)) by lia.
  rewrite (proj2 (Z.eqb_neq _ 0)) by lia. done.
Qed.

(** Rounding a positive integer never gives zero or a negative value. *)
Lemma round_pos_int_pos a :
  0 < a -> match round_pos a 1 with RFin m _ => 0 < m | RInf neg => neg = false end.
Proof.
  intros Ha. destruct (Z.leb_spec (Z.log2 a) 52).
  { rewrite round_pos_int_small by lia. apply Z.mul_pos_pos; [lia|]. apply Z.pow_pos_nonneg; lia. }
  pose proof (Z.log2_spec a Ha) as [H1 _].
  unfold round_pos. rewrite flog2_int by done.
  replace (Z.max (Z.log2 a - 52) (-1074)) with (Z.log2 a - 52) by lia.
  replace (Z.max (- (Z.log2 a - 52)) 0) with 0 by lia.
  replace (Z.max (Z.log2 a - 52) 0) with (Z.log2 a - 52) by lia.
  rewrite Z.pow_0_r, Z.mul_1_r, Z.mul_1_l.
  assert (2 ^ 52 <= a / 2 ^ (Z.log2 a - 52)).
  { apply Z.div_le_lower_bound; [apply Z.pow_pos_nonneg; lia|].
    rewrite <- Z.pow_add_r by lia. by replace (Z.log2 a - 52 + 52) with (Z.log2 a) by lia. }
  pose proof (round_half_even_lower a (2 ^ (Z.log2 a - 52))) as Hr.
  destruct (_ =? 2 ^ 53); destruct (971 <? _); try done;
    (rewrite (proj2 (Z.eqb_neq _ 0)) by lia; lia).
Qed.

Lemma dyadic_is_small a :
  0 <= Z.log2 a <= 52 -> dyadic_is (a * 2 ^ (52 - Z.log2 a)) (Z.log2 a - 52) a.
Proof.
  intros HL. unfold dyadic_is. destruct (Z.leb_spec 0 (Z.log2 a - 52)).
  + assert (Z.log2 a = 52) as -> by lia. simpl. lia.
  + f_equal. f_equal. lia.
Qed.

Lemma round_pos_int_exact a :
  0 < a <= 2 ^ 53 -> exists m e, round_pos a 1 = RFin m e /\ dyadic_is m e a.
Proof.
  intros Ha. destruct (Z.leb_spec (Z.log2 a) 52).
  - rewrite round_pos_int_small by lia. eexists _, _. split; [done|].
    apply dyadic_is_small. pose proof (Z.log2_nonneg a). lia.
  - assert (a = 2 ^ 53) as ->.
    { pose proof (Z.log2_spec a (proj1 Ha)) as [H1 _].
      assert (2 ^ 53 <= 2 ^ Z.log2 a) by (apply Z.pow_le_mono_r; lia). lia. }
    by exists (2 ^ 52), 1.
Qed.

(** Rounding an integer gives an integer (or an infinity). *)
Lemma round_pos_int_integral a :
  0 < a -> match round_pos a 1 with RFin m e => exists z, dyadic_is m e z | RInf _ => True end.
Proof.
  intros Ha. destruct (Z.leb_spec (Z.log2 a) 52).
  { rewrite round_pos_int_small by lia. exists a.
    apply dyadic_is_small. pose proof (Z.log2_nonneg a). lia. }
  unfold round_pos. rewrite flog2_int by done.
  replace (Z.max (Z.log2 a - 52) (-1074)) with (Z.log2 a - 52) by lia.
  assert (forall m e, 0 <= e -> exists z, dyadic_is m e z) as Hnn.
  { intros m e He. exists (m * 2 ^ e). unfold dyadic_is. by rewrite (proj2 (Z.leb_le 0 e)). }
  destruct (_ =? 2 ^ 53); destruct (971 <? _); try done;
    destruct (_ =? 0); apply Hnn; lia.
Qed.

(** ** Exact integers *)

Lemma dyadic_is_opp m e z : dyadic_is m e z -> dyadic_is (- m) e (- z).
Proof. unfold dyadic_is. destruct (0 <=? e); lia. Qed.

Lemma num_to_xint_fin m e z : num_to_xint (JFin m e) = Some (XFin z) <-> dyadic_is m e z.
Proof.
  unfold num_to_xint, dyadic_is, dyadic_trunc.
  destruct (Z.leb_spec 0 e); simpl; [split; [intros [= <-]|intros ->]; done|].
  assert (0 < 2 ^ (- e)) by (apply Z.pow_pos_nonneg; lia).
  destruct (Z.eqb_spec (m mod 2 ^ (- e)) 0) as [Hm|Hm]; split; try done.
  - intros [= <-]. rewrite Z.mul_comm. apply Z.quot_exact; [lia|].
    apply Z.rem_mod_eq_0; lia.
  - intros ->. f_equal. f_equal. rewrite Z.quot_mul; lia.
  - intros ->. rewrite Z.mod_mul in Hm; lia.
Qed.

Lemma dyadic_is_lift m e1 z e :
  e <= e1 -> e < 0 -> dyadic_is m e1 z -> m * 2 ^ (e1 - e) = z * 2 ^ (- e).
Proof.
  unfold dyadic_is. intros He He0. destruct (Z.leb_spec 0 e1); intros ->.
  - rewrite <- Z.mul_assoc, <- Z.pow_add_r by lia; f_equal; f_equal; lia.
  - rewrite <- Z.mul_assoc, <- Z.pow_add_r by lia; f_equal; f_equal; lia.
Qed.

Lemma dyadic_is_lift_nonneg m e1 z e :
  0 <= e <= e1 -> dyadic_is m e1 z -> m * 2 ^ (e1 - e) * 2 ^ e = z.
Proof.
  unfold dyadic_is. intros He. rewrite (proj2 (Z.leb_le 0 e1)) by lia. intros ->.
  rewrite <- Z.mul_assoc, <- Z.pow_add_r by lia; f_equal; f_equal; lia.
Qed.

Lemma dyadic_is_add m1 e1 a m2 e2 b :
  dyadic_is m1 e1 a -> dyadic_is m2 e2 b ->
  dyadic_is (m1 * 2 ^ (e1 - Z.min e1 e2) + m2 * 2 ^ (e2 - Z.min e1 e2)) (Z.min e1 e2) (a + b).
Proof.
  intros H1 H2. unfold dyadic_is. destruct (Z.leb_spec 0 (Z.min e1 e2)).
  - rewrite Z.mul_add_distr_r.
    rewrite (dyadic_is_lift_nonneg m1 e1 a (Z.min e1 e2)),
      (dyadic_is_lift_nonneg m2 e2 b (Z.min e1 e2)); try done; lia.
  - rewrite (dyadic_is_lift m1 e1 a (Z.min e1 e2)),
      (dyadic_is_lift m2 e2 b (Z.min e1 e2)); try done; lia.
Qed.

Lemma round_dyadic_is p e z : dyadic_is p e z -> round_dyadic p e = round_Q z 1.
Proof.
  unfold dyadic_is, round_dyadic. destruct (Z.leb_spec 0 e); intros ->; [done|].
  assert (0 < 2 ^ (- e)) by (apply Z.pow_pos_nonneg; lia).
  rewrite <- (Z2Pos.id (2 ^ (- e))) at 1 by lia. apply round_Q_scale.
Qed.

(** Integers up to [2^53] in magnitude are exact doubles. *)
Lemma js_int_exact z : Z.abs z <= 2 ^ 53 -> num_to_xint (js_int z) = Some (XFin z).
Proof.
  intros Hz. unfold js_int, round_Q.
  destruct z as [|p|p]; simpl in Hz; [done| |];
    destruct (round_pos_int_exact (Zpos p)) as (m & e & -> & Hm); try lia; simpl;
    apply num_to_xint_fin; [done|]. by apply (dyadic_is_opp m e (Zpos p)).
Qed.

Lemma num_to_xint_inf x b : num_to_xint x = Some (XInf b) -> x = JInf b.
Proof. destruct x as [| |m e]; simpl; [done|congruence|]. by destruct (_ || _). Qed.

Lemma num_to_xint_fin_inv x z : num_to_xint x = Some (XFin z) -> exists m e, x = JFin m e.
Proof. destruct x as [| |m e]; simpl; [done|done|eauto]. Qed.

Lemma num_to_xint_fin_some m e : is_Some (num_to_xint (JFin m e)) <-> exists z, dyadic_is m e z.
Proof.
  split.
  - intros [[z|b] Hw]; [exists z; by apply num_to_xint_fin|].
    simpl in Hw. by destruct (_ || _).
  - intros [z Hz]. exists (XFin z). by apply num_to_xint_fin.
Qed.

(** Every integer literal or integer result is stored as an integer-valued
    number. *)
Lemma js_int_integral z : is_Some (num_to_xint (js_int z)).
Proof.
  unfold js_int, round_Q. destruct z as [|p|p]; [by eexists| |];
    pose proof (round_pos_int_integral (Zpos p) eq_refl) as Hp;
    destruct (round_pos (Zpos p) 1) as [m e|]; simpl; try by eexists.
  - by apply num_to_xint_fin_some.
  - apply num_to_xint_fin_some. destruct Hp as [w Hw].
    exists (- w). by apply dyadic_is_opp.
Qed.

(** The sum of two integer-valued doubles is the rounded integer sum. *)
Lemma js_add_int x y a b :
  num_to_xint x = Some (XFin a) -> num_to_xint y = Some (XFin b) -> js_add x y = js_int (a + b).
Proof.
  destruct x as [| |m1 e1], y as [| |m2 e2]; try done.
  rewrite !num_to_xint_fin. intros H1 H2. simpl.
  unfold js_int. f_equal. apply round_dyadic_is, dyadic_is_add; done.
Qed.

Lemma js_neg_int x a : num_to_xint x = Some (XFin a) -> num_to_xint (js_neg x) = Some (XFin (- a)).
Proof.
  destruct x as [| |m e]; try done. simpl js_neg. rewrite !num_to_xint_fin. apply dyadic_is_opp.
Qed.

Lemma js_sign_int z : js_sign (js_int z) = Z.compare z 0.
Proof.
  unfold js_int, round_Q. destruct z as [|p|p]; [done| |];
    pose proof (round_pos_int_pos (Zpos p) eq_refl) as Hp;
    destruct (round_pos (Zpos p) 1) as [m e|]; simpl; subst; try done;
    destruct m; simpl in *; (done || lia).
Qed.

(** The comparator [(a, b) => a.index - b.index] orders integer-valued
    indices: the sign of the rounded difference is the order of the
    values (and [Infinity - Infinity], which is [NaN], counts as equal). *)
Lemma js_sub_sign x y a b :
  num_to_xint x = Some a -> num_to_xint y = Some b -> js_sign (js_sub x y) = xint_compare a b.
Proof.
  intros Hx Hy. destruct a as [a|ba], b as [b|bb].
  - unfold js_sub. rewrite (js_add_int _ _ a (- b) Hx (js_neg_int _ _ Hy)), js_sign_int.
    simpl. replace (a + - b) with (a - b) by lia. symmetry. apply Z.compare_sub.
  - apply num_to_xint_inf in Hy as ->.
    destruct (num_to_xint_fin_inv _ _ Hx) as (m & e & ->). by destruct bb.
  - apply num_to_xint_inf in Hx as ->.
    destruct (num_to_xint_fin_inv _ _ Hy) as (m & e & ->). by destruct ba.
  - apply num_to_xint_inf in Hx as ->. apply num_to_xint_inf in Hy as ->. by destruct ba, bb.
Qed.

(** ** Decimal digit strings *)

Lemma digit_in_10 c : is_digit c = true -> digit_in 10 c = Some (digit_val c).
Proof.
  unfold is_digit, digit_in, digit_value, digit_val. intros Hd. rewrite Hd.
  apply andb_prop in Hd as [H1 H2]. apply Z.leb_le in H1, H2.
  rewrite (proj2 (Z.ltb_lt _ _)) by lia. done.
Qed.

Lemma digit_val_bounds c : is_digit c = true -> 0 <= digit_val c <= 9.
Proof.
  unfold is_digit, digit_val. intros Hd.
  apply andb_prop in Hd as [H1 H2]. apply Z.leb_le in H1, H2. lia.
Qed.

Lemma span_digits_dec acc l :
  Forall (λ c, is_digit c = true) l -> span_digits 10 acc l = (dec_value acc l, length l, []).
Proof.
  revert acc. induction l as [|c l IH]; intros acc Hl; [done|].
  invc Hl. simpl. rewrite digit_in_10 by done. by rewrite IH.
Qed.

Lemma dec_value_nonneg acc l :
  0 <= acc -> Forall (λ c, is_digit c = true) l -> 0 <= dec_value acc l.
Proof.
  revert acc. induction l as [|c l IH]; intros acc Ha Hl; [done|].
  apply Forall_cons in Hl as [Hc Hl]. simpl.
  apply IH; [|done]. pose proof (digit_val_bounds c Hc). lia.
Qed.

(** Decide [c =? d] for a digit [c] and a literal [d] that is not one. *)
Ltac digit_neq c :=
  repeat match goal with
  | |- context [Ascii.eqb c ?d] =>
      destruct (Ascii.eqb_spec c d) as [->|]; [discriminate|]
  end.

Lemma digit_not_ws c : is_digit c = true -> is_str_ws c = false.
Proof. intros Hd. unfold is_str_ws. digit_neq c. done. Qed.

Lemma drop_ws_digits l : Forall (λ c, is_digit c = true) l -> drop_ws l = l.
Proof. intros Hl. destruct Hl as [|c l Hc _]; [done|]. simpl. by rewrite digit_not_ws. Qed.

Lemma trim_ws_digits l : Forall (λ c, is_digit c = true) l -> trim_ws l = l.
Proof.
  intros Hl. unfold trim_ws. rewrite (drop_ws_digits l Hl).
  rewrite (drop_ws_digits (rev l)); [apply rev_involutive|]. by apply Forall_rev.
Qed.

Lemma parse_nondecimal_digits l :
  Forall (λ c, is_digit c = true) l -> parse_nondecimal l = None.
Proof.
  intros Hl. destruct l as [|c [|x r]]; [done|done|].
  apply Forall_cons in Hl as [_ Hl]. apply Forall_cons in Hl as [Hx _].
  unfold parse_nondecimal. digit_neq x. by rewrite andb_false_r.
Qed.

(** [Number(s)] of a non-empty string of decimal digits is [𝔽] of its
    decimal value. *)
Lemma string_to_number_digits l :
  l <> [] -> Forall (λ c, is_digit c = true) l ->
  string_to_number (string_of_list_ascii l) = js_int (dec_value 0 l).
Proof.
  intros Hne Hl. unfold string_to_number.
  rewrite list_ascii_of_string_of_list_ascii, trim_ws_digits by done.
  destruct l as [|c l']; [done|].
  rewrite parse_nondecimal_digits by done.
  pose proof Hl as Hc. apply Forall_cons in Hc as [Hc _].
  unfold parse_str_decimal, split_sign. digit_neq c.
  rewrite decide_False by (intros [=Hi]; subst; discriminate).
  unfold parse_unsigned_decimal. rewrite span_digits_dec by done. simpl.
  unfold round_decimal. simpl. by rewrite Z.mul_1_r.
Qed.

(** ** The order of extended integers *)

Lemma xint_compare_refl a : xint_compare a a = Eq.
Proof. destruct a as [z|[]]; simpl; [apply Z.compare_refl|done|done]. Qed.

Lemma xint_compare_eq a b : xint_compare a b = Eq <-> a = b.
Proof.
  destruct a as [x|[]], b as [y|[]]; simpl; split; try done; try congruence.
  - intros H. apply Z.compare_eq in H. by subst.
  - intros [= ->]. apply Z.compare_refl.
Qed.

Lemma xint_compare_antisym a b : xint_compare b a = CompOpp (xint_compare a b).
Proof. destruct a as [x|[]], b as [y|[]]; simpl; try done. apply Z.compare_antisym. Qed.

Lemma xint_le_trans a b c : xint_le a b -> xint_le b c -> xint_le a c.
Proof.
  unfold xint_le. destruct a as [x|[]], b as [y|[]], c as [z|[]]; simpl; try done.
  rewrite !Z.compare_le_iff. lia.
Qed.

Lemma xint_le_total a b : xint_le a b \/ xint_le b a.
Proof.
  unfold xint_le. rewrite (xint_compare_antisym a b).
  destruct (xint_compare a b); simpl; [left|left|right]; done.
Qed.

Lemma xint_le_antisym a b : xint_le a b -> xint_le b a -> a = b.
Proof.
  unfold xint_le. rewrite (xint_compare_antisym a b). intros H1 H2.
  apply xint_compare_eq. destruct (xint_compare a b); done.
Qed.

Lemma js_int_not_nan z : js_int z <> JNaN.
Proof. unfold js_int. by destruct (round_Q z 1). Qed.

(** [===] on integers of at most 53 bits is equality of the integers. *)
Lemma js_int_strict_eq a b :
  Z.abs a <= 2 ^ 53 -> Z.abs b <= 2 ^ 53 -> num_strict_eq (js_int a) (js_int b) = bool_decide (a = b).
Proof.
  intros Ha Hb. pose proof (js_int_exact a Ha) as Ea. pose proof (js_int_exact b Hb) as Eb.
  assert (num_strict_eq (js_int a) (js_int b) = bool_decide (js_int a = js_int b)) as ->.
  { pose proof (js_int_not_nan a). pose proof (js_int_not_nan b).
    by destruct (js_int a), (js_int b). }
  apply bool_decide_ext. split; [|by intros ->].
  intros E. rewrite E, Eb in Ea. congruence.
Qed.
