(* ===== verification/JsString.v ===== *)
(** * String operations of the ECMAScript and node libraries

    [String.prototype.replace] with a string pattern, [startsWith],
    [split] on one character, the truthiness of a string, [parseInt], and
    node's [path.extname] / [path.basename(p, ext)] on a file name (a path
    component: [audioFile.filename] never contains a '/').  Strings are
    Stdlib [string]s of 8-bit code units. *)

From S2P Require Import Prelude JsNumber.

Local Open Scope string_scope.

(** ToBoolean on an optional string ([null]/[undefined] are [None]). *)
Definition str_truthy (s : option string) : bool :=
  match s with Some (String _ _) => true | _ => false end.

(** [s.replace(pat, rep)] with a string [pat]: the first occurrence found
    by [indexOf] is replaced.  GetSubstitution is the identity on a
    replacement without '$', which is the case of both replacements the
    scanner passes ([''] and [undefined], i.e. ["undefined"]). *)
Definition js_replace_str (s pat rep : string) : string :=
  match String.index 0 pat s with
  | Some i => substring 0 i s ++ rep ++ substring (i + String.length pat) (String.length s) s
  | None => s
  end.

(** [s.replace(pat)] with no replacement argument: ToString(undefined). *)
Definition js_undefined_str : string := "undefined".

(** [key.startsWith(p)]. *)
Definition js_starts_with (p key : string) : bool := String.prefix p key.

(** [s.split(c)] for a one-character separator. *)
Fixpoint js_split_char (c : ascii) (s : string) : list string :=
  match s with
  | EmptyString => [""]
  | String x s' =>
      if Ascii.eqb x c then "" :: js_split_char c s'
      else match js_split_char c s' with
           | h :: t => String x h :: t
           | [] => [String x ""]
           end
  end.

(** ** [parseInt(s)] with no radix (ES2023 19.2.5) *)

(** The digits of [base] at the start of [l]. *)
Fixpoint take_digits (base : Z) (l : list ascii) : list ascii :=
  match l with
  | c :: l' => match digit_in base c with Some _ => c :: take_digits base l' | None => [] end
  | [] => []
  end.

Fixpoint digits_value (base acc : Z) (l : list ascii) : Z :=
  match l with
  | c :: l' => digits_value base (acc * base + default 0 (digit_in base c))%Z l'
  | [] => acc
  end.

Definition parse_int (s : string) : jsnum :=
  let l := drop_ws (list_ascii_of_string s) in
  let '(neg, l1) := split_sign l in
  let '(base, l2) :=
    match l1 with
    | z :: x :: r =>
        if Ascii.eqb z "0" && (Ascii.eqb x "x" || Ascii.eqb x "X") then (16%Z, r) else (10%Z, l1)
    | _ => (10%Z, l1)
    end in
  match take_digits base l2 with
  | [] => JNaN
  | ds => let v := digits_value base 0 ds in js_int (if neg then - v else v)%Z
  end.

(** ** node's [path] module on a file name *)

(** The position of the last '.' in [l], counting from [i]. *)
Fixpoint last_dot (i : nat) (l : list ascii) : option nat :=
  match l with
  | c :: l' =>
      match last_dot (S i) l' with
      | Some k => Some k
      | None => if Ascii.eqb c "." then Some i else None
      end
  | [] => None
  end.

(** [path.extname(name)]: from the last '.' to the end, unless there is
    no '.', the only '.' before it are leading dots and it is the first
    character, or the name is [".."]. *)
Definition path_extname (name : string) : string :=
  match last_dot 0 (list_ascii_of_string name) with
  | None | Some O => ""
  | Some k =>
      if decide (name = "..") then ""
      else substring k (String.length name - k) name
  end.

(** [path.basename(name, suffix)]: the name without [suffix] when it is a
    proper suffix of it. *)
Definition path_basename (name suffix : string) : string :=
  let n := String.length name in
  let k := String.length suffix in
  if (k =? 0)%nat || (n <? k)%nat then name
  else if decide (name = suffix) then ""
  else if decide (substring (n - k) k name = suffix) then substring 0 (n - k) name
  else name.

(** * Properties *)

(** [split] on a string without the separator gives the string itself. *)
Lemma js_split_char_none c s :
  Forall (λ x, x <> c) (list_ascii_of_string s) -> js_split_char c s = [s].
Proof.
  induction s as [|x s IH]; simpl; [done|]. intros Hs. apply Forall_cons in Hs as [Hx Hs].
  rewrite (proj2 (Ascii.eqb_neq x c) Hx), IH by done. done.
Qed.

(** [split] cuts at the first separator. *)
Lemma js_split_char_app c a b :
  Forall (λ x, x <> c) (list_ascii_of_string a) ->
  js_split_char c (a ++ String c b) = a :: js_split_char c b.
Proof.
  induction a as [|x a IH]; simpl; intros Ha; [by rewrite Ascii.eqb_refl|].
  apply Forall_cons in Ha as [Hx Ha].
  rewrite (proj2 (Ascii.eqb_neq x c) Hx), IH by done. done.
Qed.

Lemma take_digits_dec l : Forall (λ c, is_digit c = true) l -> take_digits 10 l = l.
Proof.
  induction 1 as [|c l Hc _ IH]; [done|]. simpl. by rewrite digit_in_10, IH.
Qed.

Lemma digits_value_dec acc l :
  Forall (λ c, is_digit c = true) l -> digits_value 10 acc l = dec_value acc l.
Proof.
  revert acc. induction l as [|c l IH]; intros acc Hl; [done|].
  apply Forall_cons in Hl as [Hc Hl]. simpl. rewrite digit_in_10 by done. by apply IH.
Qed.

(** [parseInt] of a non-empty string of decimal digits is [𝔽] of its
    decimal value (leading zeros included: [parseInt("03")] is 3). *)
Lemma parse_int_digits l :
  l <> [] -> Forall (λ c, is_digit c = true) l ->
  parse_int (string_of_list_ascii l) = js_int (dec_value 0 l).
Proof.
  intros Hne Hl. unfold parse_int. rewrite list_ascii_of_string_of_list_ascii.
  rewrite drop_ws_digits by done.
  destruct l as [|c l']; [done|]. pose proof Hl as Hc. apply Forall_cons in Hc as [Hc Hl'].
  unfold split_sign. digit_neq c.
  assert (match c :: l' with
          | z :: x :: r => if Ascii.eqb z "0" && (Ascii.eqb x "x" || Ascii.eqb x "X")
                           then (16%Z, r) else (10%Z, c :: l')
          | _ => (10%Z, c :: l') end = (10%Z, c :: l')) as ->.
  { destruct l' as [|x r]; [done|]. apply Forall_cons in Hl' as [Hx _]. digit_neq x. by rewrite andb_false_r. }
  rewrite take_digits_dec by done. by rewrite digits_value_dec.
Qed.
