(* ===== verification/RegExp.v ===== *)
(** * Regular expressions of the scanner, with the ECMAScript semantics

    The scanner uses four regular-expression literals (source lines 92, 95,
    97 and 115).  They are written here as [regex] terms and run by the
    matcher of ES2023 22.2.2: a pattern denotes a [matcher], a function
    from a state (end index and captures) and a continuation to a result,
    and backtracking is the continuation being called again with another
    state.  Only the constructs of the four literals are modelled: pattern
    characters with the [i] flag, [\d], [\b], sequence, alternation,
    capturing groups and greedy bounded quantifiers ([?], [{1,4}]).

    On top of the matcher: [RegExpBuiltinExec] (the search loop that tries
    each start index), [String.prototype.replace] with a non-global regular
    expression and [String.prototype.match] with a global one. *)

From S2P Require Import Prelude JsNumber.

Inductive regex :=
| RChar (c : ascii)
| RDigit
| RWordBoundary
| RSeq (r1 r2 : regex)
| RAlt (r1 r2 : regex)
| RGroup (idx : nat) (r : regex)
| RRepeat (r : regex) (min max : nat).

(** The capture-group numbers that occur in a pattern. *)
Fixpoint groups_of (r : regex) : list nat :=
  match r with
  | RChar _ | RDigit | RWordBoundary => []
  | RSeq r1 r2 | RAlt r1 r2 => groups_of r1 ++ groups_of r2
  | RGroup n r => n :: groups_of r
  | RRepeat r _ _ => groups_of r
  end.

(** A match state: the end index and the captures, group [n] at position
    [n - 1] of the list. *)
Record mstate := MState { st_end : nat; st_caps : list (option (nat * nat)) }.

Definition continuation := mstate -> option mstate.
Definition matcher := mstate -> continuation -> option mstate.

(** Canonicalize (22.2.2.7.3) without the [u] flag: the upper-case letter
    of a lower-case one, where both are 8-bit; every other character is
    its own class (a character whose upper case is outside the 8-bit range
    is equal only to itself, as in the full Unicode table). *)
Definition to_upper_8bit (c : ascii) : ascii :=
  let n := N_of_ascii c in
  if ((97 <=? n) && (n <=? 122))%N || ((224 <=? n) && (n <=? 254) && negb (n =? 247))%N
  then ascii_of_N (n - 32) else c.

(** WordCharacters without [u]: [a-zA-Z0-9_]. *)
Definition is_word_char (c : ascii) : bool :=
  let n := N_of_ascii c in
  ((48 <=? n) && (n <=? 57) || (65 <=? n) && (n <=? 90)
   || (97 <=? n) && (n <=? 122) || (n =? 95))%N.

Section Matcher.
Variable input : list ascii.
Variable ignore_case : bool.

Definition canonicalize (c : ascii) : ascii := if ignore_case then to_upper_8bit c else c.

(** IsWordChar(e) for [e] in [0, length]; [-1] is handled by the caller. *)
Definition word_at (e : nat) : bool :=
  match input !! e with Some c => is_word_char c | None => false end.

Definition word_before (e : nat) : bool :=
  match e with O => false | S e' => word_at e' end.

Definition set_capture (caps : list (option (nat * nat))) (n : nat) (v : option (nat * nat)) :=
  <[pred n := v]> caps.

Definition clear_captures (caps : list (option (nat * nat))) (ns : list nat) :=
  foldr (λ n cs, set_capture cs n None) caps ns.

(** RepeatMatcher (22.2.2.3.1), greedy, with a finite maximum. *)
Fixpoint repeat_matcher (m : matcher) (min max : nat) (parens : list nat) : matcher :=
  λ x c,
    match max with
    | O => c x
    | S max' =>
        let d : continuation := λ y,
          if (min =? 0)%nat && (st_end y =? st_end x)%nat then None
          else repeat_matcher m (pred min) max' parens y c in
        let xr := MState (st_end x) (clear_captures (st_caps x) parens) in
        if (min =? 0)%nat then
          match m xr d with Some z => Some z | None => c x end
        else m xr d
    end.

(** CompilePattern for each construct. *)
Fixpoint compile (r : regex) : matcher :=
  match r with
  | RChar a => λ x c,
      match input !! st_end x with
      | Some ch =>
          if Ascii.eqb (canonicalize ch) (canonicalize a)
          then c (MState (S (st_end x)) (st_caps x)) else None
      | None => None
      end
  | RDigit => λ x c,
      match input !! st_end x with
      | Some ch => if is_digit ch then c (MState (S (st_end x)) (st_caps x)) else None
      | None => None
      end
  | RWordBoundary => λ x c,
      if xorb (word_before (st_end x)) (word_at (st_end x)) then c x else None
  | RSeq r1 r2 => λ x c, compile r1 x (λ y, compile r2 y c)
  | RAlt r1 r2 => λ x c,
      match compile r1 x c with Some z => Some z | None => compile r2 x c end
  | RGroup n r => λ x c,
      compile r x (λ y, c (MState (st_end y)
                             (set_capture (st_caps y) n (Some (st_end x, st_end y)))))
  | RRepeat r min max => repeat_matcher (compile r) min max (groups_of r)
  end.

(** The matcher run at index [i] with the final continuation. *)
Definition match_at (r : regex) (ncaps : nat) (i : nat) : option mstate :=
  compile r (MState i (replicate ncaps None)) Some.

(** The search loop of RegExpBuiltinExec (22.2.7.2, steps 13-14): try
    [lastIndex], [lastIndex + 1], ... up to the length of the input. *)
Fixpoint exec_loop (r : regex) (ncaps : nat) (fuel i : nat) : option (nat * mstate) :=
  match fuel with
  | O => None
  | S fuel' =>
      if (length input <? i)%nat then None
      else match match_at r ncaps i with
           | Some y => Some (i, y)
           | None => exec_loop r ncaps fuel' (S i)
           end
  end.

(** The loop runs at most [length - i + 1] times. *)
Definition exec (r : regex) (ncaps i : nat) : option (nat * mstate) :=
  exec_loop r ncaps (S (length input - i)) i.
End Matcher.

(** A regular-expression literal: its pattern, [i] flag and number of
    capture groups. *)
Record regexp := RegExpLit { re_pattern : regex; re_icase : bool; re_ncaps : nat }.

Definition regexp_exec (re : regexp) (s : list ascii) (i : nat) : option (nat * mstate) :=
  exec s (re_icase re) (re_pattern re) (re_ncaps re) i.

(** The substring [s[i..j)]. *)
Definition slice (s : list ascii) (i j : nat) : list ascii := take (j - i) (drop i s).

(** [s.replace(re, rep)] for a non-global [re] and a replacement without
    '$': one search from index 0. *)
Definition js_replace_re (re : regexp) (s rep : list ascii) : list ascii :=
  match regexp_exec re s 0 with
  | Some (i, y) => take i s ++ rep ++ drop (st_end y) s
  | None => s
  end.

(** [s.match(re)] for a non-global [re]: the match and its captures. *)
Definition js_match_captures (re : regexp) (s : list ascii) :
    option (list ascii * list (option (list ascii))) :=
  match regexp_exec re s 0 with
  | Some (i, y) =>
      Some (slice s i (st_end y),
            map (λ c, match c with Some (a, b) => Some (slice s a b) | None => None end) (st_caps y))
  | None => None
  end.

(** The loop of RegExp.prototype[@@match] for a global [re]: each search
    starts at the end of the previous match, one further after an empty
    match. *)
Fixpoint match_global_loop (re : regexp) (s : list ascii) (fuel last : nat) : list (list ascii) :=
  match fuel with
  | O => []
  | S fuel' =>
      match regexp_exec re s last with
      | Some (i, y) =>
          let str := slice s i (st_end y) in
          str :: match_global_loop re s fuel'
                   (if decide (str = []) then S (st_end y) else st_end y)
      | None => []
      end
  end.

(** [s.match(re)] for a global [re]: [null] when nothing matches. *)
Definition js_match_global (re : regexp) (s : list ascii) : option (list (list ascii)) :=
  match match_global_loop re s (S (S (length s))) 0 with
  | [] => None
  | l => Some l
  end.

(** The run of decimal digits at the start of a string. *)
Fixpoint digit_run (l : list ascii) : list ascii :=
  match l with
  | c :: l' => if is_digit c then c :: digit_run l' else []
  | [] => []
  end.

(** * Properties of the matcher *)

Section MatcherFacts.
Variable input : list ascii.
Variable ignore_case : bool.

(** A matcher only moves forward: the state it passes to its
    continuation ends at or after the state it started from. *)
Definition forward (m : matcher) : Prop :=
  forall x c z, m x c = Some z -> exists y, st_end x <= st_end y /\ c y = Some z.

Lemma repeat_matcher_forward m min max ps :
  forward m -> forward (repeat_matcher m min max ps).
Proof.
  intros Hm. revert min. induction max as [|max IH]; intros min x c z; simpl.
  { intros Hc. exists x. split; [lia|done]. }
  assert (forall r, m (MState (st_end x) (clear_captures (st_caps x) ps))
                (λ y, if (min =? 0)%nat && (st_end y =? st_end x)%nat then None
                      else repeat_matcher m (pred min) max ps y c) = Some r ->
                exists y, st_end x <= st_end y /\ c y = Some r) as Hstep.
  { intros r Hr. apply Hm in Hr as (y & Hy & Hd). simpl in Hy.
    destruct (_ && _); [done|]. apply IH in Hd as (y' & Hy' & Hc).
    exists y'. split; [lia|done]. }
  destruct (min =? 0)%nat.
  - destruct (m _ _) eqn:Hr; intros Hz.
    + invc Hz. by apply Hstep.
    + exists x. split; [lia|done].
  - apply Hstep.
Qed.

Lemma compile_forward r : forward (compile input ignore_case r).
Proof.
  induction r as [a| | |r1 IH1 r2 IH2|r1 IH1 r2 IH2|n r IH|r IH min max];
    intros x c z; simpl.
  - destruct (input !! st_end x); [|done]. destruct (Ascii.eqb _ _); [|done].
    intros Hc. eexists. split; [|exact Hc]. simpl. lia.
  - destruct (input !! st_end x); [|done]. destruct (is_digit _); [|done].
    intros Hc. eexists. split; [|exact Hc]. simpl. lia.
  - destruct (xorb _ _); [|done]. intros Hc. exists x. split; [lia|done].
  - intros H. apply IH1 in H as (y & Hy & H). apply IH2 in H as (y' & Hy' & H).
    exists y'. split; [lia|done].
  - destruct (compile _ _ r1 x c) eqn:H1; intros H; [invc H; by apply IH1|by apply IH2].
  - intros H. apply IH in H as (y & Hy & H). eexists. split; [|exact H]. simpl. lia.
  - by apply repeat_matcher_forward.
Qed.

Lemma match_at_end r n i y :
  match_at input ignore_case r n i = Some y -> i <= st_end y.
Proof.
  unfold match_at. intros H. apply compile_forward in H as (y' & Hy' & [= ->]). done.
Qed.

(** The search loop returns the first index at which the pattern
    matches, and nothing when no index from [i] to the end matches. *)
Lemma exec_loop_spec r n fuel i :
  S (length input) - i <= fuel ->
  match exec_loop input ignore_case r n fuel i with
  | Some (j, y) =>
      i <= j <= length input /\ match_at input ignore_case r n j = Some y /\
      forall k, i <= k < j -> match_at input ignore_case r n k = None
  | None => forall k, i <= k <= length input -> match_at input ignore_case r n k = None
  end.
Proof.
  revert i. induction fuel as [|fuel IH]; intros i Hf; simpl; [intros; lia|].
  destruct (Nat.ltb_spec (length input) i); [simpl; intros; lia|].
  destruct (match_at _ _ r n i) as [y|] eqn:Hm.
  - split; [lia|]. split; [done|]. intros; lia.
  - specialize (IH (S i) ltac:(lia)). destruct (exec_loop _ _ r n fuel (S i)) as [[j y]|].
    + destruct IH as (Hj & Hy & Hbefore). split; [lia|]. split; [done|].
      intros k Hk. destruct (decide (k = i)) as [->|]; [done|]. apply Hbefore. lia.
    + intros k Hk. destruct (decide (k = i)) as [->|]; [done|]. apply IH; lia.
Qed.

Lemma exec_spec r n i :
  match exec input ignore_case r n i with
  | Some (j, y) =>
      i <= j <= length input /\ match_at input ignore_case r n j = Some y /\
      forall k, i <= k < j -> match_at input ignore_case r n k = None
  | None => forall k, i <= k <= length input -> match_at input ignore_case r n k = None
  end.
Proof. apply exec_loop_spec. lia. Qed.

(** Giving the search loop more than [length - i + 1] rounds changes
    nothing: the bound of [exec] is the loop's own. *)
Lemma exec_loop_fuel r n f1 f2 i :
  S (length input) - i <= f1 -> S (length input) - i <= f2 ->
  exec_loop input ignore_case r n f1 i = exec_loop input ignore_case r n f2 i.
Proof.
  revert f2 i. induction f1 as [|f1 IH]; intros [|f2] i H1 H2; simpl; try done;
    destruct (Nat.ltb_spec (length input) i); try done; try lia.
  destruct (match_at _ _ r n i); [done|]. apply IH; lia.
Qed.
(** A greedy [\d{min,max}] with the final continuation consumes the
    longest run of digits allowed by [max], and fails when the run is
    shorter than [min]. *)
Lemma repeat_digit_greedy min max x :
  (min <= max)%nat ->
  repeat_matcher (compile input ignore_case RDigit) min max [] x Some =
  let k := Nat.min max (length (digit_run (drop (st_end x) input))) in
  if (min <=? k)%nat then Some (MState (st_end x + k) (st_caps x)) else None.
Proof.
  revert min x. induction max as [|max IH]; intros min [e caps] Hmin; cbn -[Nat.eqb].
  { assert (min = 0) as -> by lia. by rewrite Nat.add_0_r. }
  destruct (input !! e) as [ch|] eqn:He.
  - rewrite (drop_S _ _ _ He). cbn -[Nat.eqb].
    destruct (is_digit ch) eqn:Hd; cbn -[Nat.eqb].
    + rewrite (proj2 (Nat.eqb_neq (S e) e)) by lia. rewrite andb_false_r.
      rewrite IH by lia. cbn -[Nat.eqb].
      destruct min as [|min]; cbn -[Nat.eqb].
      * replace (S (e + Nat.min max _)) with (e + S (Nat.min max (length (digit_run (drop (S e) input))))) by lia.
        done.
      * destruct (Nat.leb_spec min (Nat.min max (length (digit_run (drop (S e) input))))); [|done].
        f_equal. f_equal. lia.
    + by destruct min; [rewrite Nat.add_0_r|].
  - rewrite drop_ge by (apply lookup_ge_None_1; done). simpl.
    by destruct min; [rewrite Nat.add_0_r|].  Qed.
End MatcherFacts.

(** The search from an index past the end finds nothing. *)
Lemma regexp_exec_past_end re s i : length s < i -> regexp_exec re s i = None.
Proof.
  intros Hi. unfold regexp_exec, exec. simpl. by rewrite (proj2 (Nat.ltb_lt _ _) Hi).
Qed.

(** A match found from [last] starts at or after [last] and ends at or
    after its start. *)
Lemma regexp_exec_forward re s last i y :
  regexp_exec re s last = Some (i, y) -> last <= i /\ i <= st_end y.
Proof.
  intros H. pose proof (exec_spec s (re_icase re) (re_pattern re) (re_ncaps re) last) as Hs.
  unfold regexp_exec in H. rewrite H in Hs. destruct Hs as (Hi & Hm & _).
  split; [lia|]. by apply match_at_end in Hm.
Qed.

(** Each round of the global match moves [lastIndex] forward, so
    [length s + 2] rounds are enough: more fuel gives the same matches. *)
Lemma match_global_loop_fuel re s f1 f2 last :
  S (length s) - last < f1 -> S (length s) - last < f2 ->
  match_global_loop re s f1 last = match_global_loop re s f2 last.
Proof.
  revert f2 last. induction f1 as [|f1 IH]; intros [|f2] last H1 H2; simpl; try lia.
  destruct (regexp_exec re s last) as [[i y]|] eqn:He; [|done].
  destruct (Nat.ltb_spec (length s) last) as [Hl|Hl].
  { by rewrite regexp_exec_past_end in He. }
  destruct (regexp_exec_forward _ _ _ _ _ He) as [Hi Hy]. f_equal.
  (* the next search starts after [i]: one further after an empty match,
     at the match's end otherwise, which is then past [i] *)
  case_decide as Hempty; apply IH; try lia.
  all: unfold slice in Hempty; destruct (decide (st_end y - i = 0)) as [Hz|Hz]; try lia.
  all: by rewrite Hz in Hempty.
Qed.

(** The fuel [length s + 2] of [js_match_global] is enough: any larger
    fuel gives the same result. *)
Lemma js_match_global_fuel re s f : S (S (length s)) <= f ->
  js_match_global re s = match match_global_loop re s f 0 with [] => None | l => Some l end.
Proof. intros Hf. unfold js_match_global. rewrite (match_global_loop_fuel re s _ f 0); [done|lia|lia]. Qed.
