(* ===== verification/StableSort.v ===== *)
(** * [Array.prototype.sort] with a comparator

    ES2023 23.1.3.30: with a consistent comparator the result is the
    permutation of the array that is sorted by the comparator and keeps
    the order of elements the comparator finds equal (the sort is
    stable).  [js_sort] computes it by insertion; the theorems show that
    it is sorted, a permutation and stable, and that these three
    properties determine the result, so [js_sort] is what every conforming
    engine returns.  The comparators of the scanner ([a.index - b.index]
    and its variant on audio files) are consistent on integer-valued
    keys: [JsNumber.js_sub_sign] reduces them to [xint_compare]. *)

From S2P Require Import Prelude JsNumber.

Section Sort.
Context {A : Type} (cmp : A -> A -> comparison).

(** Insert [x] before the first element it is not greater than. *)
Fixpoint insert_sorted (x : A) (l : list A) : list A :=
  match l with
  | [] => [x]
  | y :: l' => match cmp x y with Gt => y :: insert_sorted x l' | _ => x :: y :: l' end
  end.

Definition js_sort (l : list A) : list A := foldr insert_sorted [] l.
End Sort.

(** The order [js_sort] must produce when the comparator compares keys. *)
Definition key_le {A} (key : A -> xint) (x y : A) : Prop := xint_le (key x) (key y).

(** Stability: the elements with one key keep their relative order. *)
Definition same_key_order {A} (key : A -> xint) (l1 l2 : list A) : Prop :=
  forall k, filter (λ x, bool_decide (key x = k)) l1 = filter (λ x, bool_decide (key x = k)) l2.

(** * Properties *)

Section SortFacts.
Context {A : Type} (cmp : A -> A -> comparison) (key : A -> xint).
Hypothesis Hcmp : forall x y, cmp x y = xint_compare (key x) (key y).

Lemma insert_sorted_Permutation x l : insert_sorted cmp x l ≡ₚ x :: l.
Proof.
  induction l as [|y l IH]; simpl; [done|].
  destruct (cmp x y); [done|done|]. rewrite IH. apply perm_swap.
Qed.

Lemma js_sort_Permutation l : js_sort cmp l ≡ₚ l.
Proof.
  induction l as [|x l IH]; simpl; [done|]. by rewrite insert_sorted_Permutation, IH.
Qed.

Lemma key_le_of_cmp x y : cmp x y <> Gt -> key_le key x y.
Proof. unfold key_le, xint_le. by rewrite <- Hcmp. Qed.

Lemma key_le_of_gt x y : cmp x y = Gt -> key_le key y x.
Proof.
  unfold key_le, xint_le. rewrite Hcmp, (xint_compare_antisym (key x) (key y)). intros ->. done.
Qed.

Lemma HdRel_insert_sorted y x l :
  HdRel (key_le key) y l -> key_le key y x -> HdRel (key_le key) y (insert_sorted cmp x l).
Proof.
  intros Hhd Hyx. destruct l as [|z l]; simpl; [by apply HdRel_cons|].
  destruct (cmp x z); apply HdRel_cons; [done|done|]. by invc Hhd.
Qed.

Lemma insert_sorted_Sorted x l :
  Sorted (key_le key) l -> Sorted (key_le key) (insert_sorted cmp x l).
Proof.
  induction 1 as [|y l Hl IH Hhd]; simpl.
  { apply Sorted_cons; [apply Sorted_nil|apply HdRel_nil]. }
  destruct (cmp x y) eqn:Hxy.
  - apply Sorted_cons; [by apply Sorted_cons|]. apply HdRel_cons, key_le_of_cmp. by rewrite Hxy.
  - apply Sorted_cons; [by apply Sorted_cons|]. apply HdRel_cons, key_le_of_cmp. by rewrite Hxy.
  - apply Sorted_cons; [done|]. apply HdRel_insert_sorted; [done|]. by apply key_le_of_gt.
Qed.

(** The result is sorted by the keys. *)
Lemma js_sort_Sorted l : Sorted (key_le key) (js_sort cmp l).
Proof. induction l as [|x l IH]; simpl; [constructor|]. by apply insert_sorted_Sorted. Qed.

Lemma filter_insert_sorted k x l :
  Sorted (key_le key) l ->
  filter (λ y, bool_decide (key y = k)) (insert_sorted cmp x l) =
  filter (λ y, bool_decide (key y = k)) (x :: l).
Proof.
  induction 1 as [|y l Hl IH Hhd]; simpl; [done|].
  rewrite Hcmp. destruct (xint_compare (key x) (key y)) eqn:Hxy; [done|done|].
  rewrite filter_cons, IH, !filter_cons.
  case_bool_decide as Hx; case_bool_decide as Hy; try done.
  subst. rewrite <- Hy, xint_compare_refl in Hxy. done.
Qed.

(** The sort is stable. *)
Lemma js_sort_stable l : same_key_order key (js_sort cmp l) l.
Proof.
  intros k. induction l as [|x l IH]; simpl; [done|].
  rewrite filter_insert_sorted by apply js_sort_Sorted.
  rewrite !filter_cons. by rewrite IH.
Qed.
End SortFacts.

Lemma insert_sorted_map_in {A B} (cmp : A -> A -> comparison) (cmp' : B -> B -> comparison)
    (f : A -> B) x k :
  (forall y, y ∈ k -> cmp x y = cmp' (f x) (f y)) ->
  map f (insert_sorted cmp x k) = insert_sorted cmp' (f x) (map f k).
Proof.
  induction k as [|y k IH]; intros Hf; simpl; [done|].
  rewrite <- Hf by (by left). destruct (cmp x y); simpl; [done|done|].
  rewrite IH; [done|]. intros z Hz. apply Hf. by right.
Qed.

(** Sorting commutes with a map that transports the comparator on the
    elements of the list. *)
Lemma js_sort_map_in {A B} (cmp : A -> A -> comparison) (cmp' : B -> B -> comparison) (f : A -> B) l :
  (forall x y, x ∈ l -> y ∈ l -> cmp x y = cmp' (f x) (f y)) ->
  map f (js_sort cmp l) = js_sort cmp' (map f l).
Proof.
  induction l as [|x l IH]; intros Hf; simpl; [done|].
  rewrite <- IH by (intros a b Ha Hb; apply Hf; by right).
  apply insert_sorted_map_in. intros y Hy. apply Hf; [by left|right].
  by rewrite (js_sort_Permutation cmp l) in Hy.
Qed.

(** Sorting commutes with a map that transports the comparator. *)
Lemma js_sort_map {A B} (cmp : A -> A -> comparison) (cmp' : B -> B -> comparison) (f : A -> B) l :
  (forall x y, cmp x y = cmp' (f x) (f y)) -> map f (js_sort cmp l) = js_sort cmp' (map f l).
Proof. intros Hf. apply js_sort_map_in. intros x y _ _. apply Hf. Qed.


Section Unique.
Context {A : Type} (key : A -> xint).

#[local] Instance key_le_trans : Transitive (key_le key).
Proof. intros x y z. apply xint_le_trans. Qed.

Lemma key_le_refl x : key_le key x x.
Proof. unfold key_le, xint_le. by rewrite xint_compare_refl. Qed.

Lemma sorted_head_min x l y :
  Sorted (key_le key) (x :: l) -> y ∈ x :: l -> key_le key x y.
Proof.
  intros Hs Hy. apply Sorted_StronglySorted in Hs; [|apply _]. invc Hs.
  apply elem_of_cons in Hy as [->|Hy]; [apply key_le_refl|].
  by eapply Forall_forall.
Qed.

Lemma filter_key_cons k x l :
  filter (λ y, bool_decide (key y = k)) (x :: l) =
  if bool_decide (key x = k) then x :: filter (λ y, bool_decide (key y = k)) l
  else filter (λ y, bool_decide (key y = k)) l.
Proof. rewrite filter_cons. by destruct (bool_decide (key x = k)). Qed.

(** Two lists that are permutations of each other, both sorted by the
    keys and with the same order within each key, are equal. *)
Lemma sorted_stable_unique l1 l2 :
  l1 ≡ₚ l2 -> Sorted (key_le key) l1 -> Sorted (key_le key) l2 ->
  same_key_order key l1 l2 -> l1 = l2.
Proof.
  revert l2. induction l1 as [|x l1 IH]; intros l2 Hp Hs1 Hs2 Hso.
  { symmetry. by apply Permutation_nil. }
  destruct l2 as [|y l2]; [by symmetry in Hp; apply Permutation_nil in Hp|].
  assert (key x = key y) as Hxy.
  { apply xint_le_antisym;
      [ apply (sorted_head_min x l1 y Hs1); rewrite Hp; left
      | apply (sorted_head_min y l2 x Hs2); rewrite <- Hp; left ]. }
  pose proof (Hso (key x)) as Hk. rewrite !filter_key_cons, Hxy in Hk.
  rewrite !bool_decide_eq_true_2 in Hk by done. injection Hk as <- _.
  f_equal. apply IH.
  - by apply Permutation_cons_inv in Hp.
  - by apply Sorted_inv in Hs1 as [? _].
  - by apply Sorted_inv in Hs2 as [? _].
  - intros k. pose proof (Hso k) as Hk. rewrite !filter_key_cons in Hk.
    case_bool_decide; [by injection Hk|done].
Qed.
End Unique.

(** The three properties the standard requires of the sort determine its
    result: an array that is a sorted, stable permutation of [l] is
    [js_sort cmp l]. *)
Lemma js_sort_unique {A} (cmp : A -> A -> comparison) (key : A -> xint) l l' :
  (forall x y, cmp x y = xint_compare (key x) (key y)) ->
  l' ≡ₚ l -> Sorted (key_le key) l' -> same_key_order key l' l -> l' = js_sort cmp l.
Proof.
  intros Hcmp Hp Hs Hso. apply sorted_stable_unique with key.
  - by rewrite js_sort_Permutation.
  - done.
  - by apply js_sort_Sorted.
  - intros k. by rewrite Hso, (js_sort_stable cmp key Hcmp l k).
Qed.
