(* ===== verification/Normalizer.v ===== *)
(** * Probe Result Normalizer: [scan] and [getDefaultAudioStream]

    Source: src/server/utils/audioFileScanner.js, lines 5-70.  The probe
    result is the object the external prober resolves to; its
    dynamically-named tag fields are kept as a list of (key, value) pairs
    in the order [for ... in] enumerates them.  Values the scanner only
    copies (chapters, raw tags) are opaque JSON values.  The prober itself
    is a parameter ([prober]): it resolves to an object, to [null], or
    rejects, in which case [scan] rejects too. *)

From S2P Require Import Prelude JsNumber JsString.

Local Open Scope string_scope.

(** Opaque JSON payloads (chapters, raw tags). *)
Inductive jsval :=
| VNull
| VBool (b : bool)
| VNum (x : jsnum)
| VStr (s : string)
| VArr (l : list jsval)
| VObj (fields : list (string * jsval)).

Record AudioStream := {
  as_is_default : bool;
  as_bit_rate : option jsnum;
  as_codec : option string;
  as_time_base : option string;
  as_language : option string;
  as_channel_layout : option string;
  as_channels : option jsnum;
  as_sample_rate : option jsnum
}.

Record VideoStream := { vs_codec : option string }.

(** The prober's result object ([None] fields are [undefined]). *)
Record ProbeData := {
  pd_format : option string;
  pd_duration : option jsnum;
  pd_size : option jsnum;
  pd_bit_rate : option jsnum;
  pd_audio_streams : option (list AudioStream);
  pd_video_stream : option VideoStream;
  pd_chapters : option (list jsval);
  pd_fields : list (string * option string);
  pd_rawTags : option jsval
}.

(** The outcome of [await prober(path, verbose)]. *)
Inductive ProbeOutcome :=
| ProbeRejects
| ProbeResolves (pd : option ProbeData).

(** [finalData]: the canonical metadata. *)
Record AudioMetadata := {
  md_format : option string;
  md_duration : option jsnum;
  md_size : option jsnum;
  md_bit_rate : option jsnum;
  md_codec : option string;
  md_time_base : option string;
  md_language : option string;
  md_channel_layout : option string;
  md_channels : option jsnum;
  md_sample_rate : option jsnum;
  md_chapters : list jsval;
  md_embedded_cover_art : option string;
  md_tags : list (string * string);
  md_trackNumber : option jsnum;
  md_trackTotal : option jsnum;
  md_rawTags : option jsval
}.

(** The value [scan] resolves to: [{ error }] or [finalData]. *)
Inductive ScanResult :=
| ScanError (msg : string)
| ScanData (md : AudioMetadata).

(** Decidable equality of the scan results, used by [updateMetadata]. *)
Fixpoint jsval_eq_dec (a b : jsval) {struct a} : Decision (a = b).
Proof.
  refine (match a, b with
  | VNull, VNull => left eq_refl
  | VBool x, VBool y => cast_if (decide (x = y))
  | VNum x, VNum y => cast_if (decide (x = y))
  | VStr x, VStr y => cast_if (decide (x = y))
  | VArr l1, VArr l2 => cast_if (@decide (l1 = l2) (@list_eq_dec _ jsval_eq_dec l1 l2))
  | VObj f1, VObj f2 => cast_if (@decide (f1 = f2) (@list_eq_dec _ (@prod_eq_dec _ _ _ jsval_eq_dec) f1 f2))
  | _, _ => right _
  end); congruence.
Defined.
#[export] Instance jsval_eqdec : EqDecision jsval := jsval_eq_dec.

#[export] Instance AudioMetadata_eq_dec : EqDecision AudioMetadata.
Proof. solve_decision. Defined.
#[export] Instance ScanResult_eq_dec : EqDecision ScanResult.
Proof. solve_decision. Defined.

Definition num_opt_truthy (x : option jsnum) : bool :=
  match x with Some n => num_truthy n | None => false end.

(** [a || b] on optional numbers. *)
Definition num_or (a b : option jsnum) : option jsnum := if num_opt_truthy a then a else b.

(** Line 5. *)
Definition ImageCodecs : list string := ["mjpeg"; "jpeg"; "png"].

(** Lines 7-12; [None] is [audioStreams[0]] of an empty array. *)
Definition getDefaultAudioStream (audioStreams : list AudioStream) : option AudioStream :=
  if (length audioStreams =? 1)%nat then head audioStreams
  else match find_first as_is_default audioStreams with
       | Some s => Some s
       | None => head audioStreams
       end.

(** Lines 48-52: the fields whose key starts with "file_tag" and whose
    value is truthy. *)
Definition copy_tags (fields : list (string * option string)) : list (string * string) :=
  omap (λ '(k, v), if str_truthy v && js_starts_with "file_tag" k
                   then (λ s, (k, s)) <$> v else None) fields.

Definition tag_lookup (k : string) (tags : list (string * string)) : option string :=
  snd <$> find_first (λ '(k', _), bool_decide (k' = k)) tags.

(** Lines 54-63: [track.split('/').map(part => Number(part))]. *)
Definition track_parts (track : string) : list jsnum :=
  map string_to_number (js_split_char "/" track).

Definition parse_track (tags : list (string * string)) : option jsnum * option jsnum :=
  match tag_lookup "file_tag_track" tags with
  | Some track =>
      if str_truthy (Some track) then
        let parts := track_parts track in
        (head parts, if (1 <? length parts)%nat then parts !! 1%nat else None)
      else (None, None)
  | None => (None, None)
  end.

(** Lines 17-69, after the prober has resolved. *)
Definition scan_probe_data (probeData : option ProbeData) (verbose : bool) : ScanResult :=
  match probeData with
  | None => ScanError "Invalid audio file"
  | Some pd =>
      match pd_audio_streams pd with
      | None | Some [] => ScanError "Invalid audio file"
      | Some ((s0 :: _) as streams) =>
          if negb (num_opt_truthy (pd_duration pd)) || negb (num_opt_truthy (pd_size pd))
          then ScanError "Invalid duration or size"
          else
            let audioStream := default s0 (getDefaultAudioStream streams) in
            let hasCoverArt :=
              match pd_video_stream pd with
              | Some vs => match vs_codec vs with
                           | Some c => bool_decide (c ∈ ImageCodecs)
                           | None => false
                           end
              | None => false
              end in
            let tags := copy_tags (pd_fields pd) in
            let '(trackNumber, trackTotal) := parse_track tags in
            ScanData {|
              md_format := pd_format pd;
              md_duration := pd_duration pd;
              md_size := pd_size pd;
              md_bit_rate := num_or (as_bit_rate audioStream) (pd_bit_rate pd);
              md_codec := as_codec audioStream;
              md_time_base := as_time_base audioStream;
              md_language := as_language audioStream;
              md_channel_layout := as_channel_layout audioStream;
              md_channels := as_channels audioStream;
              md_sample_rate := as_sample_rate audioStream;
              md_chapters := default [] (pd_chapters pd);
              md_embedded_cover_art :=
                if hasCoverArt then pd_video_stream pd ≫= vs_codec else None;
              md_tags := tags;
              md_trackNumber := trackNumber;
              md_trackTotal := trackTotal;
              md_rawTags := if verbose then pd_rawTags pd else None
            |}
      end
  end.

(** Lines 14-70: [scan(path, verbose)]; [None] is a rejected promise. *)
Definition scan (prober : string -> bool -> ProbeOutcome) (path : string) (verbose : bool) :
    option ScanResult :=
  match prober path verbose with
  | ProbeRejects => None
  | ProbeResolves pd => Some (scan_probe_data pd verbose)
  end.

(** * Properties *)

(** ** Errors: the two ways [scan] reports an invalid file *)

(** C22. [scan] fails exactly when there is no probe data or no audio stream
    (["Invalid audio file"]), or when the duration or the size is missing
    or zero (["Invalid duration or size"]). *)
Theorem scan_probe_data_error pd v msg :
  scan_probe_data pd v = ScanError msg <->
  (msg = "Invalid audio file" /\
   (pd = None \/ exists p, pd = Some p /\ (pd_audio_streams p = None \/ pd_audio_streams p = Some []))) \/
  (msg = "Invalid duration or size" /\
   exists p s ss, pd = Some p /\ pd_audio_streams p = Some (s :: ss) /\
     (num_opt_truthy (pd_duration p) = false \/ num_opt_truthy (pd_size p) = false)).
Proof.
  unfold scan_probe_data. destruct pd as [p|]; [|split; [intros [= <-]; by left; split; [|left]|]].
  2: { intros [[-> _]|[_ (q & s & ss & [=] & _)]]; done. }
  destruct (pd_audio_streams p) as [[|s ss]|] eqn:Hs.
  - split; [intros [= <-]; left; split; [done|right; eauto]|].
    intros [[-> _]|[_ (q & s & ss & [= <-] & Hq & _)]]; [done|congruence].
  - destruct (num_opt_truthy (pd_duration p)) eqn:Hd, (num_opt_truthy (pd_size p)) eqn:Hz; simpl.
    + split; [by destruct (parse_track _)|].
      intros [[_ [[=]|(q & [= <-] & [Hq|Hq])]]|[_ (q & s' & ss' & [= <-] & Hq & [Hq'|Hq'])]]; congruence.
    + split; [intros [= <-]; right; split; [done|]; eauto 10|].
      intros [[-> [[=]|(q & [= <-] & [Hq|Hq])]]|[-> _]]; congruence.
    + split; [intros [= <-]; right; split; [done|]; eauto 10|].
      intros [[-> [[=]|(q & [= <-] & [Hq|Hq])]]|[-> _]]; congruence.
    + split; [intros [= <-]; right; split; [done|]; eauto 10|].
      intros [[-> [[=]|(q & [= <-] & [Hq|Hq])]]|[-> _]]; congruence.
  - split; [intros [= <-]; left; split; [done|right; eauto]|].
    intros [[-> _]|[_ (q & s & ss & [= <-] & Hq & _)]]; [done|congruence].
Qed.

(** ** Stream selection *)

(** With several streams, the first stream flagged default is used. *)
Lemma default_stream_flagged l1 s l2 :
  (2 <= length (l1 ++ s :: l2))%nat ->
  Forall (λ t, as_is_default t = false) l1 -> as_is_default s = true ->
  getDefaultAudioStream (l1 ++ s :: l2) = Some s.
Proof.
  intros Hlen Hl1 Hs. unfold getDefaultAudioStream.
  rewrite (proj2 (Nat.eqb_neq _ _)) by lia.
  rewrite find_first_app, (proj2 (find_first_None _ _) Hl1). simpl. by rewrite Hs.
Qed.

(** With several streams none of which is flagged default, the first one
    is used. *)
Lemma default_stream_none_flagged l :
  (2 <= length l)%nat -> Forall (λ t, as_is_default t = false) l ->
  getDefaultAudioStream l = head l.
Proof.
  intros Hlen Hl. unfold getDefaultAudioStream.
  rewrite (proj2 (Nat.eqb_neq _ _)) by lia. by rewrite (proj2 (find_first_None _ _) Hl).
Qed.

Lemma getDefaultAudioStream_Some s0 l : exists s, getDefaultAudioStream (s0 :: l) = Some s /\ s ∈ s0 :: l.
Proof.
  unfold getDefaultAudioStream. destruct (_ =? 1)%nat; [exists s0; split; [done|by left]|].
  destruct (find_first as_is_default (s0 :: l)) as [s|] eqn:Hf.
  - exists s. split; [done|]. by apply find_first_Some in Hf as [_ ?].
  - exists s0. split; [done|by left].
Qed.

(** C23. The metadata of a successful scan: the selected stream's fields and
    the container's values, with the effective bit rate
    [audioStream.bit_rate || probeData.bit_rate]. *)
Theorem scan_probe_data_stream pd v md :
  scan_probe_data (Some pd) v = ScanData md ->
  exists s ss a, pd_audio_streams pd = Some (s :: ss) /\
    getDefaultAudioStream (s :: ss) = Some a /\
    md_codec md = as_codec a /\ md_channels md = as_channels a /\
    md_sample_rate md = as_sample_rate a /\
    md_bit_rate md = num_or (as_bit_rate a) (pd_bit_rate pd) /\
    md_duration md = pd_duration pd /\ num_opt_truthy (md_duration md) = true /\
    md_size md = pd_size pd /\ num_opt_truthy (md_size md) = true.
Proof.
  unfold scan_probe_data. destruct (pd_audio_streams pd) as [[|s ss]|]; try done.
  destruct (num_opt_truthy (pd_duration pd)) eqn:Hd, (num_opt_truthy (pd_size pd)) eqn:Hz;
    cbn -[getDefaultAudioStream parse_track]; try done.
  destruct (getDefaultAudioStream_Some s ss) as (a & Ha & _). rewrite Ha. simpl.
  destruct (parse_track _). intros [= <-]. simpl. exists s, ss, a. by repeat split.
Qed.

(** ** Cover art *)

(** Embedded cover art is recorded exactly when the video stream's codec
    is one of the image codecs, and it is that codec. *)
Lemma scan_cover_art pd v md c :
  scan_probe_data (Some pd) v = ScanData md ->
  md_embedded_cover_art md = Some c <->
  (exists vs, pd_video_stream pd = Some vs /\ vs_codec vs = Some c) /\ c ∈ ImageCodecs.
Proof.
  unfold scan_probe_data. destruct (pd_audio_streams pd) as [[|s ss]|]; try done.
  destruct (_ || _); [done|]. destruct (parse_track _). intros [= <-]. simpl.
  destruct (pd_video_stream pd) as [[[c'|]]|]; simpl.
  - case_bool_decide as Hc; split.
    + intros [= <-]. eauto.
    + intros [(vs & [= <-] & [= <-]) _]. done.
    + done.
    + intros [(vs & [= <-] & [= <-]) ?]. done.
  - split; [done|]. by intros [(vs & [= <-] & [=]) _].
  - split; [done|]. by intros [(vs & [=] & _) _].
Qed.

(** ** Track tag parsing *)

(** A track tag without '/' gives the track number [Number(tag)] and no
    total. *)
Lemma parse_track_single tags t :
  tag_lookup "file_tag_track" tags = Some t -> t <> "" ->
  Forall (λ x, x <> "/"%char) (list_ascii_of_string t) ->
  parse_track tags = (Some (string_to_number t), None).
Proof.
  intros Ht Hne Hs. unfold parse_track. rewrite Ht.
  destruct t as [|x t']; [done|]. unfold track_parts.
  rewrite js_split_char_none by done. done.
Qed.

(** A track tag ["N/M"] gives the track number [Number(N)] and the total
    [Number(M)]. *)
Lemma parse_track_total tags n m :
  tag_lookup "file_tag_track" tags = Some (n ++ String "/" m) ->
  Forall (λ x, x <> "/"%char) (list_ascii_of_string n) ->
  Forall (λ x, x <> "/"%char) (list_ascii_of_string m) ->
  parse_track tags = (Some (string_to_number n), Some (string_to_number m)).
Proof.
  intros Ht Hn Hm. unfold parse_track. rewrite Ht.
  assert (str_truthy (Some (n ++ String "/" m)) = true) as -> by (by destruct n).
  unfold track_parts. rewrite js_split_char_app, js_split_char_none by done. done.
Qed.

