(* ===== verification/Resolver.v ===== *)
(** * Track Number Resolver

    Source: src/server/utils/audioFileScanner.js, lines 74-123 (the three
    resolvers and [isNumber]) and lines 145-156 / 247-258 (the CD-to-track
    promotion, written twice in the source, once per reconciler).

    [getTrackNumberFromFilename] removes the book's title, author and
    series (first occurrence each) and the publish year (replaced by the
    string "undefined": the source calls [replace] without a replacement),
    then a "disc N" and a "cd N" marker, and parses the first run of at most
    four digits.  [getCdNumberFromFilename] looks for "disc"/"cd" followed by
    one or two digits in the name after the book fields are removed. *)

From S2P Require Import Prelude JsNumber JsString RegExp Normalizer.

Local Open Scope string_scope.

(** The book context ([audiobook.book || {}]); [None] is [undefined]. *)
Record BookCtx := {
  bk_title : option string;
  bk_author : option string;
  bk_series : option string;
  bk_publishYear : option string
}.

Definition empty_book : BookCtx := Build_BookCtx None None None None.

(** A sequence of terms of a regular expression. *)
Fixpoint rseq (rs : list regex) : regex :=
  match rs with
  | [] => RRepeat RWordBoundary 0 0
  | [r] => r
  | r :: rs' => RSeq r (rseq rs')
  end.

(** [/\bdisc \d\d?\b/i] (line 92). *)
Definition disc_strip_re : regexp :=
  RegExpLit (rseq [RWordBoundary; RChar "d"; RChar "i"; RChar "s"; RChar "c"; RChar " ";
                   RDigit; RRepeat RDigit 0 1; RWordBoundary]) true 0.

(** [/\bcd ?\d\d?\b/i] (line 95). *)
Definition cd_strip_re : regexp :=
  RegExpLit (rseq [RWordBoundary; RChar "c"; RChar "d"; RRepeat (RChar " ") 0 1;
                   RDigit; RRepeat RDigit 0 1; RWordBoundary]) true 0.

(** [/\d{1,4}/g] (line 97). *)
Definition digits_re : regexp := RegExpLit (RRepeat RDigit 1 4) false 0.

(** [/\b(disc|cd) ?(\d\d?)\b/i] (line 115). *)
Definition cd_re : regexp :=
  RegExpLit (rseq [RWordBoundary;
                   RGroup 1 (RAlt (rseq [RChar "d"; RChar "i"; RChar "s"; RChar "c"])
                                  (rseq [RChar "c"; RChar "d"]));
                   RRepeat (RChar " ") 0 1;
                   RGroup 2 (rseq [RDigit; RRepeat RDigit 0 1]);
                   RWordBoundary]) true 2.

(** [isNumber] (lines 74-76) on a value that is [null] or a number. *)
Definition isNumber (v : option jsnum) : bool :=
  match v with Some x => negb (isNaN x) | None => false end.

(** The [trackNumber] field of [scan]'s result ([undefined] on an error
    object). *)
Definition scan_trackNumber (scanData : ScanResult) : option jsnum :=
  match scanData with ScanData md => md_trackNumber md | ScanError _ => None end.

(** [getTrackNumberFromMeta] (lines 78-80). *)
Definition getTrackNumberFromMeta (scanData : ScanResult) : option jsnum :=
  match scan_trackNumber scanData with
  | Some tn => if isNaN tn then None else Some (math_trunc tn)
  | None => None
  end.

(** [if (v) p = p.replace(v, rep)]. *)
Definition replace_if (v : option string) (rep p : string) : string :=
  match v with
  | Some t => if str_truthy v then js_replace_str p t rep else p
  | None => p
  end.

(** Lines 83-89 (and 105-111): the file name without extension, title,
    author, series and publish year. *)
Definition strip_book (title author series publishYear : option string) (filename : string) : string :=
  let partbasename := path_basename filename (path_extname filename) in
  let partbasename := replace_if title "" partbasename in
  let partbasename := replace_if author "" partbasename in
  let partbasename := replace_if series "" partbasename in
  replace_if publishYear js_undefined_str partbasename.

(** [getTrackNumberFromFilename] (lines 82-102). *)
Definition getTrackNumberFromFilename (title author series publishYear : option string)
    (filename : string) : option jsnum :=
  let partbasename := list_ascii_of_string (strip_book title author series publishYear filename) in
  let partbasename := js_replace_re disc_strip_re partbasename [] in
  let partbasename := js_replace_re cd_strip_re partbasename [] in
  match js_match_global digits_re partbasename with
  | None => None
  | Some numbersinpath =>
      match numbersinpath with
      | n :: _ => Some (parse_int (string_of_list_ascii n))
      | [] => None
      end
  end.

(** [getCdNumberFromFilename] (lines 104-123). *)
Definition getCdNumberFromFilename (title author series publishYear : option string)
    (filename : string) : option jsnum :=
  let partbasename := list_ascii_of_string (strip_book title author series publishYear filename) in
  match js_match_captures cd_re partbasename with
  | None => None
  | Some (m, caps) =>
      let cdmatch := Some m :: caps in
      if (2 <? length cdmatch)%nat then
        match cdmatch !! 2%nat with
        | Some (Some d) =>
            let d := string_of_list_ascii d in
            if str_truthy (Some d) then
              if negb (isNaN (string_to_number d)) then Some (string_to_number d) else None
            else None
        | _ => None
        end
      else None
  end.

(** The resolver outputs of one file. *)
Record TrackNums := {
  tn_fromMeta : option jsnum;
  tn_fromFilename : option jsnum;
  tn_cdFromFilename : option jsnum
}.

(** Lines 152-156: a CD number is used as the track number when the file
    name gave none (or a falsy one). *)
Definition promote_cd (trackNumFromFilename cdNumFromFilename : option jsnum) : option jsnum * option jsnum :=
  if negb (num_opt_truthy trackNumFromFilename) && num_opt_truthy cdNumFromFilename
  then (cdNumFromFilename, None)
  else (trackNumFromFilename, cdNumFromFilename).

(** Lines 145-156 (and 247-258): the three numbers of one scanned file. *)
Definition resolve_track_numbers (book : BookCtx) (filename : string) (scanData : ScanResult) : TrackNums :=
  let trackNumFromMeta := getTrackNumberFromMeta scanData in
  let trackNumFromFilename := getTrackNumberFromFilename (bk_title book) (bk_author book)
                                (bk_series book) (bk_publishYear book) filename in
  let cdNumFromFilename := getCdNumberFromFilename (bk_title book) (bk_author book)
                             (bk_series book) (bk_publishYear book) filename in
  let '(trackNumFromFilename, cdNumFromFilename) := promote_cd trackNumFromFilename cdNumFromFilename in
  {| tn_fromMeta := trackNumFromMeta; tn_fromFilename := trackNumFromFilename;
     tn_cdFromFilename := cdNumFromFilename |}.

(** ** Reference descriptions *)

(** The spec's reading of [/\d{1,4}/g][0]: the first run of digits, at
    most four of them. *)
Fixpoint first_digit_run (l : list ascii) : option (list ascii) :=
  match l with
  | [] => None
  | c :: l' => if is_digit c then Some (take 4 (digit_run l)) else first_digit_run l'
  end.

(** The name that [getTrackNumberFromFilename] searches for digits. *)
Definition track_search_name (book : BookCtx) (filename : string) : list ascii :=
  let p := list_ascii_of_string (strip_book (bk_title book) (bk_author book) (bk_series book)
                                   (bk_publishYear book) filename) in
  js_replace_re cd_strip_re (js_replace_re disc_strip_re p []) [].

Local Close Scope string_scope.

(** * Properties *)

(** ** The digit search *)

Lemma digit_run_prefix t : exists r, t = digit_run t ++ r.
Proof.
  induction t as [|c t [r IH]]; [by exists []|]. simpl.
  destruct (is_digit c); [exists r; simpl; by rewrite <- IH|by exists (c :: t)].
Qed.

Lemma digit_run_digits t : Forall (λ c, is_digit c = true) (digit_run t).
Proof. induction t as [|c t IH]; simpl; [done|]. destruct (is_digit c) eqn:Hc; auto. Qed.

Lemma take_min_digit_run t : take (Nat.min 4 (length (digit_run t))) t = take 4 (digit_run t).
Proof.
  destruct (digit_run_prefix t) as [r Hr]. rewrite Hr at 2.
  rewrite take_app_le by lia. rewrite <- take_take. by rewrite (take_ge (digit_run t) (length (digit_run t))) by lia.
Qed.

Lemma digit_run_drop_nil l k :
  digit_run (drop k l) = [] <-> forall c, l !! k = Some c -> is_digit c = false.
Proof.
  destruct (l !! k) as [c|] eqn:Hk.
  - rewrite (drop_S _ _ _ Hk). simpl. destruct (is_digit c) eqn:Hd; split; intros H; try done.
    + specialize (H c eq_refl). congruence.
    + by intros c' [= <-].
  - rewrite drop_ge by (by apply lookup_ge_None_1). done.
Qed.

(** [/\d{1,4}/] matches at index [i] exactly when a digit is there, and
    takes at most four of the digits that follow. *)
Lemma digits_match_at l i :
  match_at l false (RRepeat RDigit 1 4) 0 i =
  let k := Nat.min 4 (length (digit_run (drop i l))) in
  if (1 <=? k)%nat then Some (MState (i + k) []) else None.
Proof.
  unfold match_at.
  change (compile l false (RRepeat RDigit 1 4)) with (repeat_matcher (compile l false RDigit) 1 4 []).
  by rewrite repeat_digit_greedy by lia.
Qed.

Lemma first_digit_run_at l j :
  (forall k c, (k < j)%nat -> l !! k = Some c -> is_digit c = false) ->
  forall c, l !! j = Some c -> is_digit c = true ->
  first_digit_run l = Some (take 4 (digit_run (drop j l))).
Proof.
  revert l. induction j as [|j IH]; intros [|c0 l] Hbefore c Hj Hc; try done.
  - simpl in Hj. invc Hj. simpl. by rewrite Hc.
  - simpl. rewrite (Hbefore 0%nat c0) by (done || lia).
    apply (IH l) with (c := c); [|done|done]. intros k c' Hk Hl. apply (Hbefore (S k)); [lia|done].
Qed.

Lemma first_digit_run_none l :
  (forall k c, l !! k = Some c -> is_digit c = false) -> first_digit_run l = None.
Proof.
  induction l as [|c l IH]; intros H; [done|]. simpl.
  rewrite (H 0%nat c eq_refl). apply IH. intros k c' Hk. by apply (H (S k)).
Qed.

Lemma digits_match_at_None l k :
  match_at l false (RRepeat RDigit 1 4) 0 k = None <-> digit_run (drop k l) = [].
Proof.
  rewrite digits_match_at. simpl.
  destruct (digit_run (drop k l)); simpl; [done|]. split; [done|congruence].
Qed.

(** [partbasename.match(/\d{1,4}/g)] is [null] exactly when the name has
    no digit, and its first element is the first run of digits cut to
    four. *)
Theorem digits_match_global_first l :
  match js_match_global digits_re l with
  | None => first_digit_run l = None
  | Some ns => head ns = first_digit_run l
  end.
Proof.
  unfold js_match_global. cbn [match_global_loop].
  pose proof (exec_spec l false (RRepeat RDigit 1 4) 0 0) as Hx.
  change (exec l false (RRepeat RDigit 1 4) 0 0) with (regexp_exec digits_re l 0) in Hx.
  destruct (regexp_exec digits_re l 0) as [[j y]|].
  - destruct Hx as (Hj & Hy & Hbefore). simpl.
    pose proof Hy as Hy'. rewrite digits_match_at in Hy'. cbv zeta in Hy'.
    remember (Nat.min 4 (length (digit_run (drop j l)))) as k eqn:Hkdef.
    destruct (Nat.leb_spec 1 k) as [Hk|]; [|done].
    injection Hy' as <-. simpl. unfold slice.
    replace (j + k - j)%nat with k by lia. subst k. rewrite take_min_digit_run.
    destruct (l !! j) as [c|] eqn:Hc;
      [|rewrite drop_ge in Hk by (by apply lookup_ge_None_1); simpl in Hk; lia].
    symmetry. apply (first_digit_run_at l j) with (c := c); [|done|].
    + intros k c' Hkj Hk'. apply (proj1 (digit_run_drop_nil l k)); [|done].
      apply digits_match_at_None, Hbefore. lia.
    + rewrite (drop_S _ _ _ Hc) in Hk. simpl in Hk. destruct (is_digit c); [done|simpl in Hk; lia].
  - apply first_digit_run_none. intros k c Hk.
    apply (proj1 (digit_run_drop_nil l k)); [|done].
    apply digits_match_at_None, Hx. split; [lia|]. apply lookup_lt_Some in Hk. lia.
Qed.

Lemma first_digit_run_shape l ds :
  first_digit_run l = Some ds ->
  ds <> [] /\ Forall (λ c, is_digit c = true) ds /\ (length ds <= 4)%nat.
Proof.
  induction l as [|c l IH]; simpl; [done|].
  destruct (is_digit c) eqn:Hc; [|done]. intros [= <-]. simpl.
  split; [done|]. split; [|rewrite length_take; lia].
  constructor; [done|]. apply Forall_take, digit_run_digits.
Qed.

Lemma dec_value_lt (acc : Z) l :
  (0 <= acc)%Z -> Forall (λ c, is_digit c = true) l ->
  (dec_value acc l < (acc + 1) * 10 ^ Z.of_nat (length l))%Z.
Proof.
  revert acc. induction l as [|c l IH]; intros acc Ha Hl; simpl; [lia|].
  apply Forall_cons in Hl as [Hc Hl]. pose proof (digit_val_bounds c Hc).
  eapply Z.lt_le_trans; [apply IH; [lia|done]|].
  rewrite Nat2Z.inj_succ, Z.pow_succ_r by lia. nia.
Qed.

(** ** The track number found in a file name *)

(** C19. [getTrackNumberFromFilename] is [null] when the searched name has no
    digit, and otherwise the value of its first run of digits, cut to four
    digits ([parseInt] of that run). *)
Theorem track_from_filename_first_run book filename :
  getTrackNumberFromFilename (bk_title book) (bk_author book) (bk_series book)
    (bk_publishYear book) filename =
  (λ ds, js_int (dec_value 0 ds)) <$> first_digit_run (track_search_name book filename).
Proof.
  unfold getTrackNumberFromFilename. fold (track_search_name book filename).
  pose proof (digits_match_global_first (track_search_name book filename)) as H.
  destruct (js_match_global _ _) as [[|n ns]|]; simpl in H.
  - by rewrite <- H.
  - rewrite <- H. destruct (first_digit_run_shape (track_search_name book filename) n)
      as (Hne & Hd & _); [done|].
    simpl. by rewrite parse_int_digits.
  - by rewrite H.
Qed.

(** The number [getTrackNumberFromFilename] returns is [parseInt] of one
    to four decimal digits. *)
Lemma track_from_filename_digits title author series year filename x :
  getTrackNumberFromFilename title author series year filename = Some x ->
  exists ds, x = js_int (dec_value 0 ds) /\ Forall (λ c, is_digit c = true) ds /\ (length ds <= 4)%nat.
Proof.
  unfold getTrackNumberFromFilename.
  set (l := js_replace_re cd_strip_re _ []).
  pose proof (digits_match_global_first l) as H.
  destruct (js_match_global _ _) as [[|n ns]|]; simpl in H; [done| |done].
  intros [= <-]. destruct (first_digit_run_shape l n) as (Hne & Hd & Hlen); [done|].
  exists n. split; [|done]. by apply parse_int_digits.
Qed.

(** C20. The track number read from a file name is an integer from 0 to
    9999. *)
Theorem track_from_filename_bounds book filename x :
  getTrackNumberFromFilename (bk_title book) (bk_author book) (bk_series book)
    (bk_publishYear book) filename = Some x ->
  exists n, num_to_xint x = Some (XFin n) /\ (0 <= n <= 9999)%Z.
Proof.
  intros (ds & -> & Hd & Hlen)%track_from_filename_digits.
  pose proof (dec_value_nonneg 0 ds ltac:(lia) Hd).
  pose proof (dec_value_lt 0 ds ltac:(lia) Hd).
  assert (10 ^ Z.of_nat (length ds) <= 10 ^ 4)%Z by (apply Z.pow_le_mono_r; lia).
  exists (dec_value 0 ds). split; [apply js_int_exact|]; lia.
Qed.

(** ** The CD-to-track promotion *)

(** C21. When the file name gives no track number and a (non-zero) CD number,
    the CD number becomes the track number and the CD number is cleared. *)
Theorem resolve_promotes_cd book filename scanData c :
  getTrackNumberFromFilename (bk_title book) (bk_author book) (bk_series book)
    (bk_publishYear book) filename = None ->
  getCdNumberFromFilename (bk_title book) (bk_author book) (bk_series book)
    (bk_publishYear book) filename = Some c ->
  num_truthy c = true ->
  tn_fromFilename (resolve_track_numbers book filename scanData) = Some c /\
  tn_cdFromFilename (resolve_track_numbers book filename scanData) = None.
Proof.
  intros Ht Hc Hz. unfold resolve_track_numbers. rewrite Ht, Hc.
  unfold promote_cd. simpl. by rewrite Hz.
Qed.

(** A non-zero track number from the file name is kept, with the CD number
    beside it. *)
Lemma resolve_keeps_track book filename scanData t :
  getTrackNumberFromFilename (bk_title book) (bk_author book) (bk_series book)
    (bk_publishYear book) filename = Some t ->
  num_truthy t = true ->
  tn_fromFilename (resolve_track_numbers book filename scanData) = Some t /\
  tn_cdFromFilename (resolve_track_numbers book filename scanData) =
    getCdNumberFromFilename (bk_title book) (bk_author book) (bk_series book)
      (bk_publishYear book) filename.
Proof.
  intros Ht Hz. unfold resolve_track_numbers. rewrite Ht.
  unfold promote_cd. simpl. rewrite Hz. simpl. by destruct (getCdNumberFromFilename _ _ _ _ _).
Qed.

(** ** Concrete file names *)

Local Open Scope string_scope.

