(* ===== verification/Aggregate.v ===== *)
(** * The audiobook aggregate and the reconcilers' monad

    The reconcilers mutate an audiobook object through its methods
    ([addAudioFile], [addTrack], [AudioFile.updateMetadata],
    [AudioTrack.syncMetadata]) and through the audio-file objects that
    [addAudioFile] returns.  Those classes are not under src/; their
    behaviour is taken from the spec (section 6) and marked as such in the
    map.  What matters to the scanner is the aliasing: the object
    [addAudioFile] returns is the one stored in [audiobook.audioFiles], and
    [scanAudioFiles] keeps it in its local [tracks] array and writes its
    [index], [invalid] and [error] fields.  Audio files therefore live in a
    heap ([gmap loc AudioFile]) and arrays hold references.  Tracks are
    objects that only [audiobook.tracks] holds, so they are values in a list.

    The reconcilers are [async]: [await scan(...)] rejects when the prober
    throws, and the rejection propagates.  They run in the monad [M]: state
    passing over [World], a thrown outcome, and the log as part of the
    state. *)

From S2P Require Import Prelude JsNumber JsString Normalizer Resolver.

Local Open Scope string_scope.

(** A reference to an audio-file object. *)
Definition loc := nat.

(** An element of [newAudioFiles]: the file as discovered on disk. *)
Record NewFile := {
  nf_ino : string;
  nf_filename : string;
  nf_path : string;
  nf_fullPath : string;
  nf_ext : string
}.

(** An [AudioFile] object: identity, the spread scan result, the resolver
    outputs, and the fields the reconcilers write. *)
Record AudioFile := {
  af_ino : string;
  af_filename : string;
  af_path : string;
  af_fullPath : string;
  af_ext : string;
  af_meta : ScanResult;
  af_trackNumFromMeta : option jsnum;
  af_trackNumFromFilename : option jsnum;
  af_cdNumFromFilename : option jsnum;
  af_index : option jsnum;
  af_invalid : bool;
  af_error : option string;
  af_exclude : bool
}.

(** An [AudioTrack] object of [audiobook.tracks]. *)
Record AudioTrack := {
  tr_index : option jsnum;
  tr_ino : string;
  tr_filename : string;
  tr_path : string;
  tr_fullPath : string;
  tr_ext : string;
  tr_meta : ScanResult
}.

Record Audiobook := {
  ab_id : string;
  ab_title : option string;
  ab_book : option BookCtx;
  ab_audioFiles : list loc;
  ab_tracks : list AudioTrack
}.

#[export] Instance AudioFile_eq_dec : EqDecision AudioFile.
Proof. solve_decision. Defined.

Inductive LogLevel := LDebug | LInfo | LWarn | LError.

(** One [Logger] call of the source, with the values it prints. *)
Inductive LogMsg :=
| MsgScanningPath (path : string)                          (* line 15 *)
| MsgNoNewFiles (title : option string)                    (* line 127 *)
| MsgScanningAudioFiles                                    (* line 131 *)
| MsgScanFailed (path : string)                            (* lines 141, 242 *)
| MsgInvalidTrackNumber (filename : string)                (* line 175 *)
| MsgNoTracks (id : string)                                (* line 196 *)
| MsgDuplicateTracks (n : nat) (title : option string)     (* line 201 *)
| MsgInvalidTracks (n : nat) (title : option string)       (* line 204 *)
| MsgInoMismatch (filename : string)                       (* line 277 *)
| MsgNoMatchingTrack (filename : string) (title : option string) (* line 281 *)
| MsgTrackNumbers (filename : string) (fromMeta fromFilename current : option jsnum). (* line 305 *)

Record World := {
  w_heap : gmap loc AudioFile;
  w_next : loc;
  w_ab : Audiobook;
  w_log : list (LogLevel * LogMsg)
}.

(** ** The monad *)

Inductive result (A : Type) := Done (a : A) | Thrown.
Arguments Done {A} a.
Arguments Thrown {A}.

Definition M (A : Type) : Type := World -> result A * World.

Definition ret {A} (a : A) : M A := λ w, (Done a, w).
Arguments ret {A} a _ /.

Definition bind {A B} (m : M A) (k : A -> M B) : M B :=
  λ w, match m w with
       | (Done a, w') => k a w'
       | (Thrown, w') => (Thrown, w')
       end.

Notation "'let*' x ':=' m 'in' k" := (bind m (λ x, k))
  (at level 10, x name, m at level 100, k at level 200) : js_scope.
Notation "m ;;; k" := (bind m (λ _, k)) (at level 100, k at level 200, right associativity) : js_scope.

Local Open Scope js_scope.

Definition throw {A} : M A := λ w, (Thrown, w).
Definition get_world : M World := λ w, (Done w, w).
Definition put_world (w : World) : M unit := λ _, (Done tt, w).

Definition add_log (msgs : list (LogLevel * LogMsg)) (w : World) : World :=
  {| w_heap := w_heap w; w_next := w_next w; w_ab := w_ab w; w_log := w_log w ++ msgs |}.

Definition log (lvl : LogLevel) (msg : LogMsg) : M unit := λ w, (Done tt, add_log [(lvl, msg)] w).

Definition set_ab (ab : Audiobook) (w : World) : World :=
  {| w_heap := w_heap w; w_next := w_next w; w_ab := ab; w_log := w_log w |}.

Definition set_heap (h : gmap loc AudioFile) (w : World) : World :=
  {| w_heap := h; w_next := w_next w; w_ab := w_ab w; w_log := w_log w |}.

Definition get_ab : M Audiobook := λ w, (Done (w_ab w), w).
Definition modify_ab (f : Audiobook -> Audiobook) : M unit := λ w, (Done tt, set_ab (f (w_ab w)) w).

(** Reading a field of the object at [l]. *)
Definition read_file (l : loc) : M (option AudioFile) := λ w, (Done (w_heap w !! l), w).

(** Writing fields of the object at [l] (a reference the program holds, so
    the object exists; a dangling [l] is left unchanged). *)
Definition modify_file (l : loc) (f : AudioFile -> AudioFile) : M unit :=
  λ w, (Done tt, set_heap (alter f l (w_heap w)) w).

(** [for (x of l) body], threading an accumulator. *)
Fixpoint mfold {A B} (f : A -> B -> M A) (acc : A) (l : list B) : M A :=
  match l with
  | [] => ret acc
  | x :: l' => let* acc' := f acc x in mfold f acc' l'
  end.

(** ** Field writes *)

Definition with_index (i : option jsnum) (af : AudioFile) : AudioFile :=
  {| af_ino := af_ino af; af_filename := af_filename af; af_path := af_path af;
     af_fullPath := af_fullPath af; af_ext := af_ext af; af_meta := af_meta af;
     af_trackNumFromMeta := af_trackNumFromMeta af;
     af_trackNumFromFilename := af_trackNumFromFilename af;
     af_cdNumFromFilename := af_cdNumFromFilename af;
     af_index := i; af_invalid := af_invalid af; af_error := af_error af;
     af_exclude := af_exclude af |}.

(** [audioFile.invalid = true; audioFile.error = err]. *)
Definition mark_invalid (err : string) (af : AudioFile) : AudioFile :=
  {| af_ino := af_ino af; af_filename := af_filename af; af_path := af_path af;
     af_fullPath := af_fullPath af; af_ext := af_ext af; af_meta := af_meta af;
     af_trackNumFromMeta := af_trackNumFromMeta af;
     af_trackNumFromFilename := af_trackNumFromFilename af;
     af_cdNumFromFilename := af_cdNumFromFilename af;
     af_index := af_index af; af_invalid := true; af_error := Some err;
     af_exclude := af_exclude af |}.

(** ** Collaborators (spec section 6) *)

(** [audiobook.addAudioFile(obj)]: a new [AudioFile] object built from the
    record, appended to [audiobook.audioFiles] and returned. *)
Definition addAudioFile (nf : NewFile) (scanData : ScanResult) (tn : TrackNums) : M loc :=
  λ w,
    let l := w_next w in
    let af := {| af_ino := nf_ino nf; af_filename := nf_filename nf; af_path := nf_path nf;
                 af_fullPath := nf_fullPath nf; af_ext := nf_ext nf; af_meta := scanData;
                 af_trackNumFromMeta := tn_fromMeta tn;
                 af_trackNumFromFilename := tn_fromFilename tn;
                 af_cdNumFromFilename := tn_cdFromFilename tn;
                 af_index := None; af_invalid := false; af_error := None; af_exclude := false |} in
    let ab := w_ab w in
    (Done l, {| w_heap := <[l := af]> (w_heap w); w_next := S l;
                w_ab := {| ab_id := ab_id ab; ab_title := ab_title ab; ab_book := ab_book ab;
                           ab_audioFiles := ab_audioFiles ab ++ [l]; ab_tracks := ab_tracks ab |};
                w_log := w_log w |}).

(** The track [new AudioTrack().setData(audioFile)] builds. *)
Definition track_of_file (af : AudioFile) : AudioTrack :=
  {| tr_index := af_index af; tr_ino := af_ino af; tr_filename := af_filename af;
     tr_path := af_path af; tr_fullPath := af_fullPath af; tr_ext := af_ext af;
     tr_meta := af_meta af |}.

Definition with_tracks (ts : list AudioTrack) (ab : Audiobook) : Audiobook :=
  {| ab_id := ab_id ab; ab_title := ab_title ab; ab_book := ab_book ab;
     ab_audioFiles := ab_audioFiles ab; ab_tracks := ts |}.

Definition with_audioFiles (ls : list loc) (ab : Audiobook) : Audiobook :=
  {| ab_id := ab_id ab; ab_title := ab_title ab; ab_book := ab_book ab;
     ab_audioFiles := ls; ab_tracks := ab_tracks ab |}.

(** [audiobook.addTrack(audioFile)]: a track built from the file's current
    fields is appended to [audiobook.tracks]. *)
Definition addTrack (l : loc) : M unit :=
  let* o := read_file l in
  match o with
  | Some af => modify_ab (λ ab, with_tracks (ab_tracks ab ++ [track_of_file af]) ab)
  | None => ret tt
  end.

(** The fields [audioFile.updateMetadata(patch)] writes: the spread scan
    result and the three resolver outputs. *)
Definition af_update (scanData : ScanResult) (tn : TrackNums) (af : AudioFile) : AudioFile :=
  {| af_ino := af_ino af; af_filename := af_filename af; af_path := af_path af;
     af_fullPath := af_fullPath af; af_ext := af_ext af; af_meta := scanData;
     af_trackNumFromMeta := tn_fromMeta tn;
     af_trackNumFromFilename := tn_fromFilename tn;
     af_cdNumFromFilename := tn_cdFromFilename tn;
     af_index := af_index af; af_invalid := af_invalid af; af_error := af_error af;
     af_exclude := af_exclude af |}.

(** [audioFile.updateMetadata(patch)]: applies the patch to the object at
    [l] and reports whether an observable field changed. *)
Definition updateMetadata (l : loc) (scanData : ScanResult) (tn : TrackNums) : M bool :=
  let* o := read_file l in
  match o with
  | Some af =>
      let af' := af_update scanData tn af in
      modify_file l (λ _, af') ;;; ret (negb (bool_decide (af' = af)))
  | None => ret false
  end.

(** [track.syncMetadata(audioFile)]: the track takes the file's metadata. *)
Definition syncMetadata (af : AudioFile) (t : AudioTrack) : AudioTrack :=
  {| tr_index := tr_index t; tr_ino := tr_ino t; tr_filename := tr_filename t;
     tr_path := tr_path t; tr_fullPath := tr_fullPath t; tr_ext := tr_ext t;
     tr_meta := af_meta af |}.

(** [track.ino = ino]. *)
Definition set_track_ino (ino : string) (t : AudioTrack) : AudioTrack :=
  {| tr_index := tr_index t; tr_ino := ino; tr_filename := tr_filename t;
     tr_path := tr_path t; tr_fullPath := tr_fullPath t; tr_ext := tr_ext t;
     tr_meta := tr_meta t |}.

(** Writing fields of the [i]-th element of [audiobook.tracks]. *)
Definition update_track_at (i : nat) (f : AudioTrack -> AudioTrack) : M unit :=
  modify_ab (λ ab, with_tracks (alter f i (ab_tracks ab)) ab).

(** [audiobook.book || {}]. *)
Definition book_ctx (ab : Audiobook) : BookCtx := default empty_book (ab_book ab).

(** [ToNumber] of an [index] field ([undefined] is [NaN]). *)
Definition num_of_opt (x : option jsnum) : jsnum := default JNaN x.

(** [SortCompare] with [(a, b) => ka - kb]. *)
Definition num_cmp (x y : jsnum) : comparison := js_sign (js_sub x y).

Section Scan.
Context (prober : string -> bool -> ProbeOutcome).

(** [await scan(path, verbose)] with its debug line. *)
Definition mscan (path : string) (verbose : bool) : M ScanResult :=
  log LDebug (MsgScanningPath path) ;;;
  match scan prober path verbose with
  | Some r => ret r
  | None => throw
  end.
End Scan.

(** [!scanData || scanData.error]. *)
Definition scan_failed (r : ScanResult) : bool :=
  match r with ScanError msg => str_truthy (Some msg) | ScanData _ => false end.

(** Run the monad's plumbing on a concrete world. *)
Ltac mrun := cbn [bind ret log get_ab get_world put_world modify_ab modify_file read_file
                  addAudioFile set_ab set_heap add_log throw w_heap w_next w_ab w_log
                  with_tracks with_audioFiles ab_id ab_title ab_book ab_audioFiles ab_tracks].

(** The same, unfolding the plumbing even where a heap lookup blocks. *)
Ltac mrun_all := cbv beta iota zeta delta [bind ret log get_ab get_world put_world modify_ab
                  modify_file read_file addAudioFile set_ab set_heap add_log throw
                  updateMetadata update_track_at w_heap w_next w_ab w_log].

(** * Properties *)

Lemma add_log_app l1 l2 w : add_log l2 (add_log l1 w) = add_log (l1 ++ l2) w.
Proof. destruct w. unfold add_log. simpl. by rewrite app_assoc. Qed.

Lemma set_heap_id w : set_heap (w_heap w) w = w.
Proof. by destruct w. Qed.

Lemma set_heap_set_heap h h' w : set_heap h (set_heap h' w) = set_heap h w.
Proof. by destruct w. Qed.

Lemma set_ab_set_ab ab ab' w : set_ab ab (set_ab ab' w) = set_ab ab w.
Proof. by destruct w. Qed.
