(* ===== verification/MonadLogic.v ===== *)
(** * A unary program logic for the reconcilers' monad

    [keeps P m] says that a run of [m] from a world satisfying [P] ends,
    normally or by a throw, in a world satisfying [P].  The rules below
    cover each construct the reconcilers are built from ([ret], [bind],
    the reads, [log], [mscan], [mfold], and the branches of [if] and
    [match]); the tactic [keeps_tac] walks a definition with them and leaves
    to the hint database [keeps] the atomic writes, whose rules depend on
    the invariant.  [Contracts], [WorldInvariant] and [RoundTrip]
    instantiate [P].  [triple P m Q E] is the Hoare triple with a
    postcondition [Q] on the value and the world and [E] on a throw; its
    loop rule carries an invariant of the accumulator. *)

From S2P Require Import Prelude JsNumber JsString Normalizer Resolver Aggregate.

Local Open Scope js_scope.

Create HintDb keeps discriminated.

(** [m] keeps [P]. *)
Definition keeps {A} (P : World -> Prop) (m : M A) : Prop :=
  forall w, P w -> P (m w).2.

(** [P] does not look at the log. *)
Definition log_blind (P : World -> Prop) : Prop :=
  forall L w, P w -> P (add_log L w).

Section Rules.
Context (P : World -> Prop).

Lemma keeps_ret {A} (a : A) : keeps P (ret a).
Proof. by intros w. Qed.

Lemma keeps_throw {A} : keeps P (@throw A).
Proof. by intros w. Qed.

Lemma keeps_get_ab : keeps P get_ab.
Proof. by intros w. Qed.

Lemma keeps_get_world : keeps P get_world.
Proof. by intros w. Qed.

Lemma keeps_read_file l : keeps P (read_file l).
Proof. by intros w. Qed.

Lemma keeps_bind {A B} (m : M A) (k : A -> M B) :
  keeps P m -> (forall a, keeps P (k a)) -> keeps P (bind m k).
Proof.
  intros Hm Hk w Hw. unfold bind. specialize (Hm w Hw).
  destruct (m w) as [[a|] w']; simpl in *; [by apply Hk|done].
Qed.

Lemma keeps_mfold {A B} (f : A -> B -> M A) acc l :
  (forall acc x, keeps P (f acc x)) -> keeps P (mfold f acc l).
Proof.
  intros Hf. revert acc. induction l as [|x l IH]; intros acc; simpl.
  - apply keeps_ret.
  - apply keeps_bind; [apply Hf|done].
Qed.

Lemma keeps_log lvl msg : log_blind P -> keeps P (log lvl msg).
Proof. intros HP w Hw. by apply HP. Qed.

Lemma keeps_mscan prober path verbose : log_blind P -> keeps P (mscan prober path verbose).
Proof.
  intros HP. unfold mscan. apply keeps_bind; [by apply keeps_log|].
  intros _. destruct (scan prober path verbose); [apply keeps_ret|apply keeps_throw].
Qed.

(** Binding the result of a scan, knowing what the prober answered. *)
Lemma keeps_bind_mscan {A} prober path verbose (k : ScanResult -> M A) :
  log_blind P -> (forall r, scan prober path verbose = Some r -> keeps P (k r)) ->
  keeps P (bind (mscan prober path verbose) k).
Proof.
  intros HP Hk w Hw. unfold mscan, bind, log.
  destruct (scan prober path verbose) as [r|] eqn:Hs; simpl; [|by apply HP].
  apply (Hk r eq_refl). by apply HP.
Qed.

(** A loop keeps [P] when each step does on the elements of the loop. *)
Lemma keeps_mfold_in {A B} (f : A -> B -> M A) acc l :
  (forall acc x, x ∈ l -> keeps P (f acc x)) -> keeps P (mfold f acc l).
Proof.
  revert acc. induction l as [|x l IH]; intros acc Hf; simpl; [apply keeps_ret|].
  apply keeps_bind; [apply Hf; by left|]. intros a. apply IH. intros acc' y Hy. apply Hf. by right.
Qed.

(** Two invariants that hold together hold of the pair. *)
Lemma keeps_and (Q : World -> Prop) {A} (m : M A) :
  keeps P m -> keeps Q m -> keeps (λ w, P w /\ Q w) m.
Proof. intros HP HQ w [Hp Hq]. split; [by apply HP|by apply HQ]. Qed.
End Rules.

#[export] Hint Resolve keeps_ret keeps_throw keeps_get_ab keeps_get_world keeps_read_file
  keeps_log keeps_mscan : keeps.

(** Walk a monadic definition: split binds and folds, case on every branch,
    and close the atomic steps from the hint database. *)
Ltac keeps_tac :=
  repeat match goal with
  | |- keeps _ (bind _ _) => apply keeps_bind; [|intros ?]
  | |- keeps _ (mfold _ _ _) => apply keeps_mfold; intros ??
  | |- keeps _ (if _ then _ else _) => case_match
  | |- keeps _ (match _ with _ => _ end) => case_match
  | |- _ => solve [eauto with keeps]
  end.

(** The world a run ends in, from a world where the invariant holds. *)
Lemma keeps_run {A} (P : World -> Prop) (m : M A) w :
  keeps P m -> P w -> P (m w).2.
Proof. intros Hm Hw. by apply Hm. Qed.

(** ** Triples *)

(** From a world satisfying [P], a run of [m] returns [a] in a world
    satisfying [Q a], or throws in a world satisfying [E].  [keeps P m] is
    the triple whose three conditions are [P]; triples carry a loop
    invariant that depends on the loop's accumulator. *)
Definition triple {A} (P : World -> Prop) (m : M A) (Q : A -> World -> Prop) (E : World -> Prop) : Prop :=
  forall w, P w -> match m w with (Done a, w') => Q a w' | (Thrown, w') => E w' end.

Section Triples.
Context (E : World -> Prop).

Lemma triple_ret {A} (P : World -> Prop) (Q : A -> World -> Prop) a :
  (forall w, P w -> Q a w) -> triple P (ret a) Q E.
Proof. intros H w. apply H. Qed.

Lemma triple_bind {A B} P (R : A -> World -> Prop) Q (m : M A) (k : A -> M B) :
  triple P m R E -> (forall a, triple (R a) (k a) Q E) -> triple P (bind m k) Q E.
Proof.
  intros Hm Hk w Hw. unfold bind. specialize (Hm w Hw).
  destruct (m w) as [[a|] w']; [by apply Hk|done].
Qed.

(** A step that keeps the precondition, followed by the rest. *)
Lemma triple_seq_keeps {A B} (P : World -> Prop) (m : M A) (k : A -> M B) Q :
  keeps P m -> (forall w, P w -> E w) -> (forall a, triple P (k a) Q E) -> triple P (bind m k) Q E.
Proof.
  intros Hm HE Hk w Hw. unfold bind. specialize (Hm w Hw).
  destruct (m w) as [[a|] w']; [by apply Hk|by apply HE].
Qed.

(** A step that keeps the precondition. *)
Lemma triple_keeps {A} (P : World -> Prop) (m : M A) :
  keeps P m -> (forall w, P w -> E w) -> triple P m (λ _, P) E.
Proof. intros Hm HE w Hw. specialize (Hm w Hw). destruct (m w) as [[a|] w']; [done|by apply HE]. Qed.

Lemma triple_consequence {A} (P P' : World -> Prop) (m : M A) (Q Q' : A -> World -> Prop) :
  (forall w, P w -> P' w) -> triple P' m Q' E -> (forall a w, Q' a w -> Q a w) -> triple P m Q E.
Proof.
  intros HP Hm HQ w Hw. specialize (Hm w (HP w Hw)). destruct (m w) as [[a|] w']; [by apply HQ|done].
Qed.

(** Binding the result of a scan, knowing what the prober answered. *)
Lemma triple_bind_mscan {A} (P : World -> Prop) prober path verbose (k : ScanResult -> M A) Q :
  log_blind P -> (forall w, P w -> E w) ->
  (forall r, scan prober path verbose = Some r -> triple P (k r) Q E) ->
  triple P (bind (mscan prober path verbose) k) Q E.
Proof.
  intros HP HE Hk w Hw. unfold mscan, bind, log.
  destruct (scan prober path verbose) as [r|] eqn:Hs; simpl; [|by apply HE, HP].
  apply (Hk r eq_refl). by apply HP.
Qed.

(** A loop whose steps carry the invariant [I] of the accumulator. *)
Lemma triple_mfold {A B} (I : A -> World -> Prop) (f : A -> B -> M A) acc l :
  (forall acc x, x ∈ l -> triple (I acc) (f acc x) I E) -> triple (I acc) (mfold f acc l) I E.
Proof.
  revert acc. induction l as [|x l IH]; intros acc Hf; simpl; [by apply triple_ret|].
  apply triple_bind with I; [apply Hf; by left|]. intros a. apply IH. intros acc' y Hy. apply Hf. by right.
Qed.
End Triples.

(** The world a run ends in, whether it returns or throws. *)
Lemma triple_run {A} (P R : World -> Prop) (m : M A) Q E w :
  triple P m Q E -> (forall a w', Q a w' -> R w') -> (forall w', E w' -> R w') -> P w -> R (m w).2.
Proof.
  intros Hm HQ HE Hw. specialize (Hm w Hw). destruct (m w) as [[a|] w']; simpl; [by eapply HQ|by apply HE].
Qed.
