(* ===== verification/BatchImport.v ===== *)
(** * Batch Import Reconciler: [scanAudioFiles]

    Source: src/server/utils/audioFileScanner.js, lines 125-230.  The loop
    over [newAudioFiles] is [mfold import_file]: one step per file, with
    [continue] returning the loop state unchanged except for its counters.
    The loop state holds the local [tracks] array (references to the audio
    files the loop accepted) and the two counters.  [finish_import] is the
    code after the loop.

    The abstract assignment [plan] states what the import computes without
    the heap: the candidate index of each file, the candidates that claim a
    new index in file order, and the committed indices (sorted, shifted when
    the first one is 0).  [scanAudioFiles_refines] is the refinement: the
    tracks the code appends carry exactly the planned indices.  Its
    corollaries on integer candidates give the order independence, the
    strictly increasing indices of a batch in range, and, as general
    theorems, the two ways the code breaks the spec's promises on indices:
    a negative candidate lets index 0 through the zero-based correction,
    and the duplicate check ignores the tracks the audiobook already has.
    [import_file_duplicate] is the duplicate rule of one loop step. *)

From S2P Require Import Prelude JsNumber JsString StableSort Normalizer Resolver Aggregate MonadLogic.

Local Open Scope string_scope.
Local Open Scope js_scope.

(** The locals of the loop: [tracks], [numDuplicateTracks],
    [numInvalidTracks]. *)
Record LoopState := {
  ls_tracks : list loc;
  ls_numDuplicateTracks : nat;
  ls_numInvalidTracks : nat
}.

Definition init_state : LoopState := Build_LoopState [] 0 0.

(** Lines 171-174: the candidate index of a file of a batch of [total]
    files ([None] is [null]). *)
Definition track_candidate (total : nat) (tn : TrackNums) : option jsnum :=
  if (1 <? total)%nat then
    if isNumber (tn_fromMeta tn) then tn_fromMeta tn else tn_fromFilename tn
  else Some (js_int 1).

(** [t.index] of the audio file at [t]. *)
Definition index_of (h : gmap loc AudioFile) (t : loc) : option jsnum := h !! t ≫= af_index.

(** Line 183: [tracks.find(t => t.index === trackNumber)]. *)
Definition find_track_with_index (h : gmap loc AudioFile) (tracks : list loc) (x : jsnum) : option loc :=
  find_first (λ t, match index_of h t with Some i => num_strict_eq i x | None => false end) tracks.

Definition add_invalid (st : LoopState) : LoopState :=
  Build_LoopState (ls_tracks st) (ls_numDuplicateTracks st) (S (ls_numInvalidTracks st)).

Definition add_duplicate (st : LoopState) : LoopState :=
  Build_LoopState (ls_tracks st) (S (ls_numDuplicateTracks st)) (ls_numInvalidTracks st).

Definition push_track (l : loc) (st : LoopState) : LoopState :=
  Build_LoopState (ls_tracks st ++ [l]) (ls_numDuplicateTracks st) (ls_numInvalidTracks st).

Section Batch.
Context (prober : string -> bool -> ProbeOutcome).

(** Lines 138-192: one iteration of the loop. *)
Definition import_file (total : nat) (st : LoopState) (nf : NewFile) : M LoopState :=
  let* scanData := mscan prober (nf_fullPath nf) false in
  if scan_failed scanData then
    log LError (MsgScanFailed (nf_path nf)) ;;; ret st
  else
    let* ab := get_ab in
    let tn := resolve_track_numbers (book_ctx ab) (nf_filename nf) scanData in
    let* l := addAudioFile nf scanData tn in
    match track_candidate total tn with
    | None =>
        log LDebug (MsgInvalidTrackNumber (nf_filename nf)) ;;;
        modify_file l (mark_invalid "Failed to get track number") ;;;
        ret (add_invalid st)
    | Some trackNumber =>
        let* w := get_world in
        match find_track_with_index (w_heap w) (ls_tracks st) trackNumber with
        | Some _ =>
            modify_file l (mark_invalid "Duplicate track number") ;;;
            ret (add_duplicate st)
        | None =>
            modify_file l (with_index (Some trackNumber)) ;;;
            ret (push_track l st)
        end
    end.
End Batch.

(** Line 207: [(a, b) => a.index - b.index] on the local [tracks]. *)
Definition track_cmp (h : gmap loc AudioFile) (a b : loc) : comparison :=
  num_cmp (num_of_opt (index_of h a)) (num_of_opt (index_of h b)).

(** Lines 210-211: the number an audio file is ordered by. *)
Definition file_sort_num (af : AudioFile) : jsnum :=
  if isNumber (af_trackNumFromMeta af) then num_of_opt (af_trackNumFromMeta af)
  else if isNumber (af_trackNumFromFilename af) then num_of_opt (af_trackNumFromFilename af)
  else js_int 0.

(** Lines 209-213. *)
Definition file_cmp (h : gmap loc AudioFile) (a b : loc) : comparison :=
  num_cmp (default (js_int 0) (file_sort_num <$> h !! a)) (default (js_int 0) (file_sort_num <$> h !! b)).

(** Line 228: [(a, b) => a.index - b.index] on [audiobook.tracks]. *)
Definition audio_track_cmp (a b : AudioTrack) : comparison :=
  num_cmp (num_of_opt (tr_index a)) (num_of_opt (tr_index b)).

(** Line 218: [t.index += 1]. *)
Definition bump_index (af : AudioFile) : AudioFile :=
  with_index (Some (js_add (num_of_opt (af_index af)) (js_int 1))) af.

(** Lines 216-221: the zero-based correction. *)
Definition shift_if_zero (tracks : list loc) : M unit :=
  let* w := get_world in
  match tracks with
  | t0 :: _ =>
      if num_strict_eq (num_of_opt (index_of (w_heap w) t0)) (js_int 0)
      then mfold (λ _ t, modify_file t bump_index) tt tracks
      else ret tt
  | [] => ret tt
  end.

(** Lines 195-229: the code after the loop. *)
Definition finish_import (st : LoopState) : M unit :=
  let* ab := get_ab in
  match ls_tracks st with
  | [] => log LWarn (MsgNoTracks (ab_id ab))
  | _ =>
      (if (0 <? ls_numDuplicateTracks st)%nat
       then log LWarn (MsgDuplicateTracks (ls_numDuplicateTracks st) (ab_title ab)) else ret tt) ;;;
      (if (0 <? ls_numInvalidTracks st)%nat
       then log LError (MsgInvalidTracks (ls_numDuplicateTracks st) (ab_title ab)) else ret tt) ;;;
      let* w := get_world in
      let tracks := js_sort (track_cmp (w_heap w)) (ls_tracks st) in
      modify_ab (λ ab, with_audioFiles (js_sort (file_cmp (w_heap w)) (ab_audioFiles ab)) ab) ;;;
      shift_if_zero tracks ;;;
      let* ab := get_ab in
      let hasTracksAlready := negb (length (ab_tracks ab) =? 0)%nat in
      mfold (λ _ t, addTrack t) tt tracks ;;;
      if hasTracksAlready
      then modify_ab (λ ab, with_tracks (js_sort audio_track_cmp (ab_tracks ab)) ab)
      else ret tt
  end.

(** Lines 125-230: [scanAudioFiles(audiobook, newAudioFiles)]; [None] is a
    [null] or [undefined] argument. *)
Definition scanAudioFiles (prober : string -> bool -> ProbeOutcome)
    (newAudioFiles : option (list NewFile)) : M unit :=
  let* ab := get_ab in
  match newAudioFiles with
  | None | Some [] => log LError (MsgNoNewFiles (ab_title ab))
  | Some nfs =>
      log LDebug MsgScanningAudioFiles ;;;
      let* st := mfold (import_file prober (length nfs)) init_state nfs in
      finish_import st
  end.

(** ** The abstract index assignment *)

(** What the loop makes of one file. *)
Inductive FilePlan :=
| PSkipped              (* the scan failed: [continue] before [addAudioFile] *)
| PNoNumber             (* no candidate: 'Failed to get track number' *)
| PIndex (x : jsnum).   (* the candidate index *)

(** The plan of one file of a batch of [total] files. *)
Definition plan_file (prober : string -> bool -> ProbeOutcome) (book : BookCtx) (total : nat)
    (nf : NewFile) : FilePlan :=
  match scan prober (nf_fullPath nf) false with
  | Some r =>
      if scan_failed r then PSkipped
      else match track_candidate total (resolve_track_numbers book (nf_filename nf) r) with
           | Some x => PIndex x
           | None => PNoNumber
           end
  | None => PSkipped
  end.

(** The indices claimed so far, in file order, and the two counts. *)
Record PlanState := {
  ps_claimed : list jsnum;
  ps_dup : nat;
  ps_inv : nat
}.

Definition claim_step (ps : PlanState) (p : FilePlan) : PlanState :=
  match p with
  | PSkipped => ps
  | PNoNumber => Build_PlanState (ps_claimed ps) (ps_dup ps) (S (ps_inv ps))
  | PIndex x =>
      if existsb (λ y, num_strict_eq y x) (ps_claimed ps)
      then Build_PlanState (ps_claimed ps) (S (ps_dup ps)) (ps_inv ps)
      else Build_PlanState (ps_claimed ps ++ [x]) (ps_dup ps) (ps_inv ps)
  end.

Definition plan_batch (plans : list FilePlan) : PlanState :=
  foldl claim_step (Build_PlanState [] 0 0) plans.

(** The zero-based correction on the sorted indices. *)
Definition shift_zero (xs : list jsnum) : list jsnum :=
  match xs with
  | x0 :: _ => if num_strict_eq x0 (js_int 0) then map (λ x, js_add x (js_int 1)) xs else xs
  | [] => []
  end.

(** The indices of the tracks a batch commits, in the order they are added. *)
Definition committed_indices (plans : list FilePlan) : list jsnum :=
  shift_zero (js_sort num_cmp (ps_claimed (plan_batch plans))).

Definition opt_num_cmp (a b : option jsnum) : comparison := num_cmp (num_of_opt a) (num_of_opt b).

(** The indices of [audiobook.tracks] after a batch that commits [new]
    onto tracks with indices [old]. *)
Definition planned_track_indices (old : list (option jsnum)) (new : list jsnum) : list (option jsnum) :=
  if bool_decide (new = []) then old
  else if bool_decide (old = []) then map Some new
  else js_sort opt_num_cmp (old ++ map Some new).

(** Every address at or above [w_next] is free. *)
Definition heap_fresh (w : World) : Prop := forall l, w_next w <= l -> w_heap w !! l = None.

(** The prober answers (possibly with [null]) on the file. *)
Definition no_reject (prober : string -> bool -> ProbeOutcome) (nf : NewFile) : Prop :=
  is_Some (scan prober (nf_fullPath nf) false).

(** The messages logged after the loop (lines 195-205). *)
Definition finish_log (ps : PlanState) (id : string) (title : option string) : list (LogLevel * LogMsg) :=
  match ps_claimed ps with
  | [] => [(LWarn, MsgNoTracks id)]
  | _ => (if (0 <? ps_dup ps)%nat then [(LWarn, MsgDuplicateTracks (ps_dup ps) title)] else []) ++
         (if (0 <? ps_inv ps)%nat then [(LError, MsgInvalidTracks (ps_dup ps) title)] else [])
  end.

(** A candidate index, if any, is an integer [z] with [Q z]. *)
Definition cand_in (Q : Z -> Prop) (p : FilePlan) : Prop :=
  match p with
  | PIndex x => exists z, x = js_int z /\ Q z
  | _ => True
  end.

(** A candidate index that is an integer below 2^53 - 1, so that [=== ]
    and [+ 1] on it are exact, and that is not negative. *)
Definition index_in_range : FilePlan -> Prop := cand_in (λ z, 0 <= z < 2 ^ 53 - 1)%Z.

(** The zero-based correction on integers. *)
Definition shift_zero_Z (zs : list Z) : list Z :=
  match zs with
  | z0 :: _ => if (z0 =? 0)%Z then map Z.succ zs else zs
  | [] => []
  end.

Local Close Scope string_scope.

(** * Properties *)

(** ** The loop *)

(** The loop invariant: the local [tracks] array refers to distinct,
    allocated audio files whose indices are the claimed ones, and the
    counters are the planned ones. *)
Definition batch_inv (ab0 : Audiobook) (w : World) (st : LoopState) (ps : PlanState) : Prop :=
  map (index_of (w_heap w)) (ls_tracks st) = map Some (ps_claimed ps) /\
  NoDup (ls_tracks st) /\ Forall (λ l, l < w_next w) (ls_tracks st) /\ heap_fresh w /\
  ls_numDuplicateTracks st = ps_dup ps /\ ls_numInvalidTracks st = ps_inv ps /\
  ab_id (w_ab w) = ab_id ab0 /\ ab_title (w_ab w) = ab_title ab0 /\
  ab_book (w_ab w) = ab_book ab0 /\ ab_tracks (w_ab w) = ab_tracks ab0.

(** ** Heap and array lemmas *)

Lemma index_of_frame (h h' : gmap loc AudioFile) ts :
  (forall t, t ∈ ts -> h' !! t = h !! t) -> map (index_of h') ts = map (index_of h) ts.
Proof.
  intros H. apply map_ext_in. intros t Ht. unfold index_of. rewrite H; [done|].
  by apply list_elem_of_In.
Qed.

Lemma mfold_modify_file (g : AudioFile -> AudioFile) ts w :
  mfold (λ _ t, modify_file t g) tt ts w = (Done tt, set_heap (foldl (λ h t, alter g t h) (w_heap w) ts) w).
Proof.
  revert w. induction ts as [|t ts IH]; intros w; simpl; [by destruct w|].
  unfold bind at 1. mrun. rewrite IH. mrun. by rewrite set_heap_set_heap.
Qed.

Lemma foldl_alter_notin (g : AudioFile -> AudioFile) ts (h : gmap loc AudioFile) t :
  t ∉ ts -> foldl (λ h t, alter g t h) h ts !! t = h !! t.
Proof.
  revert h. induction ts as [|t' ts IH]; intros h Ht; simpl; [done|].
  apply not_elem_of_cons in Ht as [Hne Ht]. rewrite IH by done. by rewrite lookup_alter_ne.
Qed.

Lemma index_of_bump_all h ts ys :
  NoDup ts -> map (index_of h) ts = map Some ys ->
  map (index_of (foldl (λ h t, alter bump_index t h) h ts)) ts = map Some (map (λ x, js_add x (js_int 1)) ys).
Proof.
  revert h ys. induction ts as [|t ts IH]; intros h [|y ys] Hnd Hidx; simpl in *; try done.
  apply NoDup_cons in Hnd as [Ht Hnd]. injection Hidx as H0 Hidx. f_equal.
  - unfold index_of in *. rewrite foldl_alter_notin, lookup_alter_eq by done.
    destruct (h !! t) as [af|]; simpl in *; [|done]. by rewrite H0.
  - apply IH; [done|]. rewrite <- Hidx. apply index_of_frame. intros t' Ht'.
    rewrite lookup_alter_ne; [done|]. by intros ->.
Qed.

Lemma mfold_addTrack ts w :
  mfold (λ _ t, addTrack t) tt ts w =
  (Done tt, set_ab (with_tracks (ab_tracks (w_ab w) ++ map track_of_file (omap (λ t, w_heap w !! t) ts)) (w_ab w)) w).
Proof.
  revert w. induction ts as [|t ts IH]; intros w; simpl.
  { rewrite app_nil_r. by destruct w as [h n [] lg]. }
  unfold bind at 1, addTrack. mrun. destruct (w_heap w !! t) as [af|]; mrun; rewrite IH; mrun.
  - rewrite set_ab_set_ab. destruct (w_ab w). simpl. by rewrite <- app_assoc.
  - by destruct w.
Qed.

Lemma track_indices_of_files h ts ys :
  map (index_of h) ts = map Some ys -> map tr_index (map track_of_file (omap (λ t, h !! t) ts)) = map Some ys.
Proof.
  revert ys. induction ts as [|t ts IH]; intros [|y ys] H; simpl in *; try done.
  injection H as H0 H. unfold index_of in H0.
  destruct (h !! t) as [af|]; simpl in *; [|done]. rewrite H0. f_equal. by apply IH.
Qed.

Lemma bind_log_if {A} (c : bool) lvl msg (k : unit -> M A) w :
  bind (if c then log lvl msg else ret tt) k w = k tt (add_log (if c then [(lvl, msg)] else []) w).
Proof. destruct c; [done|]. unfold bind, ret. simpl. destruct w; unfold add_log; simpl. by rewrite app_nil_r. Qed.

Lemma map_index_sorted h ts ys :
  map (index_of h) ts = map Some ys ->
  map (index_of h) (js_sort (track_cmp h) ts) = map Some (js_sort num_cmp ys).
Proof.
  intros H. rewrite (js_sort_map _ opt_num_cmp (index_of h)) by done. rewrite H.
  symmetry. by apply js_sort_map.
Qed.

Lemma shift_if_zero_run ts ys w :
  NoDup ts -> map (index_of (w_heap w)) ts = map Some ys ->
  exists h', shift_if_zero ts w = (Done tt, set_heap h' w) /\ map (index_of h') ts = map Some (shift_zero ys).
Proof.
  intros Hnd Hidx. unfold shift_if_zero. mrun.
  destruct ts as [|t ts], ys as [|y ys]; try done; simpl in Hidx.
  { exists (w_heap w). by rewrite set_heap_id. }
  pose proof Hidx as Hidx0. injection Hidx0 as H0 _. rewrite H0. change (num_of_opt (Some y)) with y. cbn [shift_zero].
  destruct (num_strict_eq y (js_int 0)).
  - rewrite mfold_modify_file. eexists. split; [done|]. by apply index_of_bump_all.
  - exists (w_heap w). rewrite set_heap_id. split; [done|]. simpl. exact Hidx.
Qed.
Lemma shift_zero_length xs : length (shift_zero xs) = length xs.
Proof. destruct xs as [|x xs]; [done|]. unfold shift_zero. destruct (num_strict_eq x (js_int 0)); [apply length_map|done]. Qed.

Lemma finish_import_run ab0 w st ps :
  batch_inv ab0 w st ps ->
  exists w', finish_import st w = (Done tt, w') /\
    map tr_index (ab_tracks (w_ab w')) =
      planned_track_indices (map tr_index (ab_tracks ab0)) (shift_zero (js_sort num_cmp (ps_claimed ps))) /\
    w_log w' = w_log w ++ finish_log ps (ab_id ab0) (ab_title ab0).
Proof.
  intros (Hidx & Hnd & Hlt & Hfr & Hdup & Hinv & Hid & Hti & Hbk & Htr).
  unfold finish_import, finish_log. mrun.
  destruct (ls_tracks st) as [|t ts] eqn:Hts; destruct (ps_claimed ps) as [|y ys] eqn:Hps; try done.
  { eexists. split; [done|]. simpl. rewrite Hid, Htr. done. }
  rewrite !bind_log_if. mrun. rewrite <- Hts, <- Hps. rewrite <- Hts in Hidx, Hnd. rewrite <- Hps in Hidx.
  set (w2 := set_ab _ _).
  assert (Hs : map (index_of (w_heap w2)) (js_sort (track_cmp (w_heap w)) (ls_tracks st)) =
               map Some (js_sort num_cmp (ps_claimed ps))) by (by apply map_index_sorted).
  assert (Hnds : NoDup (js_sort (track_cmp (w_heap w)) (ls_tracks st))) by (by rewrite js_sort_Permutation).
  destruct (shift_if_zero_run _ _ w2 Hnds Hs) as (h' & Hrun & Hidx').
  unfold bind at 1. rewrite Hrun. mrun. unfold bind at 1. rewrite mfold_addTrack. unfold w2. mrun.
  assert (Hne : shift_zero (js_sort num_cmp (ps_claimed ps)) <> []).
  { intros Hnil%(f_equal length). rewrite shift_zero_length, (Permutation_length (js_sort_Permutation _ _)), Hps in Hnil. done. }
  unfold planned_track_indices. rewrite bool_decide_eq_false_2 by done.
  pose proof (track_indices_of_files _ _ _ Hidx') as Hnew. mrun. rewrite Htr.
  destruct (ab_tracks ab0) as [|tr0 old] eqn:Hold; mrun; eexists; (split; [done|]).
  - rewrite bool_decide_eq_true_2 by done. mrun. split; [exact Hnew|].
    rewrite Hdup, Hinv, Hti. by rewrite app_assoc.
  - rewrite bool_decide_eq_false_2 by done. split.
    + mrun. rewrite (js_sort_map _ opt_num_cmp tr_index) by done. by rewrite map_app, Hnew.
    + mrun. rewrite Hdup, Hinv, Hti. by rewrite app_assoc.
Qed.

(** ** One iteration *)

Lemma find_track_with_index_frame h h' ts x :
  (forall t, t ∈ ts -> h' !! t = h !! t) -> find_track_with_index h' ts x = find_track_with_index h ts x.
Proof.
  intros H. unfold find_track_with_index, index_of. induction ts as [|t ts IH]; [done|]. simpl.
  rewrite H by (apply elem_of_cons; by left). rewrite IH; [done|]. intros t' Ht'. apply H, elem_of_cons. by right.
Qed.

Lemma find_track_with_index_None h ts ys x :
  map (index_of h) ts = map Some ys ->
  find_track_with_index h ts x = None <-> existsb (λ y, num_strict_eq y x) ys = false.
Proof.
  revert ys. induction ts as [|t ts IH]; intros [|y ys] H; simpl in *; try done.
  injection H as Ht Hts. unfold find_track_with_index in *. simpl. rewrite Ht.
  destruct (num_strict_eq y x); [done|]. by apply IH.
Qed.

Section LoopProofs.
Context (prober : string -> bool -> ProbeOutcome) (ab0 : Audiobook) (total : nat).

Lemma import_file_step w st ps nf :
  batch_inv ab0 w st ps -> no_reject prober nf ->
  exists st' w', import_file prober total st nf w = (Done st', w') /\
    batch_inv ab0 w' st' (claim_step ps (plan_file prober (book_ctx ab0) total nf)).
Proof.
  intros Hinv [r Hr]. unfold import_file, mscan, plan_file. rewrite Hr.
  mrun.
  destruct (scan_failed r); [by do 2 eexists; split|].
  destruct Hinv as (Hidx & Hnd & Hlt & Hfr & Hdup & Hinv & Hid & Hti & Hbk & Htr).
  mrun.
  assert (Hb : book_ctx (w_ab w) = book_ctx ab0) by (unfold book_ctx; by rewrite Hbk).
  rewrite Hb. set (l := w_next w).
  set (af := Build_AudioFile _ _ _ _ _ _ _ _ _ _ _ _ _).
  assert (Hfr1 : forall t, t ∈ ls_tracks st -> <[l:=af]> (w_heap w) !! t = w_heap w !! t).
  { intros t Ht. rewrite Forall_forall in Hlt. specialize (Hlt t Ht). rewrite lookup_insert_ne; [done|lia]. }
  assert (Hfr2 : forall f t, t ∈ ls_tracks st -> alter f l (<[l:=af]> (w_heap w)) !! t = w_heap w !! t).
  { intros f t Ht. rewrite lookup_alter_ne; [by apply Hfr1|]. rewrite Forall_forall in Hlt. specialize (Hlt t Ht). lia. }
  assert (Hfr3 : forall f l', S l <= l' -> alter f l (<[l:=af]> (w_heap w)) !! l' = None).
  { intros f l' Hl'. rewrite lookup_alter_ne, lookup_insert_ne by lia. apply Hfr. lia. }
  destruct (track_candidate _ _) as [x|] eqn:Hc;
    mrun; cbn [claim_step].
  - destruct (find_track_with_index _ _ x) eqn:Hf;
      mrun.
    + assert (Hex : existsb (λ y, num_strict_eq y x) (ps_claimed ps) = true).
      { apply not_false_iff_true. rewrite <- (find_track_with_index_None (<[l:=af]> (w_heap w)) (ls_tracks st)).
        - by rewrite Hf.
        - rewrite <- Hidx. apply index_of_frame, Hfr1. }
      rewrite Hex. do 2 eexists. split; [done|].
      repeat split; simpl; try done; try lia.
      * rewrite <- Hidx. apply index_of_frame, Hfr2.
      * eapply Forall_impl; [done|]. simpl. lia.
      * intros l' Hl'. by apply Hfr3.
    + assert (Hex : existsb (λ y, num_strict_eq y x) (ps_claimed ps) = false).
      { rewrite <- (find_track_with_index_None (<[l:=af]> (w_heap w)) (ls_tracks st)); [done|].
        rewrite <- Hidx. apply index_of_frame, Hfr1. }
      rewrite Hex. do 2 eexists. split; [done|].
      repeat split; simpl; try done; try lia.
      * rewrite map_app, map_app. f_equal.
        -- rewrite <- Hidx. apply index_of_frame, Hfr2.
        -- simpl. unfold index_of. by rewrite lookup_alter_eq, lookup_insert_eq.
      * apply NoDup_app. split; [done|]. split; [|apply NoDup_singleton].
        intros t Ht ->%list_elem_of_singleton. rewrite Forall_forall in Hlt.
        specialize (Hlt _ Ht). lia.
      * apply Forall_app. split; [eapply Forall_impl; [done|]; simpl; lia|]. constructor; [lia|done].
      * intros l' Hl'. by apply Hfr3.
  - do 2 eexists. split; [done|].
    repeat split; simpl; try done; try lia.
    + rewrite <- Hidx. apply index_of_frame, Hfr2.
    + eapply Forall_impl; [done|]. simpl. lia.
    + intros l' Hl'. by apply Hfr3.
Qed.

Lemma import_loop nfs : forall w st ps,
  batch_inv ab0 w st ps -> Forall (no_reject prober) nfs ->
  exists st' w', mfold (import_file prober total) st nfs w = (Done st', w') /\
    batch_inv ab0 w' st' (foldl claim_step ps (map (plan_file prober (book_ctx ab0) total) nfs)).
Proof.
  induction nfs as [|nf nfs IH]; intros w st ps Hinv Hnr; simpl; [by exists st, w|].
  apply Forall_cons in Hnr as [Hnf Hnr].
  destruct (import_file_step w st ps nf Hinv Hnf) as (st1 & w1 & Hrun & Hinv1).
  unfold bind. rewrite Hrun. by apply IH.
Qed.
End LoopProofs.

(** ** The whole import *)

Lemma batch_inv_init ab0 w :
  heap_fresh w -> w_ab w = ab0 -> batch_inv ab0 w init_state (Build_PlanState [] 0 0).
Proof. intros Hfr <-. repeat split; try done; constructor. Qed.

(** A batch whose files all reach the prober runs to completion, commits
    the planned indices, and logs the planned summary. *)
Lemma scanAudioFiles_run prober nfs w :
  heap_fresh w -> nfs <> [] -> Forall (no_reject prober) nfs ->
  let plans := map (plan_file prober (book_ctx (w_ab w)) (length nfs)) nfs in
  exists wl w', scanAudioFiles prober (Some nfs) w = (Done tt, w') /\
    map tr_index (ab_tracks (w_ab w')) =
      planned_track_indices (map tr_index (ab_tracks (w_ab w))) (committed_indices plans) /\
    w_log w' = wl ++ finish_log (plan_batch plans) (ab_id (w_ab w)) (ab_title (w_ab w)).
Proof.
  intros Hfr Hne Hnr plans. unfold scanAudioFiles. cbn [bind get_ab].
  destruct nfs as [|nf nfs']; [done|]. set (nfs := nf :: nfs') in *. cbn [bind log].
  assert (Hinv0 : batch_inv (w_ab w) (add_log [(LDebug, MsgScanningAudioFiles)] w) init_state
                    (Build_PlanState [] 0 0)) by (apply batch_inv_init; [apply Hfr|done]).
  destruct (import_loop prober (w_ab w) (length nfs) nfs _ _ _ Hinv0 Hnr) as (st & w1 & Hloop & Hinv1).
  unfold bind at 1. rewrite Hloop. destruct (finish_import_run _ _ _ _ Hinv1) as (w2 & Hfin & Htr & Hlog).
  exists (w_log w1), w2. by rewrite Hfin.
Qed.

(** ** Committed indices of integer candidates *)

(** ** Committed indices of integer candidates *)

Section IntIndices.
Local Open Scope Z_scope.

Lemma num_cmp_js_int a b :
  Z.abs a <= 2 ^ 53 -> Z.abs b <= 2 ^ 53 -> num_cmp (js_int a) (js_int b) = Z.compare a b.
Proof.
  intros Ha Hb. unfold num_cmp.
  by rewrite (js_sub_sign _ _ (XFin a) (XFin b)) by (by apply js_int_exact).
Qed.

Lemma js_int_succ a : Z.abs a < 2 ^ 53 -> js_add (js_int a) (js_int 1) = js_int (Z.succ a).
Proof.
  intros Ha. rewrite (js_add_int _ _ a 1); [by rewrite Z.add_1_r| |]; apply js_int_exact; lia.
Qed.

Lemma sort_Z_strict zs : NoDup zs -> StronglySorted Z.lt (js_sort Z.compare zs).
Proof.
  intros Hnd.
  assert (Hs : Sorted (key_le XFin) (js_sort Z.compare zs)) by (by apply js_sort_Sorted).
  assert (Hnd' : NoDup (js_sort Z.compare zs)) by (by rewrite js_sort_Permutation).
  apply Sorted_StronglySorted in Hs; [|intros x y z; apply xint_le_trans].
  induction Hs as [|a l Hs IH Hall]; constructor; apply NoDup_cons in Hnd' as [Ha Hl]; [by apply IH|].
  rewrite Forall_forall in Hall |- *. intros y Hy. specialize (Hall y Hy).
  unfold key_le, xint_le in Hall. simpl in Hall. apply Z.compare_le_iff in Hall.
  pose proof (proj1 (Z.compare_le_iff a y) Hall). assert (a <> y) by (intros ->; contradiction). lia.
Qed.

Lemma StronglySorted_succ l : StronglySorted Z.lt l -> StronglySorted Z.lt (map Z.succ l).
Proof.
  induction 1 as [|a l Hs IH Hall]; simpl; constructor; [done|].
  apply Forall_map. eapply Forall_impl; [done|]. simpl. lia.
Qed.

Lemma shift_zero_Z_spec zs :
  StronglySorted Z.lt zs -> Forall (λ z, 0 <= z) zs ->
  StronglySorted Z.lt (shift_zero_Z zs) /\ Forall (λ z, 0 < z) (shift_zero_Z zs).
Proof.
  intros Hs Hnn. destruct zs as [|z zs]; [done|]. unfold shift_zero_Z.
  destruct (Z.eqb_spec z 0) as [->|Hne].
  - split; [by apply StronglySorted_succ|]. apply Forall_map. eapply Forall_impl; [done|]. simpl. lia.
  - split; [done|]. apply StronglySorted_inv in Hs as [_ Hall].
    apply Forall_cons in Hnn as [Hz _]. constructor; [lia|].
    eapply Forall_impl; [done|]. simpl. lia.
Qed.

(** A zero-based correction does not apply when the sorted list has a
    negative element or no 0. *)
Lemma shift_zero_Z_noop zs :
  StronglySorted Z.lt zs -> (exists z, z ∈ zs /\ z < 0) \/ 0 ∉ zs -> shift_zero_Z zs = zs.
Proof.
  intros Hs Hz. destruct zs as [|h t]; [done|]. unfold shift_zero_Z.
  destruct (Z.eqb_spec h 0) as [->|]; [exfalso|done].
  destruct Hz as [(z & [->|Hz]%elem_of_cons & Hneg)|Hn]; [lia| |by apply Hn, elem_of_cons; left].
  apply StronglySorted_inv in Hs as [_ Hall]. eapply Forall_forall in Hall; [|done]. lia.
Qed.

Lemma js_int_inj a b : Z.abs a <= 2 ^ 53 -> Z.abs b <= 2 ^ 53 -> js_int a = js_int b -> a = b.
Proof.
  intros Ha Hb Heq. apply (bool_decide_eq_true_1 (a = b)).
  rewrite <- js_int_strict_eq by done. rewrite Heq, js_int_strict_eq by done. by apply bool_decide_eq_true_2.
Qed.

(** ** Integer candidates in a range [Q] where [===] and [+ 1] are exact *)

Section Candidates.
Context (Q : Z -> Prop) (HQ : forall z, Q z -> Z.abs z < 2 ^ 53 - 1).

Lemma claimed_ints plans : Forall (cand_in Q) plans ->
  forall ps zs, ps_claimed ps = map js_int zs -> NoDup zs -> Forall Q zs ->
  exists zs', ps_claimed (foldl claim_step ps plans) = map js_int zs' /\ NoDup zs' /\ Forall Q zs'.
Proof.
  induction 1 as [|p plans Hp Hplans IH]; intros ps zs Hcl Hnd Hr; simpl; [by exists zs|].
  destruct p as [| |x]; simpl; [by apply IH with zs|by apply IH with zs|].
  destruct Hp as (z & -> & Hz). pose proof (HQ z Hz).
  destruct (existsb _ _) eqn:He; [by apply IH with zs|].
  apply IH with (zs ++ [z]); simpl.
  - by rewrite Hcl, map_app.
  - apply NoDup_app. split; [done|]. split; [|apply NoDup_singleton].
    intros y Hy ->%list_elem_of_singleton. apply not_true_iff_false in He. apply He.
    apply existsb_exists. exists (js_int z). split; [rewrite Hcl; apply in_map; by apply list_elem_of_In|].
    rewrite js_int_strict_eq by lia. by apply bool_decide_eq_true_2.
  - apply Forall_app. split; [done|]. by constructor.
Qed.

Lemma sort_ints zs : Forall Q zs ->
  js_sort num_cmp (map js_int zs) = map js_int (js_sort Z.compare zs).
Proof.
  intros H. symmetry. apply js_sort_map_in. intros x y Hx Hy. rewrite Forall_forall in H.
  pose proof (HQ x (H x Hx)). pose proof (HQ y (H y Hy)). rewrite num_cmp_js_int; [done|lia|lia].
Qed.

Lemma map_js_int_succ zs : Forall Q zs ->
  map (λ x, js_add x (js_int 1)) (map js_int zs) = map js_int (map Z.succ zs).
Proof.
  induction 1 as [|z zs Hz _ IH]; [done|]. simpl. pose proof (HQ z Hz). rewrite IH, js_int_succ; [done|lia].
Qed.

Lemma shift_zero_ints zs : Forall Q zs ->
  shift_zero (map js_int zs) = map js_int (shift_zero_Z zs).
Proof.
  destruct zs as [|z zs]; intros H; [done|].
  rewrite map_cons. unfold shift_zero. rewrite <- map_cons. unfold shift_zero_Z.
  rewrite (js_int_strict_eq z 0) by (apply Forall_cons in H as [Hz _]; pose proof (HQ z Hz); lia).
  destruct (Z.eqb_spec z 0) as [->|Hne].
  - rewrite bool_decide_eq_true_2 by done. by apply map_js_int_succ.
  - by rewrite bool_decide_eq_false_2.
Qed.

(** On integer candidates, an index is claimed exactly when some file of
    the batch has it as candidate: the claimed list is the batch's
    candidates without repetition. *)
Lemma claimed_elem plans : Forall (cand_in Q) plans ->
  forall ps, Forall (λ x, exists z, x = js_int z /\ Q z) (ps_claimed ps) ->
  forall x, x ∈ ps_claimed (foldl claim_step ps plans) <-> x ∈ ps_claimed ps \/ PIndex x ∈ plans.
Proof.
  induction 1 as [|p plans Hp Hplans IH]; intros ps Hcl x; simpl.
  { rewrite elem_of_nil. tauto. }
  rewrite elem_of_cons.
  destruct p as [| |y]; simpl.
  - rewrite IH by done. naive_solver.
  - rewrite IH by done. naive_solver.
  - destruct Hp as (z & -> & Hz). pose proof (HQ z Hz). destruct (existsb _ _) eqn:He; rewrite IH.
    + split; [naive_solver|]. intros [?|[[= Hx]|?]]; [tauto| |tauto]. subst x. left.
      apply existsb_exists in He as (y & Hy%list_elem_of_In & Heq).
      rewrite Forall_forall in Hcl. destruct (Hcl y Hy) as (z' & -> & Hz'). pose proof (HQ z' Hz').
      rewrite js_int_strict_eq in Heq by lia. apply bool_decide_eq_true_1 in Heq as ->. done.
    + done.
    + simpl. rewrite elem_of_app, list_elem_of_singleton. naive_solver.
    + apply Forall_app. split; [done|]. constructor; [by exists z|done].
Qed.

(** The indices a batch claims, as integers: without repetition, in [Q],
    and exactly the candidates of the batch. *)
Lemma claimed_Z plans : Forall (cand_in Q) plans ->
  exists zs, ps_claimed (plan_batch plans) = map js_int zs /\ NoDup zs /\ Forall Q zs /\
    forall x, js_int x ∈ map js_int zs <-> PIndex (js_int x) ∈ plans.
Proof.
  intros Hr. destruct (claimed_ints plans Hr (Build_PlanState [] 0 0) [] eq_refl (NoDup_nil_2) (Forall_nil_2 _))
    as (zs & Hcl & Hnd & Hzs).
  exists zs. split_and!; [done..|]. intros x.
  pose proof (claimed_elem _ Hr (Build_PlanState [] 0 0) (Forall_nil_2 _) (js_int x)) as Hel.
  unfold plan_batch in Hcl. rewrite Hcl in Hel. simpl in Hel. rewrite elem_of_nil in Hel. tauto.
Qed.

Lemma elem_map_js_int zs z : Forall Q zs -> Q z -> js_int z ∈ map js_int zs <-> z ∈ zs.
Proof.
  intros Hzs Hz. split; [|intros; by apply list_elem_of_In, in_map, list_elem_of_In].
  intros Hin. apply list_elem_of_In, in_map_iff in Hin as (z' & Heq & Hz'%list_elem_of_In).
  rewrite Forall_forall in Hzs. pose proof (HQ z Hz). pose proof (HQ z' (Hzs z' Hz')).
  apply js_int_inj in Heq; [by subst|lia|lia].
Qed.

(** The committed indices of integer candidates: the claimed integers,
    strictly sorted, with the zero-based correction on integers. *)
Lemma committed_Z plans : Forall (cand_in Q) plans ->
  exists zs, committed_indices plans = map js_int (shift_zero_Z (js_sort Z.compare zs)) /\
    StronglySorted Z.lt (js_sort Z.compare zs) /\ NoDup zs /\ Forall Q zs /\
    forall z, Q z -> z ∈ zs <-> PIndex (js_int z) ∈ plans.
Proof.
  intros Hr. destruct (claimed_Z plans Hr) as (zs & Hcl & Hnd & Hzs & Hmem).
  assert (Hzs' : Forall Q (js_sort Z.compare zs)) by (by rewrite js_sort_Permutation).
  exists zs. unfold committed_indices. rewrite Hcl, sort_ints, shift_zero_ints by done.
  split_and!; [done|by apply sort_Z_strict|done|done|]. intros z Hz. by rewrite <- Hmem, elem_map_js_int.
Qed.
End Candidates.

Lemma range_bound z : 0 <= z < 2 ^ 53 - 1 -> Z.abs z < 2 ^ 53 - 1.
Proof. lia. Qed.

Lemma committed_ints plans : Forall index_in_range plans ->
  exists zs, committed_indices plans = map js_int zs /\ StronglySorted Z.lt zs /\ Forall (λ z, 0 < z) zs.
Proof.
  intros Hr. destruct (committed_Z _ range_bound plans Hr) as (zs & -> & Hs & _ & Hzs & _).
  exists (shift_zero_Z (js_sort Z.compare zs)). split; [done|].
  apply shift_zero_Z_spec; [done|]. rewrite js_sort_Permutation. eapply Forall_impl; [done|]. simpl. lia.
Qed.

(** The candidates of two orderings of a batch, when they are integers,
    are committed with the same indices. *)
Lemma committed_perm plans plans' : plans' ≡ₚ plans -> Forall index_in_range plans ->
  committed_indices plans' = committed_indices plans.
Proof.
  intros Hp Hr. assert (Hr' : Forall index_in_range plans') by (by rewrite Hp).
  destruct (committed_Z _ range_bound plans Hr) as (zs & Hc & _ & Hnd & Hzs & Hmem).
  destruct (committed_Z _ range_bound plans' Hr') as (zs' & Hc' & _ & Hnd' & Hzs' & Hmem').
  assert (Hperm : zs' ≡ₚ zs).
  { apply NoDup_Permutation; [done|done|]. intros z. rewrite Forall_forall in Hzs, Hzs'.
    split; intros Hin.
    - apply Hmem; [by apply Hzs'|]. rewrite <- Hp. by apply Hmem'; [apply Hzs'|].
    - apply Hmem'; [by apply Hzs|]. rewrite Hp. by apply Hmem; [apply Hzs|]. }
  assert (Hsort : js_sort Z.compare zs' = js_sort Z.compare zs).
  { apply StronglySorted_unique_strong with (R := Z.lt); [intros; lia|by apply sort_Z_strict..|].
    by rewrite !js_sort_Permutation. }
  by rewrite Hc, Hc', Hsort.
Qed.

(** C6. The order of [newAudioFiles] does not change the committed track
    indices when every candidate is an integer from 0 to 2^53 - 2: which
    file of a duplicate pair is committed depends on the order, the
    indices do not (spec sections 5 and 8). *)
Theorem batch_order_independent prober nfs nfs' w :
  heap_fresh w -> nfs <> [] -> nfs' ≡ₚ nfs -> Forall (no_reject prober) nfs ->
  Forall index_in_range (map (plan_file prober (book_ctx (w_ab w)) (length nfs)) nfs) ->
  map tr_index (ab_tracks (w_ab (scanAudioFiles prober (Some nfs') w).2)) =
  map tr_index (ab_tracks (w_ab (scanAudioFiles prober (Some nfs) w).2)).
Proof.
  intros Hfr Hne Hp Hnr Hr.
  assert (Hne' : nfs' <> []) by (intros ->; by apply Hne, Permutation_nil).
  destruct (scanAudioFiles_run prober nfs w Hfr Hne Hnr) as (wl & w1 & -> & Ht1 & _).
  destruct (scanAudioFiles_run prober nfs' w Hfr Hne' ltac:(by rewrite Hp)) as (wl' & w2 & -> & Ht2 & _).
  cbn [snd]. rewrite Ht1, Ht2, (Permutation_length Hp). f_equal.
  apply committed_perm; [|done]. by apply Permutation_map.
Qed.

(** C2. When every candidate index is an integer from 0 to 2^53 - 2, the
    tracks an import commits into an audiobook without tracks carry indices
    that are strictly increasing (so pairwise distinct) and positive. *)
Theorem batch_commits_increasing prober nfs w :
  heap_fresh w -> nfs <> [] -> Forall (no_reject prober) nfs -> ab_tracks (w_ab w) = [] ->
  Forall index_in_range (map (plan_file prober (book_ctx (w_ab w)) (length nfs)) nfs) ->
  exists zs, map tr_index (ab_tracks (w_ab (snd (scanAudioFiles prober (Some nfs) w)))) =
           map (λ z, Some (js_int z)) zs /\ StronglySorted Z.lt zs /\ Forall (λ z, 0 < z) zs.
Proof.
  intros Hfr Hne Hnr Hold Hr.
  destruct (scanAudioFiles_run prober nfs w Hfr Hne Hnr) as (wl & w' & Hrun & Htr & _).
  destruct (committed_ints _ Hr) as (zs & Hc & Hs & Hpos). exists zs.
  rewrite Hrun. simpl snd. rewrite Htr, Hold, Hc. unfold planned_track_indices.
  split; [|done]. rewrite map_map. simpl.
  destruct (bool_decide _) eqn:E; [|done]. apply bool_decide_eq_true in E.
  by apply map_eq_nil in E as ->.
Qed.
(** C9. The zero-based correction tests only the first sorted index
    (line 216): when a batch has a negative candidate and the candidate 0,
    the correction is skipped and a track with index 0 is committed, while
    the spec promises that no zero-based track list is persisted. *)
Theorem negative_candidate_commits_zero prober nfs w z :
  heap_fresh w -> nfs <> [] -> Forall (no_reject prober) nfs -> ab_tracks (w_ab w) = [] ->
  Forall (cand_in (λ z, Z.abs z < 2 ^ 53 - 1)) (map (plan_file prober (book_ctx (w_ab w)) (length nfs)) nfs) ->
  - (2 ^ 53 - 1) < z < 0 ->
  PIndex (js_int z) ∈ map (plan_file prober (book_ctx (w_ab w)) (length nfs)) nfs ->
  PIndex (js_int 0) ∈ map (plan_file prober (book_ctx (w_ab w)) (length nfs)) nfs ->
  Some (js_int 0) ∈ map tr_index (ab_tracks (w_ab (scanAudioFiles prober (Some nfs) w).2)).
Proof.
  intros Hfr Hne Hnr Hold Hr Hz Hneg H0.
  destruct (scanAudioFiles_run prober nfs w Hfr Hne Hnr) as (wl & w' & Hrun & Htr & _).
  rewrite Hrun. simpl snd. rewrite Htr, Hold.
  destruct (committed_Z _ (λ z Hz, Hz) _ Hr) as (zs & -> & Hs & _ & _ & Hmem).
  assert (Hz0 : 0 ∈ js_sort Z.compare zs) by (rewrite js_sort_Permutation; apply Hmem; [lia|done]).
  assert (Hzn : z ∈ js_sort Z.compare zs) by (rewrite js_sort_Permutation; apply Hmem; [lia|done]).
  rewrite shift_zero_Z_noop by (done || (left; exists z; split; [done|lia])).
  unfold planned_track_indices. rewrite bool_decide_eq_false_2, bool_decide_eq_true_2 by
    (done || (intros E%map_eq_nil; rewrite E in Hz0; by apply elem_of_nil in Hz0)).
  rewrite map_map. apply list_elem_of_In, in_map_iff. exists 0. split; [done|]. by apply list_elem_of_In.
Qed.

(** C10. The duplicate check of an import looks only at the files of the
    batch (line 183), not at the tracks the audiobook already has: when a
    batch without the candidate 0 has the candidate [z] and a track of
    the audiobook already has the index [z], the audiobook ends with two
    tracks of index [z], while the spec promises unique indices. *)
Theorem import_ignores_existing_indices prober nfs w z :
  heap_fresh w -> nfs <> [] -> Forall (no_reject prober) nfs ->
  Forall index_in_range (map (plan_file prober (book_ctx (w_ab w)) (length nfs)) nfs) ->
  PIndex (js_int 0) ∉ map (plan_file prober (book_ctx (w_ab w)) (length nfs)) nfs ->
  PIndex (js_int z) ∈ map (plan_file prober (book_ctx (w_ab w)) (length nfs)) nfs ->
  Some (js_int z) ∈ map tr_index (ab_tracks (w_ab w)) ->
  ~ NoDup (map tr_index (ab_tracks (w_ab (scanAudioFiles prober (Some nfs) w).2))).
Proof.
  intros Hfr Hne Hnr Hr H0 Hzp Hold.
  destruct (scanAudioFiles_run prober nfs w Hfr Hne Hnr) as (wl & w' & Hrun & Htr & _).
  rewrite Hrun. simpl snd. rewrite Htr.
  pose proof (proj1 (Forall_forall _ _) Hr _ Hzp) as (z' & Heq & Hz').
  destruct (committed_Z _ range_bound _ Hr) as (zs & -> & Hs & _ & _ & Hmem).
  assert (Hin : z' ∈ js_sort Z.compare zs) by (rewrite js_sort_Permutation; apply Hmem; [done|by rewrite <- Heq]).
  rewrite shift_zero_Z_noop; [|done|right; rewrite js_sort_Permutation, Hmem by lia; done].
  unfold planned_track_indices.
  rewrite bool_decide_eq_false_2 by (intros E%map_eq_nil; rewrite E in Hin; by apply elem_of_nil in Hin).
  rewrite bool_decide_eq_false_2 by (intros E; rewrite E in Hold; by apply elem_of_nil in Hold).
  rewrite js_sort_Permutation. intros (_ & Hdis & _)%NoDup_app. apply (Hdis _ Hold).
  rewrite map_map, Heq. apply list_elem_of_In, in_map_iff. exists z'. split; [done|]. by apply list_elem_of_In.
Qed.
End IntIndices.

(** ** Rejections and single files *)

Lemma import_file_frame prober total st nf w :
  ab_tracks (w_ab (import_file prober total st nf w).2) = ab_tracks (w_ab w) /\
  ((import_file prober total st nf w).1 = Thrown <-> scan prober (nf_fullPath nf) false = None).
Proof.
  unfold import_file, mscan. mrun.
  destruct (scan prober (nf_fullPath nf) false) as [r|]; mrun; [|by split].
  destruct (scan_failed r); mrun;
    [|destruct (track_candidate _ _); mrun; [destruct (find_track_with_index _ _ _)|]; mrun];
    (split; [reflexivity|split; discriminate]).
Qed.

Lemma import_loop_reject prober total nfs : forall st w,
  Exists (λ nf, scan prober (nf_fullPath nf) false = None) nfs ->
  (mfold (import_file prober total) st nfs w).1 = Thrown /\
  ab_tracks (w_ab (mfold (import_file prober total) st nfs w).2) = ab_tracks (w_ab w).
Proof.
  induction nfs as [|nf nfs IH]; intros st w Hex; [by apply Exists_nil in Hex|].
  simpl. unfold bind at 1 2. destruct (import_file_frame prober total st nf w) as [Htr Hth].
  destruct (import_file prober total st nf w) as [[st1|] w1] eqn:Hrun; simpl in *.
  - apply Exists_cons in Hex as [Hnf|Hex]; [apply Hth in Hnf; done|].
    destruct (IH st1 w1 Hex) as [H1 H2]. by rewrite H1, H2.
  - done.
Qed.

(** C11. A probe that rejects makes the import reject: the error is not caught,
    and no track is committed. *)
Theorem scanAudioFiles_reject_propagates prober nfs w :
  Exists (λ nf, scan prober (nf_fullPath nf) false = None) nfs ->
  (scanAudioFiles prober (Some nfs) w).1 = Thrown /\
  ab_tracks (w_ab (scanAudioFiles prober (Some nfs) w).2) = ab_tracks (w_ab w).
Proof.
  intros Hex. unfold scanAudioFiles. cbn [bind get_ab].
  destruct nfs as [|nf nfs']; [by apply Exists_nil in Hex|]. cbn [bind log].
  destruct (import_loop_reject prober (length (nf :: nfs')) (nf :: nfs') init_state
              (add_log [(LDebug, MsgScanningAudioFiles)] w) Hex) as [H1 H2].
  unfold bind. destruct (mfold _ _ _ _) as [[st|] w1]; cbn [fst snd] in *; [done|].
  cbn [add_log w_ab] in H2. by split.
Qed.

(** C7. A batch of one file commits the index 1, whatever numbers the tags
    and the file name give. *)
Theorem batch_single_file_index_one prober nf w r :
  heap_fresh w -> scan prober (nf_fullPath nf) false = Some r -> scan_failed r = false ->
  map tr_index (ab_tracks (w_ab (scanAudioFiles prober (Some [nf]) w).2)) =
    planned_track_indices (map tr_index (ab_tracks (w_ab w))) [js_int 1].
Proof.
  intros Hfr Hs Hf.
  destruct (scanAudioFiles_run prober [nf] w Hfr ltac:(done) ltac:(repeat constructor; by exists r))
    as (wl & w' & Hrun & Htr & _).
  rewrite Hrun. simpl. rewrite Htr. f_equal.
  unfold committed_indices, plan_batch. simpl. unfold plan_file. rewrite Hs, Hf. done.
Qed.

(** C8. Spec section 8, for any file of any batch: when the candidate index
    of a scanned file is already held by a file the loop accepted, the new
    file is added to [audiobook.audioFiles] marked invalid with the error
    'Duplicate track number' and no index, the duplicate count grows, the
    accepted files are untouched (the first file keeps the index), and no
    track is created. *)
Theorem import_file_duplicate prober total st nf w r x d :
  Forall (λ l, l < w_next w) (ls_tracks st) ->
  scan prober (nf_fullPath nf) false = Some r -> scan_failed r = false ->
  track_candidate total (resolve_track_numbers (book_ctx (w_ab w)) (nf_filename nf) r) = Some x ->
  find_track_with_index (w_heap w) (ls_tracks st) x = Some d ->
  exists w', import_file prober total st nf w = (Done (add_duplicate st), w') /\
    ab_audioFiles (w_ab w') = ab_audioFiles (w_ab w) ++ [w_next w] /\
    ab_tracks (w_ab w') = ab_tracks (w_ab w) /\
    (exists af, w_heap w' !! w_next w = Some af /\ af_ino af = nf_ino nf /\ af_invalid af = true /\
       af_error af = Some "Duplicate track number"%string /\ af_index af = None) /\
    (forall k, k <> w_next w -> w_heap w' !! k = w_heap w !! k).
Proof.
  intros Hlt Hs Hf Hc Hd. unfold import_file, mscan. mrun. rewrite Hs. mrun. rewrite Hf. mrun.
  unfold book_ctx in Hc |- *. rewrite Hc. mrun.
  rewrite (find_track_with_index_frame (w_heap w)), Hd.
  2: { intros t Ht. rewrite Forall_forall in Hlt. specialize (Hlt t Ht). rewrite lookup_insert_ne; [done|lia]. }
  mrun. eexists. split; [reflexivity|]. split_and!; [done|done| |].
  - eexists. simpl. rewrite lookup_alter_eq, lookup_insert_eq. by split.
  - intros k Hk. simpl. by rewrite lookup_alter_ne, lookup_insert_ne by congruence.
Qed.

(** ** The refinement *)

(** C1. A batch whose files all reach the prober completes, and the indices of
    [audiobook.tracks] afterwards are the planned ones: the candidates that
    claim a new index, sorted, shifted when the first is 0, appended to the
    existing tracks and re-sorted when there were tracks before. *)
Theorem scanAudioFiles_refines prober nfs w :
  heap_fresh w -> nfs <> [] -> Forall (no_reject prober) nfs ->
  (scanAudioFiles prober (Some nfs) w).1 = Done tt /\
  map tr_index (ab_tracks (w_ab (scanAudioFiles prober (Some nfs) w).2)) =
    planned_track_indices (map tr_index (ab_tracks (w_ab w)))
      (committed_indices (map (plan_file prober (book_ctx (w_ab w)) (length nfs)) nfs)).
Proof.
  intros Hfr Hne Hnr. destruct (scanAudioFiles_run prober nfs w Hfr Hne Hnr) as (wl & w' & -> & Htr & _).
  by split.
Qed.

(** C13. The summary the import logs after the loop: the duplicate count, and
    for the invalid files a message that prints the duplicate count too. *)
Theorem scanAudioFiles_summary_log prober nfs w :
  heap_fresh w -> nfs <> [] -> Forall (no_reject prober) nfs ->
  exists wl, w_log (scanAudioFiles prober (Some nfs) w).2 =
    wl ++ finish_log (plan_batch (map (plan_file prober (book_ctx (w_ab w)) (length nfs)) nfs))
                     (ab_id (w_ab w)) (ab_title (w_ab w)).
Proof.
  intros Hfr Hne Hnr. destruct (scanAudioFiles_run prober nfs w Hfr Hne Hnr) as (wl & w' & -> & _ & Hlog).
  by exists wl.
Qed.
