(* ===== verification/Rescan.v ===== *)
(** * Rescan Reconciler: [rescanAudioFiles]

    Source: src/server/utils/audioFileScanner.js, lines 234-292.  The loop
    walks the references of [audiobook.audioFiles] (the array is not
    changed by the loop), re-scans each file, patches the audio-file object
    through [updateMetadata], and when the patch changed something looks for
    the file's track: by [ino] first, then, unless the file is excluded, by
    [path], correcting the track's [ino].  The result is the number of files
    whose patch changed something. *)

From S2P Require Import Prelude JsNumber JsString StableSort Normalizer Resolver Aggregate MonadLogic.

Local Open Scope js_scope.

(** Lines 269 and 275: [audiobook.tracks.find(t => t.ino === audioFile.ino)]
    and [... t.path === audioFile.path], as positions in the array. *)
Definition find_track_by_ino (ino : string) (tracks : list AudioTrack) : option nat :=
  find_index (λ t, bool_decide (tr_ino t = ino)) tracks.

Definition find_track_by_path (path : string) (tracks : list AudioTrack) : option nat :=
  find_index (λ t, bool_decide (tr_path t = path)) tracks.

(** Lines 268-286: synchronising the track of a file whose metadata
    changed. *)
Definition sync_track (af : AudioFile) : M unit :=
  let* ab := get_ab in
  match find_track_by_ino (af_ino af) (ab_tracks ab) with
  | Some i => update_track_at i (syncMetadata af)
  | None =>
      if negb (af_exclude af) then
        match find_track_by_path (af_path af) (ab_tracks ab) with
        | Some i =>
            log LError (MsgInoMismatch (af_filename af)) ;;;
            update_track_at i (λ t, syncMetadata af (set_track_ino (af_ino af) t))
        | None => log LError (MsgNoMatchingTrack (af_filename af) (ab_title ab))
        end
      else ret tt
  end.

Section Rescan.
Context (prober : string -> bool -> ProbeOutcome).

(** Lines 239-288: one iteration, with the counter [updates]. *)
Definition rescan_file (updates : nat) (l : loc) : M nat :=
  let* o := read_file l in
  match o with
  | None => ret updates
  | Some audioFile =>
      let* scanData := mscan prober (af_fullPath audioFile) false in
      if scan_failed scanData then
        log LError (MsgScanFailed (af_path audioFile)) ;;; ret updates
      else
        let* ab := get_ab in
        let tn := resolve_track_numbers (book_ctx ab) (af_filename audioFile) scanData in
        let* hasUpdates := updateMetadata l scanData tn in
        if hasUpdates then
          let* o' := read_file l in
          sync_track (default audioFile o') ;;; ret (S updates)
        else ret updates
  end.

(** Lines 234-292: [rescanAudioFiles(audiobook)]. *)
Definition rescanAudioFiles : M nat :=
  let* ab := get_ab in
  mfold rescan_file 0 (ab_audioFiles ab).
End Rescan.

(** ** What a rescan computes *)

(** The file [af] patched with the scan result [r]. *)
Definition rescan_patch (book : BookCtx) (af : AudioFile) (r : ScanResult) : AudioFile :=
  af_update r (resolve_track_numbers book (af_filename af) r) af.

(** Whether the rescan of the file at [l] changes it. *)
Definition rescan_changes prober (book : BookCtx) (h : gmap loc AudioFile) (l : loc) : bool :=
  match h !! l with
  | Some af =>
      match scan prober (af_fullPath af) false with
      | Some r => negb (scan_failed r) && negb (bool_decide (rescan_patch book af r = af))
      | None => false
      end
  | None => false
  end.

(** The prober answers on the file at [l]. *)
Definition rescan_ready prober (h : gmap loc AudioFile) (l : loc) : Prop :=
  match h !! l with Some af => is_Some (scan prober (af_fullPath af) false) | None => True end.

(** * Properties *)

Lemma rescan_file_failed prober w l af r n :
  w_heap w !! l = Some af -> scan prober (af_fullPath af) false = Some r -> scan_failed r = true ->
  rescan_file prober n l w =
    (Done n, add_log [(LDebug, MsgScanningPath (af_fullPath af)); (LError, MsgScanFailed (af_path af))] w).
Proof.
  destruct w as [h nx ab lg]. intros Hl Hs Hf. unfold rescan_file, mscan. mrun_all. simpl in Hl.
  rewrite Hl, Hs, Hf. unfold add_log. simpl. by rewrite <- app_assoc.
Qed.

Lemma rescan_file_unchanged prober w l af r n :
  w_heap w !! l = Some af -> scan prober (af_fullPath af) false = Some r -> scan_failed r = false ->
  rescan_patch (book_ctx (w_ab w)) af r = af ->
  rescan_file prober n l w = (Done n, add_log [(LDebug, MsgScanningPath (af_fullPath af))] w).
Proof.
  destruct w as [h nx ab lg]. intros Hl Hs Hf Heq. simpl in *. unfold rescan_file, mscan. mrun_all.
  rewrite Hl, Hs, Hf, Hl. unfold rescan_patch in Heq. rewrite Heq, bool_decide_eq_true_2 by done. simpl.
  unfold add_log. simpl. by rewrite (alter_const_Some _ _ _ af Hl), insert_id.
Qed.

Lemma rescan_file_changed prober w l af r n :
  w_heap w !! l = Some af -> scan prober (af_fullPath af) false = Some r -> scan_failed r = false ->
  rescan_patch (book_ctx (w_ab w)) af r <> af ->
  rescan_file prober n l w =
    (sync_track (rescan_patch (book_ctx (w_ab w)) af r) ;;; ret (S n))
      (set_heap (<[l := rescan_patch (book_ctx (w_ab w)) af r]> (w_heap w))
         (add_log [(LDebug, MsgScanningPath (af_fullPath af))] w)).
Proof.
  destruct w as [h nx ab lg]. intros Hl Hs Hf Hne. simpl in *. unfold rescan_file, mscan. mrun_all.
  rewrite Hl, Hs, Hf, Hl. unfold rescan_patch in *. rewrite bool_decide_eq_false_2 by done. simpl.
  rewrite lookup_alter_eq, Hl. simpl. unfold set_heap, add_log. simpl.
  by rewrite (alter_const_Some _ _ _ af Hl).
Qed.

Lemma sync_track_by_ino af w i :
  find_track_by_ino (af_ino af) (ab_tracks (w_ab w)) = Some i ->
  sync_track af w = (Done tt, set_ab (with_tracks (alter (syncMetadata af) i (ab_tracks (w_ab w))) (w_ab w)) w).
Proof. intros Hi. unfold sync_track. mrun. by rewrite Hi. Qed.

Lemma sync_track_by_path af w i :
  find_track_by_ino (af_ino af) (ab_tracks (w_ab w)) = None -> af_exclude af = false ->
  find_track_by_path (af_path af) (ab_tracks (w_ab w)) = Some i ->
  sync_track af w =
    (Done tt, set_ab (with_tracks (alter (λ t, syncMetadata af (set_track_ino (af_ino af) t)) i
                                     (ab_tracks (w_ab w))) (w_ab w))
                (add_log [(LError, MsgInoMismatch (af_filename af))] w)).
Proof. intros Hi Hx Hp. unfold sync_track. mrun. rewrite Hi, Hx, Hp. by mrun. Qed.

Lemma sync_track_orphan af w :
  find_track_by_ino (af_ino af) (ab_tracks (w_ab w)) = None -> af_exclude af = false ->
  find_track_by_path (af_path af) (ab_tracks (w_ab w)) = None ->
  sync_track af w = (Done tt, add_log [(LError, MsgNoMatchingTrack (af_filename af) (ab_title (w_ab w)))] w).
Proof. intros Hi Hx Hp. unfold sync_track. mrun. by rewrite Hi, Hx, Hp. Qed.

Lemma sync_track_frame af w :
  (sync_track af w).1 = Done tt /\ w_heap (sync_track af w).2 = w_heap w /\
  ab_book (w_ab (sync_track af w).2) = ab_book (w_ab w).
Proof.
  unfold sync_track. mrun.
  destruct (find_track_by_ino _ _); mrun; [done|].
  destruct (af_exclude af); mrun; [done|]. by destruct (find_track_by_path _ _); mrun.
Qed.



Lemma rescan_file_step prober w l n :
  rescan_ready prober (w_heap w) l ->
  exists w', rescan_file prober n l w =
    (Done (if rescan_changes prober (book_ctx (w_ab w)) (w_heap w) l then S n else n), w') /\
    (forall k, k <> l -> w_heap w' !! k = w_heap w !! k) /\ ab_book (w_ab w') = ab_book (w_ab w).
Proof.
  unfold rescan_ready, rescan_changes. intros Hr.
  destruct (w_heap w !! l) as [af|] eqn:Hl;
    [|unfold rescan_file; mrun; rewrite Hl; mrun; by eexists].
  destruct (scan prober (af_fullPath af) false) as [r|] eqn:Hs; [|by destruct Hr].
  destruct (scan_failed r) eqn:Hf; simpl.
  { rewrite (rescan_file_failed _ _ _ _ _ _ Hl Hs Hf). eexists; split; [done|]. by destruct w. }
  destruct (decide (rescan_patch (book_ctx (w_ab w)) af r = af)) as [Heq|Hne].
  { rewrite bool_decide_eq_true_2 by done. rewrite (rescan_file_unchanged _ _ _ _ _ _ Hl Hs Hf Heq).
    eexists; split; [done|]. by destruct w. }
  rewrite bool_decide_eq_false_2 by done. rewrite (rescan_file_changed _ _ _ _ _ _ Hl Hs Hf Hne).
  set (w1 := set_heap _ _). destruct (sync_track_frame (rescan_patch (book_ctx (w_ab w)) af r) w1) as (H1 & H2 & H3).
  unfold bind. destruct (sync_track _ w1) as [[[]|] w2]; simpl in *; [|done].
  eexists; split; [done|]. split; [|by rewrite H3].
  intros k Hk. rewrite H2. unfold w1. simpl. by rewrite lookup_insert_ne.
Qed.

Lemma rescan_loop prober ls : forall n w,
  NoDup ls -> Forall (rescan_ready prober (w_heap w)) ls ->
  exists w', mfold (rescan_file prober) n ls w =
    (Done (n + length (List.filter (rescan_changes prober (book_ctx (w_ab w)) (w_heap w)) ls)), w').
Proof.
  induction ls as [|l ls IH]; intros n w Hnd Hr; simpl; [rewrite Nat.add_0_r; by eexists|].
  apply NoDup_cons in Hnd as [Hl Hnd]. apply Forall_cons in Hr as [Hrl Hr].
  destruct (rescan_file_step prober w l n Hrl) as (w1 & Hrun & Hh & Hb).
  unfold bind. rewrite Hrun.
  assert (Hagree : forall k, k ∈ ls -> w_heap w1 !! k = w_heap w !! k) by (intros k Hk; apply Hh; by intros ->).
  destruct (IH (if rescan_changes prober (book_ctx (w_ab w)) (w_heap w) l then S n else n) w1 Hnd)
    as (w2 & Hrun2).
  { rewrite Forall_forall in Hr |- *. intros k Hk. unfold rescan_ready. rewrite Hagree by done. by apply Hr. }
  rewrite Hrun2. exists w2. do 2 f_equal.
  assert (Hf : List.filter (rescan_changes prober (book_ctx (w_ab w1)) (w_heap w1)) ls =
               List.filter (rescan_changes prober (book_ctx (w_ab w)) (w_heap w)) ls).
  { apply filter_ext_in. intros k Hk. unfold rescan_changes, book_ctx. rewrite Hb, Hagree; [done|].
    by apply list_elem_of_In. }
  rewrite Hf. destruct (rescan_changes _ _ _ l); simpl; lia.
Qed.

(** C14. [rescanAudioFiles] returns the number of audio files whose
    rescan changes them, when the audiobook holds each file once and the
    prober answers on every file. *)
Theorem rescan_counts_updates prober w :
  NoDup (ab_audioFiles (w_ab w)) -> Forall (rescan_ready prober (w_heap w)) (ab_audioFiles (w_ab w)) ->
  (rescanAudioFiles prober w).1 =
    Done (length (List.filter (rescan_changes prober (book_ctx (w_ab w)) (w_heap w)) (ab_audioFiles (w_ab w)))).
Proof.
  intros Hnd Hr. unfold rescanAudioFiles. mrun.
  destruct (rescan_loop prober _ 0 w Hnd Hr) as (w' & ->). done.
Qed.

(** C16. A changed file whose track is found by [path] but not by [ino]:
    the track takes the file's [ino] and is synchronised once, the file is
    counted, and the mismatch is logged. *)
Theorem rescan_file_path_fallback prober w l af r n i :
  w_heap w !! l = Some af -> scan prober (af_fullPath af) false = Some r -> scan_failed r = false ->
  rescan_patch (book_ctx (w_ab w)) af r <> af ->
  find_track_by_ino (af_ino af) (ab_tracks (w_ab w)) = None -> af_exclude af = false ->
  find_track_by_path (af_path af) (ab_tracks (w_ab w)) = Some i ->
  exists w', rescan_file prober n l w = (Done (S n), w') /\
    ab_tracks (w_ab w') =
      alter (λ t, syncMetadata (rescan_patch (book_ctx (w_ab w)) af r) (set_track_ino (af_ino af) t)) i
        (ab_tracks (w_ab w)) /\
    w_heap w' = <[l := rescan_patch (book_ctx (w_ab w)) af r]> (w_heap w) /\
    w_log w' = w_log w ++ [(LDebug, MsgScanningPath (af_fullPath af)); (LError, MsgInoMismatch (af_filename af))].
Proof.
  intros Hl Hs Hf Hne Hino Hx Hp. rewrite (rescan_file_changed _ _ _ _ _ _ Hl Hs Hf Hne).
  unfold bind. rewrite sync_track_by_path with (i := i) by done. mrun.
  eexists; split; [done|]. destruct w; simpl. split; [done|]. split; [done|]. by rewrite <- app_assoc.
Qed.

(** A file whose rescan changes nothing is not counted, and neither the
    tracks nor the audio files change. *)
Lemma rescan_unchanged_keeps_track prober w l af r n :
  w_heap w !! l = Some af -> scan prober (af_fullPath af) false = Some r -> scan_failed r = false ->
  rescan_patch (book_ctx (w_ab w)) af r = af ->
  (rescan_file prober n l w).1 = Done n /\
  ab_tracks (w_ab (rescan_file prober n l w).2) = ab_tracks (w_ab w) /\
  w_heap (rescan_file prober n l w).2 = w_heap w.
Proof. intros Hl Hs Hf Heq. rewrite (rescan_file_unchanged _ _ _ _ _ _ Hl Hs Hf Heq). by destruct w. Qed.

(** A changed file whose track is found by [ino] has that track
    synchronised, and only that one. *)
Lemma rescan_file_ino_sync prober w l af r n i :
  w_heap w !! l = Some af -> scan prober (af_fullPath af) false = Some r -> scan_failed r = false ->
  rescan_patch (book_ctx (w_ab w)) af r <> af ->
  find_track_by_ino (af_ino af) (ab_tracks (w_ab w)) = Some i ->
  exists w', rescan_file prober n l w = (Done (S n), w') /\
    ab_tracks (w_ab w') = alter (syncMetadata (rescan_patch (book_ctx (w_ab w)) af r)) i (ab_tracks (w_ab w)) /\
    w_heap w' = <[l := rescan_patch (book_ctx (w_ab w)) af r]> (w_heap w).
Proof.
  intros Hl Hs Hf Hne Hino. rewrite (rescan_file_changed _ _ _ _ _ _ Hl Hs Hf Hne).
  unfold bind. rewrite sync_track_by_ino with (i := i) by done. mrun.
  eexists; split; [done|]. by destruct w.
Qed.

(** C18. A changed file that is not excluded and has no track by [ino] nor by
    [path] is counted and reported; no track is created. *)
Theorem rescan_file_orphan prober w l af r n :
  w_heap w !! l = Some af -> scan prober (af_fullPath af) false = Some r -> scan_failed r = false ->
  rescan_patch (book_ctx (w_ab w)) af r <> af ->
  find_track_by_ino (af_ino af) (ab_tracks (w_ab w)) = None -> af_exclude af = false ->
  find_track_by_path (af_path af) (ab_tracks (w_ab w)) = None ->
  exists w', rescan_file prober n l w = (Done (S n), w') /\
    ab_tracks (w_ab w') = ab_tracks (w_ab w) /\
    w_log w' = w_log w ++ [(LDebug, MsgScanningPath (af_fullPath af));
                           (LError, MsgNoMatchingTrack (af_filename af) (ab_title (w_ab w)))].
Proof.
  intros Hl Hs Hf Hne Hino Hx Hp. rewrite (rescan_file_changed _ _ _ _ _ _ Hl Hs Hf Hne).
  unfold bind. rewrite sync_track_orphan by done. mrun.
  eexists; split; [done|]. destruct w; simpl. split; [done|]. by rewrite <- app_assoc.
Qed.
