(* ===== verification/Diagnostics.v ===== *)
(** * Track Diagnostics Reporter: [scanTrackNumbers]

    Source: src/server/utils/audioFileScanner.js, lines 295-316.  For each
    track of [audiobook.tracks] the reporter probes the file in verbose
    mode, reads the track number from the metadata and from the file name,
    logs them, and returns one report per track.  It reads the audiobook
    and writes only the log. *)

From S2P Require Import Prelude JsNumber JsString StableSort Normalizer Resolver Aggregate.

Local Open Scope string_scope.
Local Open Scope js_scope.

(** The object pushed on line 306. *)
Record TrackNumReport := {
  rp_filename : string;
  rp_currentTrackNum : option jsnum;
  rp_trackNumFromFilename : option jsnum;
  rp_trackNumFromMeta : option jsnum;
  rp_scanDataTrackNum : option string;
  rp_rawTags : option jsval
}.

(** ToBoolean on a JSON value. *)
Definition jsval_truthy (v : jsval) : bool :=
  match v with
  | VNull => false
  | VBool b => b
  | VNum x => num_truthy x
  | VStr s => str_truthy (Some s)
  | VArr _ | VObj _ => true
  end.

(** [scanData.file_tag_track] ([undefined] on an error object). *)
Definition scan_file_tag_track (r : ScanResult) : option string :=
  match r with ScanData md => tag_lookup "file_tag_track" (md_tags md) | ScanError _ => None end.

(** [scanData.rawTags || null]. *)
Definition scan_rawTags (r : ScanResult) : option jsval :=
  match r with
  | ScanData md => match md_rawTags md with Some v => if jsval_truthy v then Some v else None | None => None end
  | ScanError _ => None
  end.

Section Diagnostics.
Context (prober : string -> bool -> ProbeOutcome).

(** Lines 299-313: one iteration. *)
Definition report_track (scannedTrackNumData : list TrackNumReport) (track : AudioTrack) :
    M (list TrackNumReport) :=
  let* scanData := mscan prober (tr_fullPath track) true in
  let trackNumFromMeta := getTrackNumberFromMeta scanData in
  let* ab := get_ab in
  let book := book_ctx ab in
  let trackNumFromFilename := getTrackNumberFromFilename (bk_title book) (bk_author book)
                                (bk_series book) (bk_publishYear book) (tr_filename track) in
  log LInfo (MsgTrackNumbers (tr_filename track) trackNumFromMeta trackNumFromFilename (tr_index track)) ;;;
  ret (scannedTrackNumData ++
       [{| rp_filename := tr_filename track; rp_currentTrackNum := tr_index track;
           rp_trackNumFromFilename := trackNumFromFilename; rp_trackNumFromMeta := trackNumFromMeta;
           rp_scanDataTrackNum := scan_file_tag_track scanData; rp_rawTags := scan_rawTags scanData |}])%list.

(** Lines 295-316: [scanTrackNumbers(audiobook)]. *)
Definition scanTrackNumbers : M (list TrackNumReport) :=
  let* ab := get_ab in
  mfold report_track [] (ab_tracks ab).
End Diagnostics.

(** The number [getTrackNumberFromFilename] reads from a track's file
    name, for the audiobook's book. *)
Definition filename_number (book : BookCtx) (t : AudioTrack) : option jsnum :=
  getTrackNumberFromFilename (bk_title book) (bk_author book) (bk_series book) (bk_publishYear book)
    (tr_filename t).

Local Close Scope string_scope.

(** * Properties *)

Lemma report_track_log_only prober acc t w : exists L, (report_track prober acc t w).2 = add_log L w.
Proof.
  unfold report_track, mscan. mrun.
  destruct (scan prober (tr_fullPath t) true); mrun; eexists; by rewrite ?add_log_app.
Qed.

Lemma mfold_report_log_only prober ts : forall acc w, exists L, (mfold (report_track prober) acc ts w).2 = add_log L w.
Proof.
  induction ts as [|t ts IH]; intros acc w; simpl.
  - exists []. destruct w. unfold add_log. simpl. by rewrite app_nil_r.
  - unfold bind. destruct (report_track_log_only prober acc t w) as [L1 H1].
    destruct (report_track prober acc t w) as [[acc'|] w1]; simpl in *.
    + destruct (IH acc' w1) as [L2 H2]. exists (L1 ++ L2). by rewrite H2, H1, add_log_app.
    + by exists L1.
Qed.

(** C24. [scanTrackNumbers] changes nothing but the log: neither the
    audiobook nor the audio files. *)
Theorem scanTrackNumbers_read_only prober w : exists L, (scanTrackNumbers prober w).2 = add_log L w.
Proof. unfold scanTrackNumbers. mrun. apply mfold_report_log_only. Qed.

Lemma mfold_report_run prober ts : forall acc w,
  Forall (λ t, is_Some (scan prober (tr_fullPath t) true)) ts ->
  exists reps w', mfold (report_track prober) acc ts w = (Done (acc ++ reps), w') /\
    map rp_filename reps = map tr_filename ts /\ map rp_currentTrackNum reps = map tr_index ts /\
    map rp_trackNumFromFilename reps = map (filename_number (book_ctx (w_ab w))) ts.
Proof.
  induction ts as [|t ts IH]; intros acc w Hr; simpl.
  - exists [], w. by rewrite app_nil_r.
  - apply Forall_cons in Hr as [[r Hs] Hr]. unfold bind at 1, report_track, mscan. mrun. rewrite Hs. mrun.
    edestruct IH as (reps & w' & Hrun & Hf & Hi & Hn); [done|]. rewrite Hrun.
    eexists _, w'. rewrite <- app_assoc. split; [done|]. simpl in *. by rewrite Hf, Hi, Hn.
Qed.

(** C25. When the prober answers on every track, [scanTrackNumbers]
    returns one report per track, in order, with the track's file name and
    its current index. *)
Theorem scanTrackNumbers_reports prober w :
  Forall (λ t, is_Some (scan prober (tr_fullPath t) true)) (ab_tracks (w_ab w)) ->
  exists reps, (scanTrackNumbers prober w).1 = Done reps /\
    map rp_filename reps = map tr_filename (ab_tracks (w_ab w)) /\
    map rp_currentTrackNum reps = map tr_index (ab_tracks (w_ab w)).
Proof.
  intros Hr. unfold scanTrackNumbers. mrun.
  destruct (mfold_report_run prober _ [] w Hr) as (reps & w' & -> & Hf & Hi & _). by exists reps.
Qed.

(** C26. The diagnostics read the file-name number raw: for every track
    the report's [trackNumFromFilename] is [getTrackNumberFromFilename] of
    the track's file name (line 303), without the CD promotion the
    reconcilers apply to the same number (lines 152-156) and whatever the
    scan returned.  For a name with no track number and a CD number the
    report therefore has no number where the import commits the CD number
    ([Resolver.resolve_promotes_cd]). *)
Theorem scanTrackNumbers_filename_raw prober w :
  Forall (λ t, is_Some (scan prober (tr_fullPath t) true)) (ab_tracks (w_ab w)) ->
  exists reps, (scanTrackNumbers prober w).1 = Done reps /\
    map rp_trackNumFromFilename reps = map (filename_number (book_ctx (w_ab w))) (ab_tracks (w_ab w)).
Proof.
  intros Hr. unfold scanTrackNumbers. mrun.
  destruct (mfold_report_run prober _ [] w Hr) as (reps & w' & -> & _ & _ & Hn). by exists reps.
Qed.
