(* ===== verification/Contracts.v ===== *)
(** * What the aggregate promises the reconcilers

    The reconcilers change the world only through the aggregate's
    operations: [addAudioFile], field writes on audio-file objects, writes
    of [audiobook.audioFiles] and [audiobook.tracks], [updateMetadata],
    and the log.  [ImportInvariant P] states that each operation, in the
    form [scanAudioFiles] calls it, keeps a property [P] of the world;
    [RescanInvariant P] does the same for [rescanAudioFiles].  The
    reconcilers are proved once against these interfaces ([import_keeps],
    [rescan_keeps]); each invariant of the development is an instance
    that discharges the operations' obligations: here the two frame
    properties, in [WorldInvariant] the well-formedness of the world. *)

From S2P Require Import Prelude JsNumber JsString StableSort Normalizer Resolver Aggregate MonadLogic BatchImport Rescan Diagnostics.

Local Open Scope js_scope.

(** The writes of audio-file fields in [scanAudioFiles]: lines 178-179,
    185-186, 190 and 218. *)
Inductive import_file_write : (AudioFile -> AudioFile) -> Prop :=
| iw_invalid err : import_file_write (mark_invalid err)
| iw_index i : import_file_write (with_index i)
| iw_bump : import_file_write bump_index.

(** The writes of the audiobook's arrays in [scanAudioFiles]: the sort of
    line 209, [addTrack] (line 225), the sort of line 228. *)
Inductive import_ab_write : (Audiobook -> Audiobook) -> Prop :=
| iw_sort_files cmp : import_ab_write (λ ab, with_audioFiles (js_sort cmp (ab_audioFiles ab)) ab)
| iw_add_track t : import_ab_write (λ ab, with_tracks (ab_tracks ab ++ [t]) ab)
| iw_sort_tracks : import_ab_write (λ ab, with_tracks (js_sort audio_track_cmp (ab_tracks ab)) ab).

(** The writes of a track in [rescanAudioFiles]: lines 271 and 278-279. *)
Inductive rescan_track_write : (AudioTrack -> AudioTrack) -> Prop :=
| rw_sync af : rescan_track_write (syncMetadata af)
| rw_sync_ino af : rescan_track_write (λ t, syncMetadata af (set_track_ino (af_ino af) t)).

Class ImportInvariant (P : World -> Prop) : Prop := {
  ii_log : log_blind P;
  ii_addAudioFile nf r tn : keeps P (addAudioFile nf r tn);
  ii_file l f : import_file_write f -> keeps P (modify_file l f);
  ii_ab f : import_ab_write f -> keeps P (modify_ab f)
}.

Class RescanInvariant (P : World -> Prop) : Prop := {
  ri_log : log_blind P;
  ri_updateMetadata l r tn : keeps P (updateMetadata l r tn);
  ri_track i f : rescan_track_write f -> keeps P (update_track_at i f)
}.

(** ** The frame properties *)

(** The audiobook still holds the tracks [ts0] and the references [ls0],
    as sub-multisets of its arrays. *)
Definition holds (ts0 : list AudioTrack) (ls0 : list loc) (w : World) : Prop :=
  ts0 ⊆+ ab_tracks (w_ab w) /\ ls0 ⊆+ ab_audioFiles (w_ab w).

(** The references of [audiobook.audioFiles] are [ls0] and the tracks
    carry the indices [is0], in this order. *)
Definition shape (ls0 : list loc) (is0 : list (option jsnum)) (w : World) : Prop :=
  ab_audioFiles (w_ab w) = ls0 /\ map tr_index (ab_tracks (w_ab w)) = is0.

(** * The reconcilers against the interfaces *)

Section Clients.
Context (P : World -> Prop).

#[local] Hint Extern 1 (keeps _ (modify_file _ _)) => apply ii_file; constructor : keeps.
#[local] Hint Extern 1 (keeps _ (modify_ab _)) => apply ii_ab; constructor : keeps.
#[local] Hint Extern 1 (keeps _ (update_track_at _ _)) => apply ri_track; constructor : keeps.
#[local] Hint Resolve ii_log ii_addAudioFile ri_log ri_updateMetadata : keeps.

(** Every property the import's operations keep is kept by the import,
    also when a probe rejects. *)
Lemma import_keeps `{!ImportInvariant P} prober nfs : keeps P (scanAudioFiles prober nfs).
Proof. unfold scanAudioFiles, import_file, finish_import, shift_if_zero, addTrack. keeps_tac. Qed.

(** Every property the rescan's operations keep is kept by the rescan. *)
Lemma rescan_keeps `{!RescanInvariant P} prober : keeps P (rescanAudioFiles prober).
Proof. unfold rescanAudioFiles, rescan_file, sync_track. keeps_tac. Qed.

(** The diagnostics only log. *)
Lemma diagnostics_keeps prober : log_blind P -> keeps P (scanTrackNumbers prober).
Proof. intros HP. unfold scanTrackNumbers, report_track. keeps_tac. Qed.
End Clients.

(** * The frame properties are invariants *)

#[export] Instance holds_import ts0 ls0 : ImportInvariant (holds ts0 ls0).
Proof.
  split.
  - by intros L [h nx ab lg].
  - intros nf r tn [h nx ab lg] [Ht Hl]. split; [done|]. by apply submseteq_inserts_r.
  - by intros l f _ [h nx ab lg].
  - intros f Hf [h nx ab lg] [Ht Hl]. unfold holds. simpl.
    destruct Hf; simpl; split; try done; etrans; try done.
    + apply Permutation_submseteq. symmetry. apply js_sort_Permutation.
    + by apply submseteq_inserts_r.
    + apply Permutation_submseteq. symmetry. apply js_sort_Permutation.
Qed.

#[export] Instance shape_rescan ls0 is0 : RescanInvariant (shape ls0 is0).
Proof.
  split.
  - by intros L [h nx ab lg].
  - intros l r tn w Hw. unfold updateMetadata. mrun. by case_match.
  - intros i f Hf [h nx ab lg] [Hl Hi]. split; [done|]. simpl.
    rewrite (map_alter_frame tr_index); [done|]. by destruct Hf.
Qed.

(** C12. An import never drops a track of [audiobook.tracks] nor a
    reference of [audiobook.audioFiles], whatever the prober answers and
    also when a probe rejects: the arrays only grow and are re-sorted. *)
Theorem scanAudioFiles_keeps_tracks prober nfs w :
  let w' := (scanAudioFiles prober nfs w).2 in
  ab_tracks (w_ab w) ⊆+ ab_tracks (w_ab w') /\ ab_audioFiles (w_ab w) ⊆+ ab_audioFiles (w_ab w').
Proof. apply (keeps_run (holds (ab_tracks (w_ab w)) (ab_audioFiles (w_ab w)))); [apply import_keeps, _|split; reflexivity]. Qed.

(** C15. A rescan never adds, removes or reorders the references of
    [audiobook.audioFiles], and never adds, removes, reorders or renumbers
    a track: it only rewrites metadata and [ino] in place, also when a
    probe rejects. *)
Theorem rescanAudioFiles_keeps_shape prober w :
  let w' := (rescanAudioFiles prober w).2 in
  ab_audioFiles (w_ab w') = ab_audioFiles (w_ab w) /\
  map tr_index (ab_tracks (w_ab w')) = map tr_index (ab_tracks (w_ab w)).
Proof.
  apply (keeps_run (shape (ab_audioFiles (w_ab w)) (map tr_index (ab_tracks (w_ab w))))); [|done].
  apply rescan_keeps, _.
Qed.
