(* ===== verification/WorldInvariant.v ===== *)
(** * Well-formedness of the world the reconcilers mutate

    [world_wf] is the type invariant of the aggregate as the scanner uses
    it: [audiobook.audioFiles] references exactly the allocated audio-file
    objects, each once; every address at or above [w_next] is free; and
    every audio-file object is consistent ([file_ok]: a file marked
    [invalid] carries an [error]).  Each write of the source keeps it: the
    instances [wf_import] and [wf_rescan] discharge the obligations of the
    interfaces of [Contracts], whose client lemmas carry the invariant
    through [scanAudioFiles], [rescanAudioFiles] and [scanTrackNumbers],
    also through a rejected probe. *)

From S2P Require Import Prelude JsNumber JsString StableSort Normalizer Resolver Aggregate MonadLogic BatchImport Rescan Diagnostics Contracts.

Local Open Scope js_scope.

(** Lines 178-179 and 185-186 write [invalid] and [error] together. *)
Definition file_ok (af : AudioFile) : Prop := af_invalid af = true -> is_Some (af_error af).

Record world_wf (w : World) : Prop := {
  wf_files : forall l, is_Some (w_heap w !! l) <-> l ∈ ab_audioFiles (w_ab w);
  wf_nodup : NoDup (ab_audioFiles (w_ab w));
  wf_fresh : heap_fresh w;
  wf_ok : map_Forall (λ _, file_ok) (w_heap w)
}.

(** The invariant in terms of the heap's domain, which is decidable. *)
Definition world_wf_dom (w : World) : Prop :=
  dom (w_heap w) = (list_to_set (ab_audioFiles (w_ab w)) : gset loc) /\
  NoDup (ab_audioFiles (w_ab w)) /\
  set_Forall (λ l, l < w_next w) (dom (w_heap w)) /\
  map_Forall (λ _, file_ok) (w_heap w).

#[export] Instance file_ok_dec af : Decision (file_ok af).
Proof. unfold file_ok. apply _. Defined.

#[export] Instance world_wf_dom_dec w : Decision (world_wf_dom w).
Proof. unfold world_wf_dom. apply _. Defined.

(** ** Field writes keep a file consistent *)

Lemma file_ok_mark_invalid err af : file_ok (mark_invalid err af).
Proof. by intros _; eexists. Qed.

Lemma file_ok_with_index i af : file_ok af -> file_ok (with_index i af).
Proof. done. Qed.

Lemma file_ok_bump_index af : file_ok af -> file_ok (bump_index af).
Proof. done. Qed.

Lemma file_ok_af_update r tn af : file_ok af -> file_ok (af_update r tn af).
Proof. done. Qed.

(** ** The atomic writes keep the world well formed *)

Lemma wf_log_blind : log_blind world_wf.
Proof. intros L [h nx ab lg] []. by constructor. Qed.

Lemma keeps_wf_modify_file l f :
  (forall af, file_ok af -> file_ok (f af)) -> keeps world_wf (modify_file l f).
Proof.
  intros Hf [h nx ab lg] [Hfiles Hnd Hfr Hok]. simpl in *. constructor; simpl.
  - intros k. rewrite <- Hfiles. rewrite lookup_alter_is_Some. done.
  - done.
  - intros k Hk. simpl in *. rewrite lookup_alter_None. by apply Hfr.
  - intros k af Hk. apply lookup_alter_Some in Hk as [(-> & af0 & Hl & ->)|[_ Hk]].
    + apply Hf. by eapply Hok.
    + by eapply Hok.
Qed.

Lemma keeps_wf_modify_ab f :
  (forall ab, ab_audioFiles (f ab) ≡ₚ ab_audioFiles ab) -> keeps world_wf (modify_ab f).
Proof.
  intros Hf [h nx ab lg] [Hfiles Hnd Hfr Hok]. simpl in *. constructor; simpl; try done.
  - intros k. by rewrite Hf, Hfiles.
  - by rewrite Hf.
Qed.

Lemma keeps_wf_addAudioFile nf r tn : keeps world_wf (addAudioFile nf r tn).
Proof.
  intros [h nx ab lg] [Hfiles Hnd Hfr Hok]. simpl in *.
  assert (Hnew : nx ∉ ab_audioFiles ab).
  { rewrite <- Hfiles. rewrite Hfr by (simpl; lia). by intros []. }
  constructor; simpl.
  - intros k. rewrite elem_of_app, list_elem_of_singleton, <- Hfiles.
    destruct (decide (k = nx)) as [->|Hk]; [rewrite lookup_insert_eq; naive_solver|].
    rewrite lookup_insert_ne by done. naive_solver.
  - apply NoDup_app. split; [done|]. split; [|apply NoDup_singleton].
    intros k Hk ->%list_elem_of_singleton. done.
  - intros k Hk. simpl in *. rewrite lookup_insert_ne by lia. apply Hfr. simpl. lia.
  - apply map_Forall_insert_2; [by intros ?|done].
Qed.

(** [audioFile.updateMetadata(patch)] writes the patched object back. *)
Lemma keeps_wf_updateMetadata l r tn : keeps world_wf (updateMetadata l r tn).
Proof.
  intros w Hw. unfold updateMetadata. mrun.
  destruct (w_heap w !! l) as [af|] eqn:Hl; mrun; [|done].
  apply (keeps_wf_modify_file l (λ _, af_update r tn af)); [|done].
  intros _ _. apply file_ok_af_update. by apply (wf_ok _ Hw l).
Qed.

Lemma world_wf_dom_iff w : world_wf w <-> world_wf_dom w.
Proof.
  unfold world_wf_dom, heap_fresh. split.
  - intros [Hfiles Hnd Hfr Hok]. split_and!; [|done| |done].
    + apply set_eq. intros l. by rewrite elem_of_dom, elem_of_list_to_set.
    + intros l Hl%elem_of_dom. destruct (decide (l < w_next w)); [done|].
      rewrite Hfr in Hl by lia. by destruct Hl.
  - intros (Hd & Hnd & Hlt & Hok). constructor; [|done| |done].
    + intros l. by rewrite <- elem_of_dom, Hd, elem_of_list_to_set.
    + intros l Hl. apply not_elem_of_dom. intros Hin%Hlt. lia.
Qed.

#[export] Instance world_wf_dec w : Decision (world_wf w).
Proof. refine (cast_if (decide (world_wf_dom w))); by rewrite world_wf_dom_iff. Defined.

(** ** The aggregate's operations keep the world well formed *)

#[export] Instance wf_import : ImportInvariant world_wf.
Proof.
  split.
  - apply wf_log_blind.
  - apply keeps_wf_addAudioFile.
  - intros l f Hf. apply keeps_wf_modify_file. destruct Hf; auto using file_ok_mark_invalid,
      file_ok_with_index, file_ok_bump_index.
  - intros f Hf. apply keeps_wf_modify_ab. intros ab.
    destruct Hf; simpl; [apply js_sort_Permutation|done|done].
Qed.

#[export] Instance wf_rescan : RescanInvariant world_wf.
Proof.
  split.
  - apply wf_log_blind.
  - apply keeps_wf_updateMetadata.
  - intros i f _. by apply keeps_wf_modify_ab.
Qed.

(** * The reconcilers keep the world well formed *)

(** C4. Whatever the prober answers, and also when a probe rejects,
    [scanAudioFiles] leaves a well-formed world: the audio files it adds
    are fresh objects referenced once from [audiobook.audioFiles], the
    re-sort of that array loses no reference, and every file it marks
    invalid carries its error. *)
Theorem scanAudioFiles_wf prober nfs w :
  world_wf w -> world_wf (scanAudioFiles prober nfs w).2.
Proof. apply keeps_run, import_keeps, _. Qed.

(** [rescanAudioFiles] leaves a well-formed world: it patches the existing
    objects in place and allocates none. *)
Lemma rescanAudioFiles_wf prober w :
  world_wf w -> world_wf (rescanAudioFiles prober w).2.
Proof. apply keeps_run, rescan_keeps, _. Qed.

Lemma scanTrackNumbers_wf prober w :
  world_wf w -> world_wf (scanTrackNumbers prober w).2.
Proof. apply keeps_run, diagnostics_keeps, wf_log_blind. Qed.
