(* ===== verification/TrackBacking.v ===== *)
(** * The spec's data-model invariant: tracks are backed by valid files

    Spec section 3: every committed track corresponds to a non-invalid
    audio file of the audiobook, by its identity [ino].  [tracks_backed]
    states it, decidably.  What a track needs of a file is its [ino] and
    its [invalid] flag ([file_view]); a world [extends] another when it
    keeps every reference of [audiobook.audioFiles] with the same view.

    [scanAudioFiles_tracks_backed] shows that an import keeps the
    invariant: the only write that could break it marks invalid a file
    just allocated, which backs no track yet, and every track the import
    adds is built from a file it accepted.  A rescan can break it: the
    path fallback binds a track to a file of the same path without looking
    at its [invalid] flag ([Rescan.rescan_file_path_fallback]);
    [rescanAudioFiles_tracks_backed] shows
    that a rescan keeps it when no invalid file has the path of a track
    ([path_safe]), a condition the rescan keeps too. *)

From S2P Require Import Prelude JsNumber JsString StableSort Normalizer Resolver Aggregate MonadLogic BatchImport Rescan Diagnostics Contracts WorldInvariant.

Local Open Scope js_scope.

(** What a track's correspondence sees of the audio file at [l]. *)
Definition file_view (w : World) (l : loc) : option (string * bool) :=
  (λ af, (af_ino af, af_invalid af)) <$> w_heap w !! l.

(** The track [t] corresponds to a non-invalid audio file of the audiobook. *)
Definition track_backed (w : World) (t : AudioTrack) : Prop :=
  Exists (λ l, file_view w l = Some (tr_ino t, false)) (ab_audioFiles (w_ab w)).

Definition tracks_backed (w : World) : Prop := Forall (track_backed w) (ab_tracks (w_ab w)).

#[export] Instance track_backed_dec w t : Decision (track_backed w t).
Proof. unfold track_backed. apply _. Defined.

#[export] Instance tracks_backed_dec w : Decision (tracks_backed w).
Proof. unfold tracks_backed. apply _. Defined.

(** A file of the audiobook that is not invalid. *)
Definition valid_file (w : World) (l : loc) : Prop :=
  l ∈ ab_audioFiles (w_ab w) /\ exists ino, file_view w l = Some (ino, false).

(** [w'] keeps every reference of [w], with the same view of its file. *)
Definition extends (w w' : World) : Prop :=
  forall l, l ∈ ab_audioFiles (w_ab w) -> l ∈ ab_audioFiles (w_ab w') /\ file_view w' l = file_view w l.

(** The state of an import: well formed, tracks backed, and the files the
    loop accepted so far valid. *)
Definition backed_state (ls : list loc) (w : World) : Prop :=
  world_wf w /\ tracks_backed w /\ Forall (valid_file w) ls.

(** While the loop handles the file it allocated at [l]: every track is
    backed by a file other than [l], and the accepted files [ls], among
    which [l] is not yet, are valid.  The writes on [l] keep it. *)
Definition track_backed_off (l : loc) (w : World) (t : AudioTrack) : Prop :=
  Exists (λ k, k <> l /\ file_view w k = Some (tr_ino t, false)) (ab_audioFiles (w_ab w)).

Definition backed_off (ls : list loc) (l : loc) (w : World) : Prop :=
  world_wf w /\ Forall (track_backed_off l w) (ab_tracks (w_ab w)) /\ Forall (valid_file w) ls /\ l ∉ ls.

(** What the rescan's lookups see of a track: its [ino] and its [path]. *)
Definition track_key (t : AudioTrack) : string * string := (tr_ino t, tr_path t).

(** What the path fallback sees of the audio file at [l]. *)
Definition file_pview (w : World) (l : loc) : option (string * bool) :=
  (λ af, (af_path af, af_invalid af)) <$> w_heap w !! l.

(** No invalid audio file of the audiobook has the [path] of a track: the
    path fallback of the rescan (lines 275-279) can then bind a track only
    to a valid file. *)
Definition path_safe (w : World) : Prop :=
  Forall (λ k, match file_pview w k with
               | Some (p, true) => p ∉ map tr_path (ab_tracks (w_ab w))
               | _ => True
               end) (ab_audioFiles (w_ab w)).

#[export] Instance path_safe_dec w : Decision (path_safe w).
Proof. apply Forall_dec. intros k. destruct (file_pview w k) as [[p []]|]; apply _. Defined.

(** The state of a rescan of the references [ls0]. *)
Definition rescan_backed (ls0 : list loc) (w : World) : Prop :=
  ab_audioFiles (w_ab w) = ls0 /\ tracks_backed w /\ path_safe w.

(** * Properties *)

Lemma track_backed_extend w w' t : extends w w' -> track_backed w t -> track_backed w' t.
Proof.
  unfold track_backed. rewrite !Exists_exists. intros Hext (l & Hl & Hv).
  destruct (Hext l Hl) as [Hl' Hv']. exists l. by rewrite Hv'.
Qed.

Lemma valid_file_extend w w' l : extends w w' -> valid_file w l -> valid_file w' l.
Proof. intros Hext [Hl Hv]. destruct (Hext l Hl) as [Hl' Heq]. split; [done|]. by rewrite Heq. Qed.

(** A step that keeps the references and adds no unbacked track keeps the
    state. *)
Lemma backed_state_extend ls w w' :
  extends w w' -> world_wf w' ->
  (forall t, t ∈ ab_tracks (w_ab w') -> t ∈ ab_tracks (w_ab w) \/ track_backed w' t) ->
  backed_state ls w -> backed_state ls w'.
Proof.
  intros Hext Hwf Ht (_ & Hb & Hv). split_and!; [done| |].
  - apply Forall_forall. intros t Hin. destruct (Ht t Hin) as [Hold|]; [|done].
    eapply track_backed_extend; [done|]. by eapply Forall_forall in Hb.
  - eapply Forall_impl; [done|]. intros l. by apply valid_file_extend.
Qed.

Lemma extends_refl_heap w w' :
  w_heap w' = w_heap w -> ab_audioFiles (w_ab w') ≡ₚ ab_audioFiles (w_ab w) -> extends w w'.
Proof. intros Hh Hp l Hl. unfold file_view. by rewrite Hh, Hp. Qed.

Lemma backed_log_blind ls : log_blind (backed_state ls).
Proof.
  intros L w Hw. apply (backed_state_extend ls w); [|by apply wf_log_blind, (proj1 Hw)|by intros; left|done].
  by apply extends_refl_heap; [destruct w|destruct w].
Qed.

Lemma backed_state_weaken ls w : backed_state ls w -> backed_state [] w.
Proof. intros (? & ? & _). by split_and!. Qed.

Lemma file_view_modify_ne l f w k : l <> k -> file_view (modify_file l f w).2 k = file_view w k.
Proof. intros Hne. unfold file_view. simpl. by rewrite lookup_alter_ne. Qed.

(** A write that keeps [ino] and [invalid] keeps the references. *)
Lemma extends_modify_file l f w :
  (forall af, af_ino (f af) = af_ino af /\ af_invalid (f af) = af_invalid af) ->
  extends w (modify_file l f w).2.
Proof.
  intros Hf k Hk. split; [done|]. destruct (decide (l = k)) as [->|Hne]; [|by apply file_view_modify_ne].
  unfold file_view. simpl. rewrite lookup_alter_eq.
  destruct (w_heap w !! k) as [af|]; simpl; [|done]. by destruct (Hf af) as [-> ->].
Qed.

Lemma keeps_backed_modify_file ls l f :
  (forall af, file_ok af -> file_ok (f af)) ->
  (forall af, af_ino (f af) = af_ino af /\ af_invalid (f af) = af_invalid af) ->
  keeps (backed_state ls) (modify_file l f).
Proof.
  intros Hok Hf w Hw. apply (backed_state_extend ls w); [by apply extends_modify_file|
    by apply keeps_wf_modify_file, (proj1 Hw)|by intros; left|done].
Qed.

Lemma keeps_valid_modify_file k l f :
  (forall af, af_ino (f af) = af_ino af /\ af_invalid (f af) = af_invalid af) ->
  keeps (λ w, valid_file w k) (modify_file l f).
Proof. intros Hf w. apply valid_file_extend, extends_modify_file, Hf. Qed.

Lemma track_backed_off_weaken l w t : track_backed_off l w t -> track_backed w t.
Proof. intros H. eapply Exists_impl; [done|]. by intros k [_ ?]. Qed.

Lemma backed_off_state ls l w : backed_off ls l w -> backed_state ls w.
Proof.
  intros (Hwf & Ht & Hv & _). split_and!; [done| |done].
  eapply Forall_impl; [done|]. apply track_backed_off_weaken.
Qed.

(** Once the file at [l] is valid, it joins the accepted files. *)
Lemma backed_off_push ls l w : backed_off ls l w -> valid_file w l -> backed_state (ls ++ [l]) w.
Proof.
  intros Hw Hl. destruct (backed_off_state ls l w Hw) as (? & ? & ?).
  split_and!; [done|done|]. apply Forall_app. by split; [|apply Forall_singleton].
Qed.

Lemma backed_off_log_blind ls l : log_blind (backed_off ls l).
Proof. intros L w (Hwf & ? & ? & ?). split_and!; [by apply wf_log_blind|by destruct w..]. Qed.

(** Any write on the file at [l] that keeps it consistent. *)
Lemma keeps_backed_off_modify_file ls l f :
  (forall af, file_ok af -> file_ok (f af)) -> keeps (backed_off ls l) (modify_file l f).
Proof.
  intros Hok w (Hwf & Ht & Hv & Hn). split_and!; [by apply keeps_wf_modify_file| | |done].
  - eapply Forall_impl; [done|]. intros t. unfold track_backed_off. rewrite !Exists_exists.
    intros (k & Hk & Hkl & Hkv). exists k. split; [done|]. split; [done|].
    rewrite file_view_modify_ne; [done|]. by intros ->.
  - apply Forall_forall. intros k Hk. eapply Forall_forall in Hv as [Hin [ino Hino]]; [|done].
    split; [done|]. exists ino. rewrite file_view_modify_ne; [done|]. by intros ->.
Qed.

(** [addAudioFile] allocates the file at the first free address, which no
    reference of a well-formed world names. *)
Lemma backed_addAudioFile ls nf r tn :
  triple (backed_state ls) (addAudioFile nf r tn) (λ l w, backed_off ls l w /\ valid_file w l) (backed_state []).
Proof.
  intros [h nx ab lg] (Hwf & Hb & Hv). pose proof (keeps_wf_addAudioFile nf r tn _ Hwf) as Hwf'.
  destruct Hwf as [Hfiles _ Hfr _]. simpl in *.
  assert (Hnew : forall k, k ∈ ab_audioFiles ab -> k <> nx).
  { intros k Hk ->. apply Hfiles in Hk. rewrite Hfr in Hk by (simpl; lia). by destruct Hk. }
  assert (Hview : forall k, k ∈ ab_audioFiles ab -> file_view (addAudioFile nf r tn (Build_World h nx ab lg)).2 k =
    file_view (Build_World h nx ab lg) k).
  { intros k Hk. unfold file_view. simpl. by rewrite lookup_insert_ne by (apply not_eq_sym, Hnew, Hk). }
  simpl in Hview, Hwf' |- *. refine (conj (conj Hwf' (conj _ (conj _ _))) _).
  - eapply Forall_impl; [done|]. intros t. unfold track_backed, track_backed_off. rewrite !Exists_exists. intros (k & Hk & Hkv).
    exists k. split; [simpl; by apply elem_of_app; left|]. split; [by apply Hnew|]. by rewrite Hview.
  - eapply Forall_impl; [done|]. intros k [Hk [ino Hino]]. split; [simpl; by apply elem_of_app; left|].
    exists ino. by rewrite Hview.
  - intros Hin. eapply Forall_forall in Hv as [Hk _]; [|done]. by apply (Hnew nx).
  - split; [simpl; apply elem_of_app; right; by apply list_elem_of_singleton|].
    exists (nf_ino nf). unfold file_view. simpl. by rewrite lookup_insert_eq.
Qed.

(** A re-sort of either array. *)
Lemma keeps_backed_modify_ab ls f :
  (forall ab, ab_audioFiles (f ab) ≡ₚ ab_audioFiles ab) ->
  (forall ab, ab_tracks (f ab) ≡ₚ ab_tracks ab) ->
  keeps (backed_state ls) (modify_ab f).
Proof.
  intros Hf Ht w Hw. apply (backed_state_extend ls w); [|by apply keeps_wf_modify_ab, (proj1 Hw)| |done].
  - apply extends_refl_heap; [done|]. apply Hf.
  - intros t Hin. left. simpl in Hin. by rewrite <- (Ht (w_ab w)).
Qed.

(** [addTrack] on a file the loop accepted adds a backed track. *)
Lemma keeps_backed_addTrack ls l : l ∈ ls -> keeps (backed_state ls) (addTrack l).
Proof.
  intros Hl w Hw. pose proof Hw as (Hwf & Hb & Hv). unfold addTrack. mrun.
  destruct (w_heap w !! l) as [af|] eqn:Haf; mrun; [|done].
  apply (backed_state_extend ls w); [|by apply keeps_wf_modify_ab, Hwf| |done].
  - by apply extends_refl_heap.
  - intros t Hin. simpl in Hin. apply elem_of_app in Hin as [Hin|Hin]; [by left|right]; apply list_elem_of_singleton in Hin; subst t.
    eapply Forall_forall in Hv as [Hl' [ino Hino]]; [|done].
    apply Exists_exists. exists l. split; [done|]. unfold file_view in *. simpl.
    rewrite Haf in Hino |- *. simpl in *. injection Hino. intros. simpl. congruence.
Qed.

Lemma keeps_backed_shift_if_zero ls ts : keeps (backed_state ls) (shift_if_zero ts).
Proof.
  unfold shift_if_zero. keeps_tac; apply keeps_backed_modify_file; [apply file_ok_bump_index|done].
Qed.

(** The code after the loop, on the files the loop accepted. *)
Lemma keeps_backed_finish_import st : keeps (backed_state (ls_tracks st)) (finish_import st).
Proof.
  unfold finish_import. apply keeps_bind; [apply keeps_get_ab|intros ab].
  case_match; [apply keeps_log, backed_log_blind|].
  repeat (apply keeps_bind; [case_match; try apply keeps_ret; apply keeps_log, backed_log_blind|intros _]).
  apply keeps_bind; [apply keeps_get_world|intros w].
  apply keeps_bind; [apply keeps_backed_modify_ab; intros; [apply js_sort_Permutation|done]|intros _].
  apply keeps_bind; [apply keeps_backed_shift_if_zero|intros _].
  apply keeps_bind; [apply keeps_get_ab|intros ab'].
  apply keeps_bind; [|intros _].
  - apply keeps_mfold_in. intros _ k Hk. apply keeps_backed_addTrack.
    by rewrite js_sort_Permutation in Hk.
  - case_match; [|apply keeps_ret]. apply keeps_backed_modify_ab; intros; [done|apply js_sort_Permutation].
Qed.

Lemma backed_off_weaken ls l w : backed_off ls l w -> backed_state [] w.
Proof. intros Hw. by eapply backed_state_weaken, backed_off_state. Qed.

(** The code after [addAudioFile] that marks the new file invalid and
    leaves the accepted files as they are. *)
Lemma backed_mark_invalid ls l err st :
  ls_tracks st = ls ->
  triple (backed_off ls l) (modify_file l (mark_invalid err) ;;; ret st)
    (λ st', backed_state (ls_tracks st')) (backed_state []).
Proof.
  intros <-. apply triple_seq_keeps; [|apply backed_off_weaken|intros _].
  - apply keeps_backed_off_modify_file. intros. apply file_ok_mark_invalid.
  - apply triple_ret, backed_off_state.
Qed.

(** One step of the loop: a file it accepts is valid, and the loop state
    keeps the invariant also when the file is rejected or skipped. *)
Lemma import_file_backed prober total st nf :
  triple (backed_state (ls_tracks st)) (import_file prober total st nf)
    (λ st', backed_state (ls_tracks st')) (backed_state []).
Proof.
  unfold import_file. apply triple_bind_mscan; [apply backed_log_blind|apply backed_state_weaken|intros r _].
  case_match.
  { apply triple_seq_keeps; [apply keeps_log, backed_log_blind|apply backed_state_weaken|intros _].
    by apply triple_ret. }
  apply triple_seq_keeps; [apply keeps_get_ab|apply backed_state_weaken|intros ab].
  eapply triple_bind; [apply backed_addAudioFile|intros l].
  cbv beta.
  case_match.
  - apply triple_seq_keeps; [apply keeps_get_world|intros ? [? _]; by eapply backed_off_weaken|intros w].
    case_match.
    + eapply triple_consequence; [by intros ? []|by apply backed_mark_invalid|done].
    + apply triple_seq_keeps; [apply keeps_and|intros ? [? _]; by eapply backed_off_weaken|intros _].
      * apply keeps_backed_off_modify_file. intros. by apply file_ok_with_index.
      * by apply keeps_valid_modify_file.
      * apply triple_ret. intros ? []. by apply backed_off_push.
  - eapply triple_consequence; [by intros ? []| |intros ?? Hq; exact Hq].
    apply triple_seq_keeps; [apply keeps_log, backed_off_log_blind|apply backed_off_weaken|intros _].
    by apply backed_mark_invalid.
Qed.

(** C5. From a well-formed world whose tracks are all backed, an import
    leaves every track of [audiobook.tracks] backed by a non-invalid audio
    file of the audiobook with the same [ino], whatever the prober answers,
    also when a probe rejects: a file marked invalid is one the import just
    allocated, and every track it commits is built from a file it kept. *)
Theorem scanAudioFiles_tracks_backed prober nfs w :
  world_wf w -> tracks_backed w -> tracks_backed (scanAudioFiles prober nfs w).2.
Proof.
  intros Hwf Hb. apply (triple_run (backed_state []) tracks_backed _ (λ _, backed_state []) (backed_state []));
    [|by intros _ ? (_ & ? & _)|by intros ? (_ & ? & _)|split; [done|split; [done|constructor]]].
  unfold scanAudioFiles. apply triple_seq_keeps; [apply keeps_get_ab|done|intros ab].
  repeat case_match; try (apply triple_keeps; [apply keeps_log, backed_log_blind|done]).
  apply triple_seq_keeps; [apply keeps_log, backed_log_blind|done|intros _].
  apply (triple_bind _ _ (λ st, backed_state (ls_tracks st))).
  - apply (triple_consequence _ _ (backed_state (ls_tracks init_state)) _ _ (λ st, backed_state (ls_tracks st))); [done| |done].
    apply (triple_mfold _ (λ st, backed_state (ls_tracks st))). intros. apply import_file_backed.
  - intros st. apply (triple_consequence _ _ (backed_state (ls_tracks st)) _ _ (λ _, backed_state (ls_tracks st)));
      [done| |intros ??; apply backed_state_weaken].
    apply triple_keeps; [apply keeps_backed_finish_import|apply backed_state_weaken].
Qed.

(** ** The rescan and the invariant *)

Lemma map_tr_ino_key ts : map tr_ino ts = map fst (map track_key ts).
Proof. by rewrite map_map. Qed.

Lemma map_tr_path_key ts : map tr_path ts = map snd (map track_key ts).
Proof. by rewrite map_map. Qed.

(** A step that keeps the references, the views of the files and the keys
    of the tracks keeps the rescan's state. *)
Lemma rescan_backed_frame ls0 w w' :
  ab_audioFiles (w_ab w') = ab_audioFiles (w_ab w) ->
  (forall k, file_view w' k = file_view w k /\ file_pview w' k = file_pview w k) ->
  map track_key (ab_tracks (w_ab w')) = map track_key (ab_tracks (w_ab w)) ->
  rescan_backed ls0 w -> rescan_backed ls0 w'.
Proof.
  intros Ha Hv Hk (Hl & Hb & Hs). split_and!; [by rewrite Ha| |].
  - unfold tracks_backed, track_backed in *. rewrite Ha.
    apply (Forall_map_eq tr_ino (λ i, Exists (λ l, file_view w' l = Some (i, false)) (ab_audioFiles (w_ab w)))
      (ab_tracks (w_ab w))); [by rewrite !map_tr_ino_key, Hk|].
    eapply Forall_impl; [done|]. intros t Ht. eapply Exists_impl; [exact Ht|]. intros l. by rewrite (proj1 (Hv l)).
  - unfold path_safe in *. rewrite Ha, map_tr_path_key, Hk, <- map_tr_path_key.
    eapply Forall_impl; [done|]. intros k. by rewrite (proj2 (Hv k)).
Qed.

Lemma rescan_backed_log_blind ls0 : log_blind (rescan_backed ls0).
Proof. by intros L [h nx ab lg]. Qed.

(** Writing at [l] an object with the same [ino], [invalid] and [path]. *)
Lemma file_views_insert w w' l af af' :
  w_heap w !! l = Some af -> w_heap w' = <[l:=af']> (w_heap w) ->
  af_ino af' = af_ino af -> af_invalid af' = af_invalid af -> af_path af' = af_path af ->
  forall k, file_view w' k = file_view w k /\ file_pview w' k = file_pview w k.
Proof.
  intros Hl Hh Hi Hv Hp k. unfold file_view, file_pview. rewrite Hh.
  destruct (decide (k = l)) as [->|Hne].
  - rewrite lookup_insert_eq, Hl. simpl. by rewrite Hi, Hv, Hp.
  - by rewrite lookup_insert_ne by congruence.
Qed.

(** On a path-safe audiobook a file of the audiobook that has the path of
    a track is valid. *)
Lemma path_safe_valid w k af t :
  path_safe w -> k ∈ ab_audioFiles (w_ab w) -> w_heap w !! k = Some af ->
  t ∈ ab_tracks (w_ab w) -> tr_path t = af_path af -> af_invalid af = false.
Proof.
  intros Hs Hk Haf Ht Hp. eapply Forall_forall in Hs; [|done].
  unfold file_pview in Hs. rewrite Haf in Hs. simpl in Hs.
  destruct (af_invalid af); [|done]. exfalso. apply Hs.
  apply list_elem_of_In, in_map_iff. exists t. split; [done|]. by apply list_elem_of_In.
Qed.

(** [sync_track af] for an object [af] of the audiobook: a track found by
    [ino] only takes metadata; a track found by [path] takes the [ino] of
    [af], which the path-safety makes a valid file. *)
Lemma sync_track_backed ls0 af k w :
  rescan_backed ls0 w -> k ∈ ab_audioFiles (w_ab w) -> w_heap w !! k = Some af ->
  rescan_backed ls0 (sync_track af w).2.
Proof.
  intros Hw Hk Haf.
  destruct (find_track_by_ino (af_ino af) (ab_tracks (w_ab w))) as [i|] eqn:Hi.
  { rewrite (sync_track_by_ino _ _ _ Hi). apply (rescan_backed_frame ls0 w); [done|done| |exact Hw].
    simpl. by apply map_alter_frame. }
  destruct (af_exclude af) eqn:Hx.
  { unfold sync_track. mrun. by rewrite Hi, Hx. }
  destruct (find_track_by_path (af_path af) (ab_tracks (w_ab w))) as [i|] eqn:Hp.
  - rewrite (sync_track_by_path _ _ _ Hi Hx Hp). destruct Hw as (Ha & Hb & Hs).
    apply find_index_lookup in Hp as (t & Ht & Hpath%bool_decide_eq_true_1).
    pose proof (path_safe_valid w k af t Hs Hk Haf (list_elem_of_lookup_2 _ _ _ Ht) Hpath) as Hv.
    split_and!; [done| |].
    + apply Forall_alter; [exact Hb|]. intros x _ _. apply Exists_exists. exists k. split; [done|].
      unfold file_view. simpl. rewrite Haf. simpl. by rewrite Hv.
    + unfold path_safe in *. simpl. by rewrite (map_alter_frame tr_path).
  - rewrite (sync_track_orphan _ _ Hi Hx Hp). by apply rescan_backed_log_blind.
Qed.

(** One step of the rescan on a reference of the audiobook. *)
Lemma rescan_file_backed prober ls0 n l :
  l ∈ ls0 -> keeps (rescan_backed ls0) (rescan_file prober n l).
Proof.
  intros Hl w Hw. destruct (w_heap w !! l) as [af|] eqn:Haf.
  2: { unfold rescan_file. mrun. by rewrite Haf. }
  destruct (scan prober (af_fullPath af) false) as [r|] eqn:Hs.
  2: { unfold rescan_file, mscan. mrun. rewrite Haf. unfold bind, log. rewrite Hs. by apply rescan_backed_log_blind. }
  destruct (scan_failed r) eqn:Hf.
  { rewrite (rescan_file_failed _ _ _ _ _ _ Haf Hs Hf). by apply rescan_backed_log_blind. }
  destruct (decide (rescan_patch (book_ctx (w_ab w)) af r = af)) as [Heq|Hne].
  { rewrite (rescan_file_unchanged _ _ _ _ _ _ Haf Hs Hf Heq). by apply rescan_backed_log_blind. }
  rewrite (rescan_file_changed _ _ _ _ _ _ Haf Hs Hf Hne).
  set (p := rescan_patch _ af r). set (w1 := set_heap _ _).
  assert (H1 : rescan_backed ls0 w1).
  { set (w0 := add_log [(LDebug, MsgScanningPath (af_fullPath af))] w).
    apply (rescan_backed_frame ls0 w0); [done| |done|by apply rescan_backed_log_blind].
    by apply (file_views_insert w0 w1 l af p). }
  assert (H2 : w_heap w1 !! l = Some p) by (simpl; by rewrite lookup_insert_eq).
  assert (H3 : l ∈ ab_audioFiles (w_ab w1)) by (simpl; by rewrite (proj1 Hw)).
  pose proof (sync_track_backed ls0 p l w1 H1 H3 H2) as H.
  unfold bind. by destruct (sync_track p w1) as [[[]|] w2].
Qed.

(** C17. A rescan keeps every track backed by a non-invalid audio file of
    the audiobook with its [ino], when no invalid audio file has the path
    of a track (and keeps that condition): a file found by [ino] only
    updates its track's metadata, and the path fallback binds a track to
    a file of that path, which is then valid.  Without the condition the
    fallback can bind a track to an invalid duplicate
    ([Rescan.rescan_file_path_fallback]). *)
Theorem rescanAudioFiles_tracks_backed prober w :
  tracks_backed w -> path_safe w ->
  tracks_backed (rescanAudioFiles prober w).2 /\ path_safe (rescanAudioFiles prober w).2.
Proof.
  intros Hb Hs. cut (rescan_backed (ab_audioFiles (w_ab w)) (rescanAudioFiles prober w).2).
  { by intros (_ & ? & ?). }
  unfold rescanAudioFiles. mrun. apply keeps_run; [|by split_and!].
  apply keeps_mfold_in. intros n l Hl. by apply rescan_file_backed.
Qed.
