(* ===== verification/RoundTrip.v ===== *)
(** * Import, then rescan: the two reconcilers agree

    [scanAudioFiles] builds each audio-file object from the scan result
    and the resolver outputs of that file, and [rescanAudioFiles] patches
    each object with the same two things computed afresh.  With the same
    prober the patch therefore changes nothing: a rescan right after an
    import counts no update and writes nothing but its debug lines.  The
    proof keeps the invariant [in_sync] (every object is what its rescan
    would make of it) through the import with the logic of [MonadLogic]:
    the field writes of the import ([index], [invalid], [error]) are not
    fields the patch touches. *)

From S2P Require Import Prelude JsNumber JsString StableSort Normalizer Resolver Aggregate MonadLogic BatchImport Rescan.

Local Open Scope js_scope.

(** The rescan of [af] leaves it as it is: the prober answers, and either
    the scan fails (the file is skipped) or the patch changes nothing. *)
Definition file_in_sync (prober : string -> bool -> ProbeOutcome) (book : BookCtx) (af : AudioFile) : Prop :=
  match scan prober (af_fullPath af) false with
  | Some r => scan_failed r = false -> rescan_patch book af r = af
  | None => False
  end.

Definition in_sync prober (w : World) : Prop :=
  map_Forall (λ _, file_in_sync prober (book_ctx (w_ab w))) (w_heap w).

#[export] Instance file_in_sync_dec prober book af : Decision (file_in_sync prober book af).
Proof. unfold file_in_sync. case_match; apply _. Defined.

#[export] Instance in_sync_dec prober w : Decision (in_sync prober w).
Proof. unfold in_sync. apply _. Defined.

(** A field write the rescan patch does not see. *)
Definition patch_blind (f : AudioFile -> AudioFile) : Prop :=
  forall af, af_fullPath (f af) = af_fullPath af /\ af_filename (f af) = af_filename af /\
    forall r tn, af_update r tn (f af) = f (af_update r tn af).

(** * Properties *)

Lemma patch_blind_mark_invalid err : patch_blind (mark_invalid err).
Proof. done. Qed.

Lemma patch_blind_with_index i : patch_blind (with_index i).
Proof. done. Qed.

Lemma patch_blind_bump_index : patch_blind bump_index.
Proof. done. Qed.

Lemma file_in_sync_blind prober book f af :
  patch_blind f -> file_in_sync prober book af -> file_in_sync prober book (f af).
Proof.
  intros Hf. unfold file_in_sync, rescan_patch. destruct (Hf af) as (-> & -> & Hu).
  destruct (scan prober (af_fullPath af) false); [|done]. intros H Hr. by rewrite Hu, H.
Qed.

Lemma add_log_nil w : add_log [] w = w.
Proof. destruct w. unfold add_log. simpl. by rewrite app_nil_r. Qed.

Lemma sync_log_blind prober : log_blind (in_sync prober).
Proof. by intros L [h nx ab lg]. Qed.

Lemma keeps_sync_modify_file prober l f :
  patch_blind f -> keeps (in_sync prober) (modify_file l f).
Proof.
  intros Hf [h nx ab lg] Hw k af Hk. simpl in *.
  apply lookup_alter_Some in Hk as [(<- & af0 & Hl & ->)|[_ Hk]].
  - apply file_in_sync_blind; [done|]. by eapply Hw.
  - by eapply Hw.
Qed.

Lemma keeps_sync_modify_ab prober f :
  (forall ab, ab_book (f ab) = ab_book ab) -> keeps (in_sync prober) (modify_ab f).
Proof.
  intros Hf [h nx ab lg] Hw. unfold in_sync, book_ctx in *. simpl in *. by rewrite Hf.
Qed.

#[export] Hint Resolve sync_log_blind patch_blind_mark_invalid patch_blind_with_index
  patch_blind_bump_index : keeps.
#[export] Hint Extern 2 (keeps (in_sync _) (modify_file _ _)) =>
  apply keeps_sync_modify_file; eauto with keeps : keeps.
#[export] Hint Extern 2 (keeps (in_sync _) (modify_ab _)) =>
  apply keeps_sync_modify_ab; intros; reflexivity : keeps.

(** The object [addAudioFile] builds from a scan result and the resolver
    outputs of that result is in sync. *)
Lemma sync_addAudioFile prober nf r w :
  scan prober (nf_fullPath nf) false = Some r -> in_sync prober w ->
  in_sync prober (addAudioFile nf r (resolve_track_numbers (book_ctx (w_ab w)) (nf_filename nf) r) w).2.
Proof.
  intros Hs Hw. destruct w as [h nx ab lg]. unfold in_sync in *. simpl in *.
  apply map_Forall_insert_2; [|done]. unfold file_in_sync. simpl. by rewrite Hs.
Qed.

Lemma keeps_sync_import_file prober total st nf : keeps (in_sync prober) (import_file prober total st nf).
Proof.
  unfold import_file. apply keeps_bind_mscan; [apply sync_log_blind|]. intros r Hs.
  case_match; [keeps_tac|]. intros w Hw. cbn [bind get_ab]. unfold bind at 1.
  pose proof (sync_addAudioFile prober nf r w Hs Hw) as Ha.
  destruct (addAudioFile _ _ _ _) as [[l|] w1]; [|done].
  revert Ha. apply keeps_run. keeps_tac.
Qed.

Lemma keeps_sync_addTrack prober l : keeps (in_sync prober) (addTrack l).
Proof. unfold addTrack. keeps_tac. Qed.

Lemma keeps_sync_shift_if_zero prober ts : keeps (in_sync prober) (shift_if_zero ts).
Proof. unfold shift_if_zero. keeps_tac. Qed.

#[export] Hint Resolve keeps_sync_import_file keeps_sync_addTrack keeps_sync_shift_if_zero : keeps.

Lemma keeps_sync_scanAudioFiles prober nfs : keeps (in_sync prober) (scanAudioFiles prober nfs).
Proof. unfold scanAudioFiles, finish_import. keeps_tac. Qed.

(** On a world in sync, one rescan step counts nothing and only logs. *)
Lemma rescan_file_in_sync prober n l w :
  in_sync prober w -> exists L, rescan_file prober n l w = (Done n, add_log L w).
Proof.
  intros Hw. destruct (w_heap w !! l) as [af|] eqn:Hl.
  - pose proof (Hw l af Hl) as Haf. unfold file_in_sync in Haf.
    destruct (scan prober (af_fullPath af) false) as [r|] eqn:Hs; [|done].
    destruct (scan_failed r) eqn:Hf.
    + eexists. by eapply rescan_file_failed.
    + eexists. eapply rescan_file_unchanged; eauto.
  - exists []. rewrite add_log_nil. unfold rescan_file. mrun. by rewrite Hl.
Qed.

Lemma rescan_fold_in_sync prober ls : forall n w,
  in_sync prober w -> exists L, mfold (rescan_file prober) n ls w = (Done n, add_log L w).
Proof.
  induction ls as [|l ls IH]; intros n w Hw; simpl.
  - exists []. by rewrite add_log_nil.
  - unfold bind. destruct (rescan_file_in_sync prober n l w Hw) as [L1 ->].
    destruct (IH n (add_log L1 w)) as [L2 ->]; [by apply sync_log_blind|].
    exists (L1 ++ L2). by rewrite add_log_app.
Qed.

(** On an audiobook whose audio files are what a rescan would make of
    them, [rescanAudioFiles] returns 0 and changes nothing but the log. *)
Lemma rescanAudioFiles_in_sync prober w :
  in_sync prober w -> exists L, rescanAudioFiles prober w = (Done 0, add_log L w).
Proof. intros Hw. unfold rescanAudioFiles. mrun. by apply rescan_fold_in_sync. Qed.

(** C3. Import, then rescan with the same prober: the rescan finds every
    file the import added up to date, returns 0 updates and changes
    nothing but the log.  This holds whatever the import did (duplicates,
    invalid files, the zero shift, a rejected probe), from any audiobook
    whose files were up to date, a new one included. *)
Theorem import_then_rescan prober nfs w :
  in_sync prober w ->
  let w' := (scanAudioFiles prober nfs w).2 in
  exists L, rescanAudioFiles prober w' = (Done 0, add_log L w').
Proof. intros Hw w'. apply rescanAudioFiles_in_sync. by apply keeps_sync_scanAudioFiles. Qed.
