(* ===== verification/Scenarios.v ===== *)
(** * Concrete runs of the scanner

    Sample probe results, batches and audiobooks, the spec's example of
    section 8 evaluated on the model, and the general theorems applied at
    concrete inputs where their hypotheses hold. *)

From S2P Require Import Prelude JsNumber JsString RegExp StableSort Normalizer Resolver Aggregate MonadLogic BatchImport Rescan Diagnostics Contracts WorldInvariant TrackBacking RoundTrip.

Local Open Scope string_scope.
Local Open Scope js_scope.

(** ** Sample data *)

Definition sample_stream : AudioStream :=
  Build_AudioStream false None (Some "mp3") None None None None None.

(** A probe result with one audio stream, a duration, a size and the given
    tag fields. *)
Definition sample_probe (fields : list (string * option string)) : ProbeData :=
  {| pd_format := Some "mp3"; pd_duration := Some (js_int 100); pd_size := Some (js_int 1000);
     pd_bit_rate := None; pd_audio_streams := Some [sample_stream]; pd_video_stream := None;
     pd_chapters := None; pd_fields := fields; pd_rawTags := None |}.

(** A prober that reads the track tag of each path from a table. *)
Definition tag_prober (tags : list (string * string)) (p : string) (_ : bool) : ProbeOutcome :=
  ProbeResolves (Some (sample_probe
    (match find_first (λ '(k, _), bool_decide (k = p)) tags with
     | Some (_, t) => [("file_tag_track", Some t)]
     | None => []
     end))).

(** A prober that throws on every path. *)
Definition failing_prober (_ : string) (_ : bool) : ProbeOutcome := ProbeRejects.

Definition sample_file (n : string) : NewFile :=
  Build_NewFile n (n ++ ".mp3") ("b/" ++ n ++ ".mp3") ("/b/" ++ n ++ ".mp3") ".mp3".

Definition sample_book (tracks : list AudioTrack) : Audiobook :=
  Build_Audiobook "ab1" (Some "Book") None [] tracks.

Definition sample_world (tracks : list AudioTrack) : World :=
  Build_World ∅ 0 (sample_book tracks) [].

(** The world after importing the files [names] with the track tags [tags]. *)
Definition run_batch (tags : list (string * string)) (names : list string) (w : World) : World :=
  (scanAudioFiles (tag_prober tags) (Some (map sample_file names)) w).2.

Definition track_indices (w : World) : list (option jsnum) := map tr_index (ab_tracks (w_ab w)).

Definition tags_213 : list (string * string) :=
  [("/b/a.mp3", "2"); ("/b/b.mp3", "1"); ("/b/c.mp3", "3")].

Definition tags_dup : list (string * string) :=
  [("/b/a.mp3", "1"); ("/b/b.mp3", "1"); ("/b/c.mp3", "2")].

(** Two files tagged 1 and 0: a zero-based batch. *)
Definition tags_10 : list (string * string) := [("/b/a.mp3", "1"); ("/b/b.mp3", "0")].

(** A track already committed with index 1. *)
Definition sample_track : AudioTrack :=
  Build_AudioTrack (Some (js_int 1)) "t1" "old.mp3" "b/old.mp3" "/b/old.mp3" ".mp3" (ScanError "").

(** An audiobook with one known file (at address 0) whose track has lost
    its [ino]: the file was replaced on disk. *)
Definition known_file : AudioFile :=
  {| af_ino := "i2"; af_filename := "a.mp3"; af_path := "b/a.mp3"; af_fullPath := "/b/a.mp3";
     af_ext := ".mp3"; af_meta := ScanError ""; af_trackNumFromMeta := None;
     af_trackNumFromFilename := None; af_cdNumFromFilename := None; af_index := Some (js_int 1);
     af_invalid := false; af_error := None; af_exclude := false |}.

Definition replaced_track : AudioTrack :=
  Build_AudioTrack (Some (js_int 1)) "i1" "a.mp3" "b/a.mp3" "/b/a.mp3" ".mp3" (ScanError "").


(** The prober of the rescans: the file now carries the track tag 1. *)
Definition rescan_prober : string -> bool -> ProbeOutcome := tag_prober [("/b/a.mp3", "1")].

(** [known_file] as the rescan patches it. *)
Definition synced_file : AudioFile :=
  match scan rescan_prober "/b/a.mp3" false with
  | Some r => rescan_patch empty_book known_file r
  | None => known_file
  end.

(** The audiobook with [known_file] and the given tracks. *)
Definition rescan_world_with (f : AudioFile) (tracks : list AudioTrack) : World :=
  Build_World {[0 := f]} 1 (Build_Audiobook "ab1" (Some "Book") None [0] tracks) [].

(** A track whose [ino] is the file's. *)
Definition matching_track : AudioTrack :=
  Build_AudioTrack (Some (js_int 1)) "i2" "a.mp3" "b/a.mp3" "/b/a.mp3" ".mp3" (ScanError "").

(** A second stream, flagged default. *)
Definition flagged_stream : AudioStream :=
  Build_AudioStream true (Some (js_int 128000)) (Some "aac") None None None (Some (js_int 2)) None.

(** A probe result with cover art. *)
Definition probe_with_cover : ProbeData :=
  {| pd_format := Some "mp3"; pd_duration := Some (js_int 100); pd_size := Some (js_int 1000);
     pd_bit_rate := Some (js_int 64000); pd_audio_streams := Some [sample_stream; flagged_stream];
     pd_video_stream := Some {| vs_codec := Some "png" |};
     pd_chapters := None; pd_fields := [("file_tag_track", Some "5/12")]; pd_rawTags := None |}.

Definition empty_metadata : AudioMetadata :=
  Build_AudioMetadata None None None None None None None None None None [] None [] None None None.

(** The metadata [scan] computes for [probe_with_cover]. *)
Definition cover_metadata : AudioMetadata :=
  match scan_probe_data (Some probe_with_cover) false with ScanData md => md | ScanError _ => empty_metadata end.

(** A track whose file name carries only a disc number. *)
Definition disc_track : AudioTrack :=
  Build_AudioTrack (Some (js_int 1)) "i3" "Disc 2.mp3" "b/Disc 2.mp3" "/b/Disc 2.mp3" ".mp3" (ScanError "").

(** Two files tagged -1 and 0: a batch with a negative candidate. *)
Definition tags_neg : list (string * string) := [("/b/a.mp3", "-1"); ("/b/b.mp3", "0")].

(** The import of [tags_dup] after its first file: the loop state and the
    world in which the second file, also tagged 1, is handled. *)
Definition dup_after_first : result LoopState * World :=
  mfold (import_file (tag_prober tags_dup) 3) init_state [sample_file "a"] (sample_world []).

Definition dup_st : LoopState :=
  match dup_after_first.1 with Done st => st | Thrown => init_state end.

Definition dup_w : World := dup_after_first.2.

(** The scan result of the second file. *)
Definition dup_r : ScanResult :=
  default (ScanError "") (scan (tag_prober tags_dup) (nf_fullPath (sample_file "b")) false).

(** * Properties *)

(** ** The spec's examples *)

(** Spec section 8: three files tagged 2, 1 and 3 with no number in their
    names are committed with the indices 1, 2, 3, in each of the six input
    orders. *)
Example spec_example_order_213 :
  map (λ names, track_indices (run_batch tags_213 names (sample_world [])))
      (permutations ["a"; "b"; "c"]) =
  replicate 6 [Some (js_int 1); Some (js_int 2); Some (js_int 3)].
Proof. vm_compute. reflexivity. Qed.

(** ** Runs that exhibit the findings *)

(** ** The general theorems at concrete inputs *)

Lemma scanAudioFiles_refines_witness :
  (scanAudioFiles (tag_prober tags_dup) (Some (map sample_file ["a"; "b"; "c"])) (sample_world [])).1 = Done tt /\
  map tr_index (ab_tracks (w_ab (scanAudioFiles (tag_prober tags_dup)
                                   (Some (map sample_file ["a"; "b"; "c"])) (sample_world [])).2)) =
    [Some (js_int 1); Some (js_int 2)].
Proof.
  change [Some (js_int 1); Some (js_int 2)] with
    (planned_track_indices [] (committed_indices
      (map (plan_file (tag_prober tags_dup) empty_book 3) (map sample_file ["a"; "b"; "c"])))).
  apply (scanAudioFiles_refines (tag_prober tags_dup) (map sample_file ["a"; "b"; "c"]) (sample_world [])).
  - intros l _. reflexivity.
  - discriminate.
  - repeat constructor; eexists; reflexivity.
Defined.

Lemma batch_commits_increasing_witness :
  exists zs, map tr_index (ab_tracks (w_ab (scanAudioFiles (tag_prober tags_10)
                                             (Some (map sample_file ["a"; "b"])) (sample_world [])).2)) =
             map (λ z, Some (js_int z)) zs /\ StronglySorted Z.lt zs /\ Forall (λ z, (0 < z)%Z) zs.
Proof.
  apply (batch_commits_increasing (tag_prober tags_10) (map sample_file ["a"; "b"]) (sample_world [])).
  - intros l _. reflexivity.
  - discriminate.
  - repeat constructor; eexists; reflexivity.
  - reflexivity.
  - constructor; [change (index_in_range (PIndex (js_int 1))); exists 1%Z; split; [reflexivity|lia]|].
    constructor; [change (index_in_range (PIndex (js_int 0))); exists 0%Z; split; [reflexivity|lia]|].
    constructor.
Defined.

Lemma batch_single_file_index_one_witness :
  map tr_index (ab_tracks (w_ab (scanAudioFiles (tag_prober [("/b/a.mp3", "7")])
                                   (Some [sample_file "a"]) (sample_world [])).2)) =
    planned_track_indices [] [js_int 1].
Proof.
  eapply (batch_single_file_index_one (tag_prober [("/b/a.mp3", "7")]) (sample_file "a") (sample_world [])).
  - intros l _. reflexivity.
  - reflexivity.
  - reflexivity.
Defined.

Lemma scanAudioFiles_reject_propagates_witness :
  (scanAudioFiles failing_prober (Some [sample_file "a"]) (sample_world [sample_track])).1 = Thrown /\
  ab_tracks (w_ab (scanAudioFiles failing_prober (Some [sample_file "a"]) (sample_world [sample_track])).2) =
    [sample_track].
Proof.
  apply (scanAudioFiles_reject_propagates failing_prober [sample_file "a"] (sample_world [sample_track])).
  constructor. reflexivity.
Defined.

Lemma scanAudioFiles_summary_log_witness :
  exists wl, w_log (scanAudioFiles (tag_prober tags_dup) (Some (map sample_file ["a"; "b"; "c"]))
                      (sample_world [])).2 =
    (wl ++ finish_log (plan_batch (map (plan_file (tag_prober tags_dup) empty_book 3)
                                       (map sample_file ["a"; "b"; "c"]))) "ab1" (Some "Book"))%list.
Proof.
  apply (scanAudioFiles_summary_log (tag_prober tags_dup) (map sample_file ["a"; "b"; "c"]) (sample_world [])).
  - intros l _. reflexivity.
  - discriminate.
  - repeat constructor; eexists; reflexivity.
Defined.

Lemma rescan_counts_updates_witness :
  (rescanAudioFiles rescan_prober (rescan_world_with known_file [replaced_track])).1 =
    Done (length (List.filter (rescan_changes rescan_prober empty_book {[0 := known_file]}) [0])).
Proof.
  apply (rescan_counts_updates rescan_prober (rescan_world_with known_file [replaced_track])).
  - constructor; [apply not_elem_of_nil|constructor].
  - constructor; [|constructor]. eexists; reflexivity.
Defined.

Lemma rescan_file_path_fallback_witness :
  exists w', rescan_file rescan_prober 0 0 (rescan_world_with known_file [replaced_track]) = (Done 1, w') /\
    ab_tracks (w_ab w') =
      alter (λ t, syncMetadata synced_file (set_track_ino "i2" t)) 0 [replaced_track] /\
    w_heap w' = <[0 := synced_file]> {[0 := known_file]} /\
    w_log w' = [(LDebug, MsgScanningPath "/b/a.mp3"); (LError, MsgInoMismatch "a.mp3")].
Proof.
  eapply (rescan_file_path_fallback rescan_prober (rescan_world_with known_file [replaced_track]) 0 known_file).
  - reflexivity.
  - reflexivity.
  - reflexivity.
  - vm_compute. discriminate.
  - reflexivity.
  - reflexivity.
  - reflexivity.
Defined.

Lemma rescan_file_orphan_witness :
  exists w', rescan_file rescan_prober 0 0 (rescan_world_with known_file []) = (Done 1, w') /\
    ab_tracks (w_ab w') = [] /\
    w_log w' = [(LDebug, MsgScanningPath "/b/a.mp3"); (LError, MsgNoMatchingTrack "a.mp3" (Some "Book"))].
Proof.
  eapply (rescan_file_orphan rescan_prober (rescan_world_with known_file []) 0 known_file).
  - reflexivity.
  - reflexivity.
  - reflexivity.
  - vm_compute. discriminate.
  - reflexivity.
  - reflexivity.
  - reflexivity.
Defined.

Lemma scanTrackNumbers_reports_witness :
  exists reps, (scanTrackNumbers rescan_prober (rescan_world_with known_file [replaced_track])).1 = Done reps /\
    map rp_filename reps = ["a.mp3"] /\ map rp_currentTrackNum reps = [Some (js_int 1)].
Proof.
  apply (scanTrackNumbers_reports rescan_prober (rescan_world_with known_file [replaced_track])).
  constructor; [|constructor]. eexists; reflexivity.
Defined.

Lemma track_from_filename_bounds_witness :
  exists n, num_to_xint (js_int 3) = Some (XFin n) /\ (0 <= n <= 9999)%Z.
Proof.
  apply (track_from_filename_bounds empty_book "03.mp3"). vm_compute. reflexivity.
Defined.

Lemma resolve_promotes_cd_witness :
  tn_fromFilename (resolve_track_numbers empty_book "Disc 2.mp3" (ScanError "")) = Some (js_int 2) /\
  tn_cdFromFilename (resolve_track_numbers empty_book "Disc 2.mp3" (ScanError "")) = None.
Proof.
  apply (resolve_promotes_cd empty_book "Disc 2.mp3" (ScanError "") (js_int 2)).
  - vm_compute. reflexivity.
  - vm_compute. reflexivity.
  - vm_compute. reflexivity.
Defined.

Lemma scan_probe_data_stream_witness :
  exists s ss a, pd_audio_streams probe_with_cover = Some (s :: ss) /\
    getDefaultAudioStream (s :: ss) = Some a /\
    md_codec cover_metadata = as_codec a /\ md_channels cover_metadata = as_channels a /\
    md_sample_rate cover_metadata = as_sample_rate a /\
    md_bit_rate cover_metadata = num_or (as_bit_rate a) (pd_bit_rate probe_with_cover) /\
    md_duration cover_metadata = pd_duration probe_with_cover /\ num_opt_truthy (md_duration cover_metadata) = true /\
    md_size cover_metadata = pd_size probe_with_cover /\ num_opt_truthy (md_size cover_metadata) = true.
Proof.
  apply (scan_probe_data_stream probe_with_cover false cover_metadata). vm_compute. reflexivity.
Defined.

(** The world of [rescan_world_with] is well formed, and stays so through an
    import with duplicates. *)
Lemma scanAudioFiles_wf_witness :
  world_wf (rescan_world_with known_file [matching_track]) /\
  world_wf (scanAudioFiles (tag_prober tags_dup) (Some (map sample_file ["a"; "b"; "c"]))
              (rescan_world_with known_file [matching_track])).2.
Proof.
  assert (Hw : world_wf (rescan_world_with known_file [matching_track]))
    by (apply (bool_decide_unpack _); vm_compute; exact I).
  split; [exact Hw|]. apply scanAudioFiles_wf. exact Hw.
Defined.

(** A new audiobook imports three files, two of them with the same track
    tag; the rescan that follows finds nothing to update. *)
Lemma import_then_rescan_witness :
  in_sync (tag_prober tags_dup) (sample_world []) /\
  exists L, rescanAudioFiles (tag_prober tags_dup) (run_batch tags_dup ["a"; "b"; "c"] (sample_world [])) =
    (Done 0, add_log L (run_batch tags_dup ["a"; "b"; "c"] (sample_world []))).
Proof.
  assert (Hs : in_sync (tag_prober tags_dup) (sample_world []))
    by (apply (bool_decide_unpack _); vm_compute; exact I).
  split; [exact Hs|]. exact (import_then_rescan (tag_prober tags_dup) _ _ Hs).
Defined.

(** The files tagged 2, 1 and 3, imported in the orders a, b, c and c, a, b. *)
Lemma batch_order_independent_witness :
  Forall index_in_range
    (map (plan_file (tag_prober tags_213) (book_ctx (w_ab (sample_world []))) 3)
         (map sample_file ["a"; "b"; "c"])) /\
  track_indices (run_batch tags_213 ["c"; "a"; "b"] (sample_world [])) =
  track_indices (run_batch tags_213 ["a"; "b"; "c"] (sample_world [])).
Proof.
  assert (Hr : Forall index_in_range
    (map (plan_file (tag_prober tags_213) (book_ctx (w_ab (sample_world []))) 3)
         (map sample_file ["a"; "b"; "c"]))).
  { assert (E : map (plan_file (tag_prober tags_213) (book_ctx (w_ab (sample_world []))) 3)
                  (map sample_file ["a"; "b"; "c"]) =
                [PIndex (js_int 2); PIndex (js_int 1); PIndex (js_int 3)]) by (vm_compute; reflexivity).
    rewrite E. repeat constructor; eexists; (split; [reflexivity|lia]). }
  split; [exact Hr|]. apply (batch_order_independent (tag_prober tags_213)); [| |apply Permutation_map| |exact Hr].
  - intros l _. reflexivity.
  - discriminate.
  - apply (bool_decide_unpack _). vm_compute. exact I.
  - repeat constructor; eexists; reflexivity.
Defined.

Lemma scanAudioFiles_tracks_backed_witness :
  world_wf (rescan_world_with known_file [matching_track]) /\
  tracks_backed (rescan_world_with known_file [matching_track]) /\
  tracks_backed (scanAudioFiles (tag_prober tags_dup) (Some (map sample_file ["a"; "b"; "c"]))
                   (rescan_world_with known_file [matching_track])).2.
Proof.
  assert (Hw : world_wf (rescan_world_with known_file [matching_track]))
    by (apply (bool_decide_unpack _); vm_compute; exact I).
  assert (Hb : tracks_backed (rescan_world_with known_file [matching_track]))
    by (apply (bool_decide_unpack _); vm_compute; exact I).
  split_and!; [exact Hw|exact Hb|]. apply scanAudioFiles_tracks_backed; [exact Hw|exact Hb].
Defined.

Lemma rescanAudioFiles_tracks_backed_witness :
  tracks_backed (rescan_world_with known_file [matching_track]) /\
  path_safe (rescan_world_with known_file [matching_track]) /\
  tracks_backed (rescanAudioFiles rescan_prober (rescan_world_with known_file [matching_track])).2 /\
  path_safe (rescanAudioFiles rescan_prober (rescan_world_with known_file [matching_track])).2.
Proof.
  assert (Hb : tracks_backed (rescan_world_with known_file [matching_track]))
    by (apply (bool_decide_unpack _); vm_compute; exact I).
  assert (Hs : path_safe (rescan_world_with known_file [matching_track]))
    by (apply (bool_decide_unpack _); vm_compute; exact I).
  refine (conj Hb (conj Hs _)). apply rescanAudioFiles_tracks_backed; [exact Hb|exact Hs].
Defined.

Lemma import_file_duplicate_witness :
  exists w', import_file (tag_prober tags_dup) 3 dup_st (sample_file "b") dup_w = (Done (add_duplicate dup_st), w') /\
    ab_audioFiles (w_ab w') = (ab_audioFiles (w_ab dup_w) ++ [w_next dup_w])%list /\
    ab_tracks (w_ab w') = ab_tracks (w_ab dup_w) /\
    (exists af, w_heap w' !! w_next dup_w = Some af /\ af_ino af = nf_ino (sample_file "b") /\
       af_invalid af = true /\ af_error af = Some "Duplicate track number" /\ af_index af = None) /\
    (forall k, k <> w_next dup_w -> w_heap w' !! k = w_heap dup_w !! k).
Proof.
  apply (import_file_duplicate _ _ _ _ _ dup_r (js_int 1) 0).
  - vm_compute. repeat constructor.
  - vm_compute. reflexivity.
  - vm_compute. reflexivity.
  - vm_compute. reflexivity.
  - vm_compute. reflexivity.
Defined.

Lemma negative_candidate_commits_zero_witness :
  Some (js_int 0) ∈ track_indices (run_batch tags_neg ["a"; "b"] (sample_world [])).
Proof.
  assert (E : map (plan_file (tag_prober tags_neg) (book_ctx (w_ab (sample_world [])))
                   (length (map sample_file ["a"; "b"]))) (map sample_file ["a"; "b"]) = [PIndex (js_int (-1)); PIndex (js_int 0)])
    by (vm_compute; reflexivity).
  apply (negative_candidate_commits_zero _ _ _ (-1)%Z).
  - intros l _. reflexivity.
  - discriminate.
  - repeat constructor; eexists; reflexivity.
  - reflexivity.
  - rewrite E. constructor; [exists (-1)%Z; split; [reflexivity|lia]|].
    constructor; [exists 0%Z; split; [reflexivity|lia]|]. constructor.
  - lia.
  - rewrite E. apply elem_of_cons. by left.
  - rewrite E. apply elem_of_cons. right. by apply list_elem_of_singleton.
Defined.

Lemma import_ignores_existing_indices_witness :
  ~ NoDup (track_indices (run_batch [("/b/a.mp3", "7")] ["a"] (sample_world [sample_track]))).
Proof.
  assert (E : map (plan_file (tag_prober [("/b/a.mp3", "7")]) (book_ctx (w_ab (sample_world [sample_track])))
                   (length (map sample_file ["a"]))) (map sample_file ["a"]) = [PIndex (js_int 1)])
    by (vm_compute; reflexivity).
  apply (import_ignores_existing_indices _ _ _ 1%Z).
  - intros l _. reflexivity.
  - discriminate.
  - repeat constructor; eexists; reflexivity.
  - rewrite E. constructor; [exists 1%Z; split; [reflexivity|lia]|constructor].
  - rewrite E. intros H%list_elem_of_singleton. vm_compute in H. congruence.
  - rewrite E. by apply list_elem_of_singleton.
  - by apply list_elem_of_singleton.
Defined.

Lemma scanTrackNumbers_filename_raw_witness :
  exists reps, (scanTrackNumbers rescan_prober (rescan_world_with known_file [disc_track])).1 = Done reps /\
    map rp_trackNumFromFilename reps = [None].
Proof.
  destruct (scanTrackNumbers_filename_raw rescan_prober (rescan_world_with known_file [disc_track]))
    as (reps & Hrun & Hn); [repeat constructor; eexists; reflexivity|].
  exists reps. split; [done|]. rewrite Hn. vm_compute. reflexivity.
Defined.
